(** * comm: a serial / TCP byte-stream channel (TamaGO89/comm)

    A shallow embedding of the C++ sources

      - include/comm/utils.h, src/utils.cc : timing utilities, serial settings
      - src/comm.cc                        : the channel, the line framer, the setters
      - src/serial.cc, src/ether.cc        : the two transport drivers

    Machine integers are [Z] with the wrap-around written out, [double] is
    binary64 as specified by [SpecFloat], byte buffers are lists of [ascii],
    and the methods of [Comm] are computations of a small state-and-exception
    monad over the object and the operating system it talks to. *)

From Stdlib Require Import ZArith List Bool String Ascii Lia.
From Stdlib Require Import QArith Qround Lqa.
From Stdlib Require Import Floats.SpecFloat.
Import ListNotations.

Local Open Scope Z_scope.

(* ================================================================== *)
(** * Machine integers *)

Module Int.

Definition UINT32_MAX : Z := 4294967295.
Definition INT64_MIN  : Z := - 2 ^ 63.
Definition INT64_MAX  : Z := 2 ^ 63 - 1.
Definition SIZE_MAX   : Z := 2 ^ 64 - 1.

(** [size_t] and [unsigned long]: arithmetic modulo [2^64]. *)
Definition wrap64 (z : Z) : Z := z mod 2 ^ 64.

(** [uint32_t]. *)
Definition wrap32 (z : Z) : Z := z mod 2 ^ 32.

(** Conversion of an unsigned 64-bit result to [long] / [time_t] /
    [ssize_t] (two's complement). *)
Definition sint64 (z : Z) : Z :=
  let u := z mod 2 ^ 64 in if u <? 2 ^ 63 then u else u - 2 ^ 64.

Definition in_int64 (z : Z) : bool := (INT64_MIN <=? z) && (z <=? INT64_MAX).

End Int.
Import Int.

(* ================================================================== *)
(** * Exceptions (utils.h) *)

(** The three exception classes of utils.h carry a description and, for the
    two-argument constructor, the value of [errno]; the standard exceptions
    carry their message. *)
Inductive exn : Type :=
| InterfaceException (description_ : string) (errno_ : option Z)
| IOException        (description_ : string) (errno_ : option Z)
| ConnectionException (description_ : string)
| invalid_argument   (what : string)
| runtime_error      (what : string).

(** A pure function that may throw. *)
Inductive result (A : Type) : Type :=
| Ok  (a : A)
| Err (e : exn).
Arguments Ok {A} a.
Arguments Err {A} e.

(* ================================================================== *)
(** * binary64 *)

Module Double.

Definition prec : Z := 53.
Definition emax : Z := 1024.

Definition double : Type := spec_float.

Definition add : double -> double -> double := SFadd prec emax.
Definition sub : double -> double -> double := SFsub prec emax.
Definition mul : double -> double -> double := SFmul prec emax.
Definition div : double -> double -> double := SFdiv prec emax.

(** Integer-to-double conversion (round to nearest even; exact below 2^53). *)
Definition of_Z (z : Z) : double := binary_normalize prec emax z 0 false.

(** The double [m * 2^e] for integers [m] and [e], rounded to nearest. *)
Definition of_Z_exp (m e : Z) : double := binary_normalize prec emax m e false.

Definition is_finite (x : double) : bool :=
  match x with
  | S754_zero _ | S754_finite _ _ _ => true
  | _ => false
  end.

(** The rational number a finite double stands for (0 for the others). *)
Definition to_Q (x : double) : Q :=
  match x with
  | S754_finite s m e =>
      let z := cond_Zopp s (Zpos m) in
      match e with
      | Z0 => inject_Z z
      | Zpos p => inject_Z (z * 2 ^ Zpos p)
      | Zneg p => Qmake z (2 ^ p)%positive
      end
  | _ => 0%Q
  end.

(** [std::round] on the value: nearest integer, halfway cases away from zero. *)
Definition round_away (q : Q) : Z :=
  if Qle_bool 0 q then Qfloor (q + (1 # 2)) else - Qfloor (- q + (1 # 2)).

(** [static_cast<int64_t>(std::floor(x))].  The floor of a finite double is
    a double, so the two steps compose exactly.  When the value does not fit
    in 64 bits, or [x] is an infinity or a NaN, the conversion is undefined
    in C++; the result modelled is the one of the x86-64 conversion
    instruction, the "integer indefinite" value [INT64_MIN]. *)
Definition floor_int64 (x : double) : Z :=
  if is_finite x then
    let z := Qfloor (to_Q x) in
    if in_int64 z then z else INT64_MIN
  else INT64_MIN.

(** [static_cast<uint32_t>(std::round(x))]: the rounded value, converted
    through 64 bits and truncated to the low 32 bits as x86-64 does. *)
Definition round_uint32 (x : double) : Z :=
  if is_finite x then
    let z := round_away (to_Q x) in
    if in_int64 z then wrap32 z else wrap32 INT64_MIN
  else wrap32 INT64_MIN.

Definition one          : double := of_Z 1.
Definition one_and_half : double := of_Z_exp 3 (-1).
Definition million      : double := of_Z 1000000.

End Double.
Import Double.

(* ================================================================== *)
(** * Timing utilities (utils.h, utils.cc) *)

(** [struct timeval] *)
Record timeval : Type := mk_timeval { tv_sec : Z; tv_usec : Z }.

(** [struct timespec]; its fields are [tv_sec] and [tv_nsec] in C. *)
Record timespec : Type := mk_timespec { ts_sec : Z; ts_nsec : Z }.

(** The exception [to_timeval] throws. *)
Definition RangeError : exn := runtime_error "Time is out of dual 32-bit range".

(** utils.cc, [to_timeval]. *)
Definition to_timeval (data : double) : result timeval :=
  let sec64 := floor_int64 data in
  if (sec64 <? 0) || (sec64 >? UINT32_MAX) then Err RangeError
  else
    let sec0  := wrap32 sec64 in
    let usec0 := round_uint32 (mul (sub data (of_Z sec64)) million) in
    (* time.tv_sec += (time.tv_usec / 1000000ul); time.tv_usec %= 1000000ul; *)
    let sec1  := sint64 (wrap64 (wrap64 sec0 + wrap64 usec0 / 1000000)) in
    let usec1 := sint64 (wrap64 usec0 mod 1000000) in
    Ok (mk_timeval sec1 usec1).

(** The product [(data - sec64) * 1e6] of [to_timeval], a double, and the
    microsecond count it is rounded and converted to before the carry. *)
Definition usec_product (data : double) : double :=
  mul (sub data (of_Z (floor_int64 data))) million.
Definition usec_raw (data : double) : Z := round_uint32 (usec_product data).

(** utils.h, the serial settings. *)
Inductive ByteSize := FIVE | SIX | SEVEN | EIGHT.
Inductive Parity := NOPAR | ODD | EVEN | MARK | SPACE.
Inductive StopBits := ONE | TWO | HALFONE.
Inductive FlowControl := NOFLOW | SOFTWARE | HARDWARE.

(** The enumerators' values. *)
Definition ByteSize_val (b : ByteSize) : Z :=
  match b with FIVE => 5 | SIX => 6 | SEVEN => 7 | EIGHT => 8 end.
Definition Parity_val (p : Parity) : Z :=
  match p with NOPAR => 0 | ODD => 1 | EVEN => 2 | MARK => 3 | SPACE => 4 end.
Definition StopBits_val (s : StopBits) : Z :=
  match s with ONE => 1 | TWO => 2 | HALFONE => 3 end.
Definition FlowControl_val (f : FlowControl) : Z :=
  match f with NOFLOW => 0 | SOFTWARE => 1 | HARDWARE => 2 end.

Record Settings : Type := mk_Settings {
  bytesize : ByteSize;
  parity : Parity;
  stopbits : StopBits;
  flowcontrol : FlowControl
}.

(** [Settings()] *)
Definition Settings_default : Settings := mk_Settings EIGHT NOPAR ONE NOFLOW.

(** utils.cc, [get_bytetime]. *)
Definition get_bytetime (baudrate : Z) (settings : Settings) : double :=
  div (add (add (add one (of_Z (ByteSize_val (bytesize settings))))
                (of_Z (Parity_val (parity settings))))
           (match stopbits settings with
            | HALFONE => one_and_half
            | s => of_Z (StopBits_val s)
            end))
      (of_Z baudrate).

(** utils.h, [struct Timeout]. *)
Record Timeout : Type := mk_Timeout {
  read : timeval; send : timeval; byte : timeval; conn : timeval
}.

(** utils.h, [struct TimeCheck]: the constructor, given the reading [now] of
    the monotonic clock it takes.  [size] is a [size_t], so both sums are
    computed in [unsigned long] and stored back into signed fields. *)
Definition TimeCheck (now : timespec) (timeout byte : timeval) (size : Z) : timespec :=
  mk_timespec
    (sint64 (wrap64 (wrap64 (wrap64 (tv_sec timeout)
                             + wrap64 (wrap64 (wrap64 (tv_sec byte) * size) * 2))
                     + wrap64 (ts_sec now))))
    (sint64 (wrap64 (wrap64 (wrap64 (wrap64 (tv_usec timeout)
                                     + wrap64 (wrap64 (wrap64 (tv_usec byte) * size) * 2))
                             * 1000)
                     + wrap64 (ts_nsec now)))).

(** [TimeCheck::expired], given the deadline stored by the constructor and
    the reading [now] of the monotonic clock it takes. *)
Definition expired (timeout now : timespec) : bool :=
  (ts_sec timeout <? ts_sec now) || (ts_nsec timeout <? ts_nsec now).

(** A [timespec] and a [timeval] as single points in time, in nanoseconds. *)
Definition timespec_ns (t : timespec) : Z := ts_sec t * 1000000000 + ts_nsec t.
Definition timeval_ns (t : timeval) : Z := tv_sec t * 1000000000 + tv_usec t * 1000.

(* ================================================================== *)
(** * The channel object (comm.h) *)

Definition bytes : Type := list ascii.

(** The protected instance variables of [class Comm].  [termios_] and
    [sockaddr_in_] hold platform encodings only and are left out; the two
    mutexes appear in the trace of the operating system below. *)
Record Comm : Type := mk_Comm {
  address_ : string;
  baudrate_ : Z;
  port_ : Z;
  eol_ : bytes;
  eol_len_ : Z;
  is_open_ : bool;
  is_connected_ : bool;
  timeout_ : Timeout;
  settings_ : Settings;
  fd_ : Z
}.

Definition set_address_ (v : string) (c : Comm) : Comm :=
  mk_Comm v (baudrate_ c) (port_ c) (eol_ c) (eol_len_ c) (is_open_ c)
          (is_connected_ c) (timeout_ c) (settings_ c) (fd_ c).
Definition set_baudrate_ (v : Z) (c : Comm) : Comm :=
  mk_Comm (address_ c) v (port_ c) (eol_ c) (eol_len_ c) (is_open_ c)
          (is_connected_ c) (timeout_ c) (settings_ c) (fd_ c).
Definition set_port_ (v : Z) (c : Comm) : Comm :=
  mk_Comm (address_ c) (baudrate_ c) v (eol_ c) (eol_len_ c) (is_open_ c)
          (is_connected_ c) (timeout_ c) (settings_ c) (fd_ c).
Definition set_eol_ (v : bytes) (n : Z) (c : Comm) : Comm :=
  mk_Comm (address_ c) (baudrate_ c) (port_ c) v n (is_open_ c)
          (is_connected_ c) (timeout_ c) (settings_ c) (fd_ c).
Definition set_is_open_ (v : bool) (c : Comm) : Comm :=
  mk_Comm (address_ c) (baudrate_ c) (port_ c) (eol_ c) (eol_len_ c) v
          (is_connected_ c) (timeout_ c) (settings_ c) (fd_ c).
Definition set_is_connected_ (v : bool) (c : Comm) : Comm :=
  mk_Comm (address_ c) (baudrate_ c) (port_ c) (eol_ c) (eol_len_ c) (is_open_ c)
          v (timeout_ c) (settings_ c) (fd_ c).
Definition set_timeout_ (v : Timeout) (c : Comm) : Comm :=
  mk_Comm (address_ c) (baudrate_ c) (port_ c) (eol_ c) (eol_len_ c) (is_open_ c)
          (is_connected_ c) v (settings_ c) (fd_ c).
Definition set_settings_ (v : Settings) (c : Comm) : Comm :=
  mk_Comm (address_ c) (baudrate_ c) (port_ c) (eol_ c) (eol_len_ c) (is_open_ c)
          (is_connected_ c) (timeout_ c) v (fd_ c).
Definition set_fd_ (v : Z) (c : Comm) : Comm :=
  mk_Comm (address_ c) (baudrate_ c) (port_ c) (eol_ c) (eol_len_ c) (is_open_ c)
          (is_connected_ c) (timeout_ c) (settings_ c) v.

(** The dynamic class of the object: which overrides the virtual calls reach. *)
Inductive transport : Type := Serial | Ether.

(* ================================================================== *)
(** * The operating system *)

Module Errno.
Definition EINTR : Z := 4.
Definition EIO : Z := 5.
Definition EBADF : Z := 9.
Definition EAGAIN : Z := 11.
Definition ENFILE : Z := 23.
Definition EMFILE : Z := 24.
Definition ENOTTY : Z := 25.
Definition EINPROGRESS : Z := 115.
End Errno.
Import Errno.

(** What the next [::read] / [::recv] finds: some bytes waiting in the
    kernel (none at all makes the call return 0), or a failure. *)
Inductive rx_outcome : Type :=
| RxData (bs : bytes)
| RxErr (errno : Z).

(** What the next [::write] / [::send] finds: room for [room] bytes, or a
    failure. *)
Inductive tx_outcome : Type :=
| TxRoom (room : nat)
| TxErr (errno : Z).

(** What the next [select] reports: one descriptor ready (and whether it is
    the one asked for), the timeout, or a failure.  [select] is handed the
    address of [timeout_.conn] (comm.cc 334 and 357, utils.cc 378), and a
    system may rewrite the [timeval] it is given with the time that was left
    of the wait, as Linux does; POSIX allows both.  [SelLeft remaining o] is
    the outcome [o] of a call that also wrote [remaining] back; the three plain
    outcomes are those of a call that left the [timeval] alone. *)
Inductive select_outcome : Type :=
| SelReady (isset : bool)
| SelTimeout
| SelErr (errno : Z)
| SelLeft (remaining : timeval) (o : select_outcome).

(** The value [select] returns and [FD_ISSET] afterwards. *)
Fixpoint select_value (o : select_outcome) : Z * bool :=
  match o with
  | SelReady isset => (1, isset)
  | SelTimeout => (0, false)
  | SelErr _ => (-1, false)
  | SelLeft _ o => select_value o
  end.

(** The [errno] it sets, when it fails. *)
Fixpoint select_errno (o : select_outcome) : option Z :=
  match o with
  | SelErr e => Some e
  | SelLeft _ o => select_errno o
  | _ => None
  end.

(** The time left it writes back, when it does. *)
Definition select_left (o : select_outcome) : option timeval :=
  match o with
  | SelLeft remaining _ => Some remaining
  | _ => None
  end.

(** What the next [::open] / [socket] returns. *)
Inductive open_outcome : Type :=
| OpenOk (fd : N)
| OpenErr (errno : Z).

Inductive mutex : Type := mtx_read | mtx_send.

Inductive event : Type :=
| Lock (m : mutex)
| Unlock (m : mutex)
| SysOpen (path : string)
| SysSocket
| SysClose (fd : Z)
| SysTcsetattr (fd : Z) (baudrate : Z) (s : Settings).

(** The operating system as the channel sees it: for every family of calls
    the outcomes of the calls still to come, in order; which descriptors are
    terminals; [errno]; the bytes written so far; and the trace of the calls
    that take or release a resource.  Two things the methods also use are
    not part of it: standard output, on which [Serial::read_] and
    [Serial::send_] print a line as they start, as their deadline passes
    and as they leave (serial.cc 30, 42, 58, 64, 75 and 91), and the memory
    that [read], [readline] and [readlines] take for their scratch buffer
    ([new uint8_t[size]], comm.cc 109 and 122; [alloca (size)], comm.cc 144
    and 172).  The definitions describe the calls on the descriptor of the
    channel, the clock and the mutexes, in a call whose scratch buffer could
    be taken. *)
Record World : Type := mk_World {
  w_clock : list timespec;          (* readings of CLOCK_MONOTONIC *)
  w_rx : list rx_outcome;
  w_tx : list tx_outcome;
  w_select : list select_outcome;
  w_open : list open_outcome;
  w_close : list Z;                 (* 0, or the errno of a failing ::close *)
  w_sys : list (Z * Z);             (* value and errno of the other calls *)
  w_isatty : Z -> bool;             (* tcgetattr succeeds on these *)
  w_errno : Z;
  w_sent : bytes;
  w_trace : list event
}.

Definition set_w_clock (v : list timespec) (w : World) : World :=
  mk_World v (w_rx w) (w_tx w) (w_select w) (w_open w) (w_close w) (w_sys w)
           (w_isatty w) (w_errno w) (w_sent w) (w_trace w).
Definition set_w_rx (v : list rx_outcome) (w : World) : World :=
  mk_World (w_clock w) v (w_tx w) (w_select w) (w_open w) (w_close w) (w_sys w)
           (w_isatty w) (w_errno w) (w_sent w) (w_trace w).
Definition set_w_tx (v : list tx_outcome) (w : World) : World :=
  mk_World (w_clock w) (w_rx w) v (w_select w) (w_open w) (w_close w) (w_sys w)
           (w_isatty w) (w_errno w) (w_sent w) (w_trace w).
Definition set_w_select (v : list select_outcome) (w : World) : World :=
  mk_World (w_clock w) (w_rx w) (w_tx w) v (w_open w) (w_close w) (w_sys w)
           (w_isatty w) (w_errno w) (w_sent w) (w_trace w).
Definition set_w_open (v : list open_outcome) (w : World) : World :=
  mk_World (w_clock w) (w_rx w) (w_tx w) (w_select w) v (w_close w) (w_sys w)
           (w_isatty w) (w_errno w) (w_sent w) (w_trace w).
Definition set_w_close (v : list Z) (w : World) : World :=
  mk_World (w_clock w) (w_rx w) (w_tx w) (w_select w) (w_open w) v (w_sys w)
           (w_isatty w) (w_errno w) (w_sent w) (w_trace w).
Definition set_w_sys (v : list (Z * Z)) (w : World) : World :=
  mk_World (w_clock w) (w_rx w) (w_tx w) (w_select w) (w_open w) (w_close w) v
           (w_isatty w) (w_errno w) (w_sent w) (w_trace w).
Definition set_w_errno (v : Z) (w : World) : World :=
  mk_World (w_clock w) (w_rx w) (w_tx w) (w_select w) (w_open w) (w_close w) (w_sys w)
           (w_isatty w) v (w_sent w) (w_trace w).
Definition set_w_sent (v : bytes) (w : World) : World :=
  mk_World (w_clock w) (w_rx w) (w_tx w) (w_select w) (w_open w) (w_close w) (w_sys w)
           (w_isatty w) (w_errno w) v (w_trace w).
Definition log (e : event) (w : World) : World :=
  mk_World (w_clock w) (w_rx w) (w_tx w) (w_select w) (w_open w) (w_close w) (w_sys w)
           (w_isatty w) (w_errno w) (w_sent w) (w_trace w ++ [e]).

(* ================================================================== *)
(** * Computations: state, exceptions, and calls that have not returned *)

(** A method runs on the object and the operating system.  It returns, or
    throws (the state is the one reached when the exception leaves the
    method), or is still waiting when the recorded outcomes run out. *)
Inductive outcome (A : Type) : Type :=
| Ret (a : A)
| Throw (e : exn)
| Stuck.
Arguments Ret {A} a.
Arguments Throw {A} e.
Arguments Stuck {A}.

Definition State : Type := (Comm * World)%type.

Definition M (A : Type) : Type := State -> outcome A * State.

Definition ret {A} (a : A) : M A := fun st => (Ret a, st).
Definition throw {A} (e : exn) : M A := fun st => (Throw e, st).
Definition stuck {A} : M A := fun st => (Stuck, st).

Definition bind {A B} (m : M A) (k : A -> M B) : M B :=
  fun st =>
    match m st with
    | (Ret a, st') => k a st'
    | (Throw e, st') => (Throw e, st')
    | (Stuck, st') => (Stuck, st')
    end.

Declare Scope comm_scope.
Delimit Scope comm_scope with comm.
Notation "x <- m ;; k" := (bind m (fun x => k))
  (at level 100, m at next level, right associativity) : comm_scope.
Notation "' pat <- m ;; k" := (bind m (fun x => match x with pat => k end))
  (at level 100, pat pattern, m at next level, right associativity) : comm_scope.
Notation "m ;; k" := (bind m (fun _ => k))
  (at level 100, right associativity) : comm_scope.
Local Open Scope comm_scope.

Definition this : M Comm := fun st => (Ret (fst st), st).
Definition world : M World := fun st => (Ret (snd st), st).
Definition update (f : Comm -> Comm) : M unit := fun st => (Ret tt, (f (fst st), snd st)).
Definition sys (f : World -> World) : M unit := fun st => (Ret tt, (fst st, f (snd st))).

(** A pure function that may throw, called from a method. *)
Definition lift {A} (r : result A) : M A :=
  match r with Ok a => ret a | Err e => throw e end.

(** [boost::lock_guard]: the mutex is released when the scope is left, by a
    return or by an exception. *)
Definition lock_guard {A} (m : mutex) (body : M A) : M A :=
  fun st =>
    match body (fst st, log (Lock m) (snd st)) with
    | (Stuck, st') => (Stuck, st')
    | (r, st') => (r, (fst st', log (Unlock m) (snd st')))
    end.

(** ** The calls *)

(** [clock_gettime (CLOCK_MONOTONIC, &now)] *)
Definition clock_gettime : M timespec := fun st =>
  match w_clock (snd st) with
  | [] => (Stuck, st)
  | now :: clk => (Ret now, (fst st, set_w_clock clk (snd st)))
  end.

(** [::read (fd, buf, count)] and [::recv (fd, buf, count, MSG_DONTWAIT)]:
    the value returned and the bytes stored at [buf].  Bytes that do not fit
    in [count] stay in the kernel for the next call; with nothing recorded
    the call would block. *)
Definition sys_read (count : Z) : M (Z * bytes) := fun st =>
  let w := snd st in
  match w_rx w with
  | [] => (Ret (-1, []), (fst st, set_w_errno EAGAIN w))
  | RxErr e :: rx => (Ret (-1, []), (fst st, set_w_errno e (set_w_rx rx w)))
  | RxData bs :: rx =>
      let got := firstn (Z.to_nat count) bs in
      let rest := skipn (Z.to_nat count) bs in
      (Ret (Z.of_nat (List.length got), got),
       (fst st, set_w_rx (match rest with [] => rx | _ => RxData rest :: rx end) w))
  end.

(** [::write (fd, buf, count)] and [::send (fd, buf, count, flags)]: the
    value returned; [buf] holds the bytes at the address passed. *)
Definition sys_write (buf : bytes) (count : Z) : M Z := fun st =>
  let w := snd st in
  match w_tx w with
  | [] => (Ret (-1), (fst st, set_w_errno EAGAIN w))
  | TxErr e :: tx => (Ret (-1), (fst st, set_w_errno e (set_w_tx tx w)))
  | TxRoom room :: tx =>
      let put := firstn (Nat.min room (Z.to_nat count)) buf in
      (Ret (Z.of_nat (List.length put)),
       (fst st, set_w_sent (w_sent w ++ put) (set_w_tx tx w)))
  end.

(** [timeout_.conn = remaining]: what [select] does to the object when it writes
    the time left back through the pointer it was given. *)
Definition set_conn (remaining : timeval) (c : Comm) : Comm :=
  set_timeout_ (mk_Timeout (read (timeout_ c)) (send (timeout_ c)) (byte (timeout_ c))
                           remaining) c.

Definition write_back (remaining : option timeval) (c : Comm) : Comm :=
  match remaining with
  | Some tv => set_conn tv c
  | None => c
  end.

Definition raise_errno (errno : option Z) (w : World) : World :=
  match errno with
  | Some e => set_w_errno e w
  | None => w
  end.

(** [select (fd_ + 1, ..., &timeout_.conn)] on the one descriptor of the
    channel: the value returned and [FD_ISSET] afterwards; [timeout_.conn]
    holds the time left when the system writes it back. *)
Definition sys_select : M (Z * bool) := fun st =>
  let w := snd st in
  match w_select w with
  | [] => (Ret (0, false), st)
  | o :: sel =>
      (Ret (select_value o),
       (write_back (select_left o) (fst st), raise_errno (select_errno o) (set_w_select sel w)))
  end.

(** [::close (fd)] *)
Definition sys_close (fd : Z) : M Z := fun st =>
  let w := log (SysClose fd) (snd st) in
  match w_close w with
  | [] => (Ret 0, (fst st, w))
  | 0 :: cl => (Ret 0, (fst st, set_w_close cl w))
  | e :: cl => (Ret (-1), (fst st, set_w_errno e (set_w_close cl w)))
  end.

(** [tcgetattr (fd, &termios_)] *)
Definition sys_tcgetattr (fd : Z) : M Z := fun st =>
  let w := snd st in
  if w_isatty w fd then (Ret 0, st)
  else (Ret (-1), (fst st, set_w_errno (if fd <? 0 then EBADF else ENOTTY) w)).

(** Any other call ([fcntl], [::connect], [setsockopt], [getsockopt],
    [inet_pton]): the value returned; with nothing recorded it succeeds
    with [ok]. *)
Definition sys_other (ok : Z) : M Z := fun st =>
  let w := snd st in
  match w_sys w with
  | [] => (Ret ok, st)
  | (v, e) :: rest =>
      (Ret v, (fst st, (if v <? 0 then set_w_errno e else fun w => w) (set_w_sys rest w)))
  end.

Definition errno : M Z := fun st => (Ret (w_errno (snd st)), st).

(* ================================================================== *)
(** * Readiness waits (comm.cc) *)

(** [Comm::waitRead_].  The time left that [select] may write back into
    [timeout_.conn] is not recorded. *)
Definition waitRead_ : M Z :=
  '(result, isset) <- sys_select ;;
  if result <? 0 then
    e <- errno ;;
    if e =? EINTR then ret 0 else throw (IOException "waitRead" (Some e))
  else if (result >? 0) && negb isset then
    throw (IOException
      "Comm::waitRead : select reports ready to read, but our fd isn't in the list, this shouldn't happen!"
      None)
  else ret result.

(** [Comm::waitSend_] *)
Definition waitSend_ : M Z :=
  '(result, isset) <- sys_select ;;
  if result <? 0 then
    e <- errno ;;
    if e =? EINTR then ret 0 else throw (IOException "waitSend" (Some e))
  else if (result >? 0) && negb isset then
    throw (IOException
      "Comm::waitSend : select reports ready to send, but our fd isn't in the list, this shouldn't happen!"
      None)
  else ret result.

(** [Comm::waitRead] and [Comm::waitSend] *)
Definition waitRead : M bool :=
  lock_guard mtx_read (r <- waitRead_ ;; ret (r >? 0)).
Definition waitSend : M bool :=
  lock_guard mtx_send (r <- waitSend_ ;; ret (r >? 0)).

(* ================================================================== *)
(** * The transfer loops (serial.cc, ether.cc) *)

Definition not_connected (t : transport) (op : string) : exn :=
  ConnectionException
    ((match t with Serial => "Serial::" | Ether => "Ether::" end) ++ op ++ " : not connected").

Definition read_nothing (t : transport) (e : Z) : exn :=
  InterfaceException
    ((match t with Serial => "Serial::" | Ether => "Ether::" end)
       ++ "read : device reports readiness to read but returned no data, disconnected?")
    (Some e).

(** The [while (bytes_read < size)] loop of [Serial::read_] and
    [Ether::read_], which differ in the call they make ([::read] against
    [::recv] with [MSG_DONTWAIT]) and in their messages only.  Every turn
    starts by reading the clock, so the loop runs along the readings [clk]
    still to come; [data] is what the caller's buffer holds so far. *)
Fixpoint read_loop (t : transport) (size : Z) (timeout : timespec)
    (clk : list timespec) (bytes_read bytes_read_now : Z) (data : bytes)
    (st : State) {struct clk} : outcome (Z * bytes) * State :=
  if negb (bytes_read <? size) then (Ret (bytes_read, data), st)
  else
    match clk with
    | [] => (Stuck, st)
    | now :: clk' =>
        let st := (fst st, set_w_clock clk' (snd st)) in
        if expired timeout now || (bytes_read_now =? 0) then (Ret (bytes_read, data), st)
        else
          (r <- waitRead_ ;;
           if r <? 1 then read_loop t size timeout clk' bytes_read bytes_read_now data
           else
             '(n, got) <- sys_read (wrap64 (size - bytes_read)) ;;
             e <- errno ;;
             if (n =? -1) && (e =? EINTR) then
               read_loop t size timeout clk' bytes_read n data
             else if n <? 1 then throw (read_nothing t e)
             else read_loop t size timeout clk' (wrap64 (bytes_read + n)) n (data ++ got)) st
    end.

(** [Serial::read_] and [Ether::read_]: the count returned and the bytes
    stored in the caller's buffer.  The lines [Serial::read_] prints on
    standard output (before the test of the connection, when the deadline
    has passed or nothing came, and before it returns) are not recorded. *)
Definition read_ (t : transport) (size : Z) : M (Z * bytes) :=
  c <- this ;;
  if negb (is_open_ c && is_connected_ c) then throw (not_connected t "read")
  else
    '(bytes_read_now, data) <- sys_read size ;;
    let bytes_read := if bytes_read_now >? 0 then bytes_read_now else 0 in
    now <- clock_gettime ;;
    let timeout := TimeCheck now (read (timeout_ c)) (byte (timeout_ c)) size in
    fun st => read_loop t size timeout (w_clock (snd st)) bytes_read bytes_read_now data st.

(** The loop of [Serial::send_].  [bytes_sent_now] is declared [size_t]
    there, so the value of [::write] is stored modulo [2^64] and the
    comparison with [-1] is one with [SIZE_MAX]. *)
Fixpoint Serial_send_loop (size : Z) (timeout : timespec) (data : bytes)
    (clk : list timespec) (bytes_sent : Z) (st : State) {struct clk}
    : outcome Z * State :=
  if negb (bytes_sent <? size) then (Ret bytes_sent, st)
  else
    match clk with
    | [] => (Stuck, st)
    | now :: clk' =>
        let st := (fst st, set_w_clock clk' (snd st)) in
        if expired timeout now then (Ret bytes_sent, st)
        else
          (r <- waitSend_ ;;
           if r <? 1 then Serial_send_loop size timeout data clk' bytes_sent
           else
             n <- sys_write (skipn (Z.to_nat bytes_sent) data) (wrap64 (size - bytes_sent)) ;;
             let bytes_sent_now := wrap64 n in
             e <- errno ;;
             if (bytes_sent_now =? wrap64 (-1)) && (e =? EINTR) then
               Serial_send_loop size timeout data clk' bytes_sent
             else if bytes_sent_now <? 1 then
               throw (InterfaceException
                 "Serial::send : device reports readiness to receive but returned data, disconnected?"
                 (Some e))
             else Serial_send_loop size timeout data clk' (wrap64 (bytes_sent + bytes_sent_now))) st
    end.

(** [Serial::send_].  The lines it prints on standard output (before the
    test of the connection, when the deadline has passed, and before it
    returns) are not recorded. *)
Definition Serial_send_ (data : bytes) (size : Z) : M Z :=
  c <- this ;;
  if negb (is_open_ c && is_connected_ c) then throw (not_connected Serial "send")
  else
    now <- clock_gettime ;;
    let timeout := TimeCheck now (send (timeout_ c)) (byte (timeout_ c)) size in
    fun st => Serial_send_loop size timeout data (w_clock (snd st)) 0 st.

(** The loop of [Ether::send_]; [bytes_sent_now] is an [ssize_t] here. *)
Fixpoint Ether_send_loop (size : Z) (timeout : timespec) (data : bytes)
    (clk : list timespec) (bytes_sent : Z) (st : State) {struct clk}
    : outcome Z * State :=
  if negb (bytes_sent <? size) then (Ret bytes_sent, st)
  else
    match clk with
    | [] => (Stuck, st)
    | now :: clk' =>
        let st := (fst st, set_w_clock clk' (snd st)) in
        if expired timeout now then (Ret bytes_sent, st)
        else
          (r <- waitSend_ ;;
           if r <? 1 then Ether_send_loop size timeout data clk' bytes_sent
           else
             bytes_sent_now <- sys_write (skipn (Z.to_nat bytes_sent) data)
                                         (wrap64 (size - bytes_sent)) ;;
             e <- errno ;;
             if (bytes_sent_now =? -1) && (e =? EINTR) then
               Ether_send_loop size timeout data clk' bytes_sent
             else if bytes_sent_now <? 1 then
               throw (InterfaceException
                 "Ether::send : device reports readiness to receive but returned no data, disconnected?"
                 (Some e))
             else Ether_send_loop size timeout data clk' (wrap64 (bytes_sent + bytes_sent_now))) st
    end.

(** [Ether::send_] *)
Definition Ether_send_ (data : bytes) (size : Z) : M Z :=
  c <- this ;;
  if negb (is_open_ c && is_connected_ c) then throw (not_connected Ether "send")
  else
    bytes_sent_now <- sys_write data size ;;
    let bytes_sent := if bytes_sent_now >? 0 then bytes_sent_now else 0 in
    now <- clock_gettime ;;
    let timeout := TimeCheck now (send (timeout_ c)) (byte (timeout_ c)) size in
    fun st => Ether_send_loop size timeout data (w_clock (snd st)) bytes_sent st.

(** The virtual [send_]. *)
Definition send_ (t : transport) (data : bytes) (size : Z) : M Z :=
  match t with
  | Serial => Serial_send_ data size
  | Ether => Ether_send_ data size
  end.

(* ================================================================== *)
(** * Opening, connecting, configuring, closing *)

(** [Comm::close_] *)
Definition close_ : M unit :=
  c <- this ;;
  if is_open_ c then
    (if negb (fd_ c =? -1) then
       result <- sys_close (fd_ c) ;;
       if negb (result =? 0) then
         e <- errno ;; throw (IOException "Comm::close" (Some e))
       else update (set_fd_ (-1))
     else ret tt) ;;
    update (set_is_connected_ false) ;;
    update (set_is_open_ false)
  else ret tt.

Definition open_failed (t : transport) (e : Z) : exn :=
  IOException
    ((match t with Serial => "Serial::open : " | Ether => "Ether::open : " end)
       ++ (if (e =? ENFILE) || (e =? EMFILE)
           then "Too many file handles open" else "general IO exception"))
    (Some e).

(** The body of [Serial::open_] and of [Ether::open_] once their guard has
    let them through: [fd_] is assigned the value of [::open] (of [socket]),
    and an interrupted call makes the method call itself again, its guard
    unchanged.  The recursion follows the outcomes recorded for the call. *)
Fixpoint open_attempts (t : transport) (script : list open_outcome) (st : State)
    {struct script} : outcome unit * State :=
  match script with
  | [] => (Stuck, st)
  | o :: script' =>
      let c := fst st in
      let w := log (match t with Serial => SysOpen (address_ c) | Ether => SysSocket end)
                   (set_w_open script' (snd st)) in
      match o with
      | OpenOk fd => (Ret tt, (set_is_open_ true (set_fd_ (Z.of_N fd) c), w))
      | OpenErr e =>
          let st' := (set_fd_ (-1) c, set_w_errno e w) in
          if e =? EINTR then open_attempts t script' st'
          else (Throw (open_failed t e), st')
      end
  end.

(** [Serial::open_] and [Ether::open_] *)
Definition open_ (t : transport) : M unit :=
  c <- this ;;
  let guard :=
    match t with
    | Serial => is_open_ c || (address_ c =? "")%string
    | Ether => is_open_ c
    end in
  if guard then ret tt
  else fun st => open_attempts t (w_open (snd st)) st.

(** [Serial::setOptions_].  The line-discipline bits are platform encodings;
    what is recorded is the call that applies them.  [set_options] accepts
    every enumerator where [CMSPAR] is defined, which is assumed. *)
Definition Serial_setOptions_ : M unit :=
  c <- this ;;
  r <- sys_tcgetattr (fd_ c) ;;
  if r =? -1 then
    e <- errno ;; throw (IOException "Serial::setOptions : tcgetattr" (Some e))
  else
    sys (log (SysTcsetattr (fd_ c) (baudrate_ c) (settings_ c))) ;;
    tv <- lift (to_timeval (get_bytetime (baudrate_ c) (settings_ c))) ;;
    update (fun c => set_timeout_ (mk_Timeout (read (timeout_ c)) (send (timeout_ c)) tv
                                              (conn (timeout_ c))) c).

(** [Ether::setOptions_] *)
Definition Ether_setOptions_ : M unit :=
  r <- sys_other 0 ;;                                   (* setsockopt SO_RCVTIMEO *)
  if negb (r =? 0) then
    e <- errno ;; throw (InterfaceException "Ether::setOptions : set read timeout" (Some e))
  else
    r <- sys_other 0 ;;                                 (* setsockopt SO_SNDTIMEO *)
    if negb (r =? 0) then
      e <- errno ;; throw (InterfaceException "Ether::setOptions : set send timeout" (Some e))
    else
      r <- sys_other 0 ;;                               (* getsockopt SO_ERROR *)
      if r <? 0 then
        e <- errno ;; throw (InterfaceException "Ether::setOptions : select socket" (Some e))
      else
        result <- sys_other 0 ;;                        (* the option's value *)
        if negb (result =? 0) then
          throw (InterfaceException "Ether::setOptions : select socket" (Some result))
        else ret tt.

(** The virtual [setOptions_]. *)
Definition setOptions_ (t : transport) : M unit :=
  match t with
  | Serial => Serial_setOptions_
  | Ether => Ether_setOptions_
  end.

(** [Serial::connect_] *)
Definition Serial_connect_ : M unit :=
  c <- this ;;
  if is_connected_ c then ret tt
  else
    Serial_setOptions_ ;;
    update (set_is_connected_ true).

(** utils.cc, [get_options] and [set_options] on a descriptor. *)
Definition get_options : M Z :=
  argument <- sys_other 0 ;;
  if argument <? 0 then
    e <- errno ;; throw (IOException "get file access mode" (Some e))
  else ret argument.

Definition set_options : M unit :=
  r <- sys_other 0 ;;
  if r <? 0 then e <- errno ;; throw (IOException "set" (Some e)) else ret tt.

(** utils.cc, [set_address]. *)
Definition set_address (address : string) (port : Z) : M unit :=
  if (address =? "")%string then throw (invalid_argument "Empty ip address is invalid")
  else if port =? 0 then throw (invalid_argument "unspecified port is invalid")
  else
    r <- sys_other 1 ;;                                 (* inet_pton *)
    if r <? 1 then
      e <- errno ;; throw (InterfaceException "unable to parse ip address" (Some e))
    else ret tt.

(** [Ether::connect_] *)
Definition Ether_connect_ : M unit :=
  c <- this ;;
  if is_connected_ c || (address_ c =? "")%string || (port_ c =? 0) then ret tt
  else
    set_address (address_ c) (port_ c) ;;
    get_options ;; set_options ;;                       (* | O_NONBLOCK *)
    r <- sys_other 0 ;;                                 (* ::connect *)
    (if r <? 0 then
       e <- errno ;;
       if e =? EINPROGRESS then
         '(result, _) <- sys_select ;;
         e <- errno ;;
         if result <? 1 then
           throw (InterfaceException "Ether::connect : connection error" (Some e))
         else ret tt
       else throw (InterfaceException "Ether::connect : generic error" (Some e))
     else ret tt) ;;
    get_options ;; set_options ;;                       (* & ~O_NONBLOCK *)
    Ether_setOptions_ ;;
    update (set_is_connected_ true).

(** The virtual [connect_]. *)
Definition connect_ (t : transport) : M unit :=
  match t with
  | Serial => Serial_connect_
  | Ether => Ether_connect_
  end.

(** The virtual [flush_], [flushInput_] and [flushOutput_]: [tcdrain] or
    [tcflush] on an open and connected serial port, nothing on a socket. *)
Definition flush_ (t : transport) : M unit :=
  match t with
  | Serial =>
      c <- this ;;
      if is_open_ c && is_connected_ c then (_ <- sys_other 0 ;; ret tt) else ret tt
  | Ether => ret tt
  end.

(* ================================================================== *)
(** * The public operations (comm.cc) *)

Definition both_locks {A} (body : M A) : M A :=
  lock_guard mtx_read (lock_guard mtx_send body).

(** [Comm::open] *)
Definition open (t : transport) : M unit :=
  both_locks (open_ t ;; connect_ t).

(** [Comm::close] and the destructor *)
Definition close : M unit := both_locks close_.

(** The body of a constructor of a class derived from [Comm].  When an
    exception leaves the body, the base [Comm] is already constructed and the
    stack unwinding destroys it: [Comm::~Comm] takes both mutexes and runs
    [close_] before the exception reaches the caller.  A destructor is
    [noexcept]: an exception of [close_] in it ends the program, and nothing
    comes back to the caller ([Stuck]). *)
Definition constructing (body : M unit) : M unit := fun st =>
  match body st with
  | (Throw e, st') =>
      match close st' with
      | (Ret _, st'') => (Throw e, st'')
      | (_, st'') => (Stuck, st'')
      end
  | r => r
  end.

(** [Comm::flush], [Comm::flushInput], [Comm::flushOutput] *)
Definition flush (t : transport) : M unit := both_locks (flush_ t).
Definition flushInput (t : transport) : M unit := both_locks (flush_ t).
Definition flushOutput (t : transport) : M unit := both_locks (flush_ t).

(** [Comm::isOpen], [Comm::isConnected] *)
Definition isOpen : M bool := c <- this ;; ret (is_open_ c).
Definition isConnected : M bool := c <- this ;; ret (is_connected_ c).

(** [size_t Comm::read (uint8_t *buffer, size_t size)]: the count and the
    bytes stored at [buffer].  The storage is the caller's: this overload
    takes no memory of its own. *)
Definition read_array (t : transport) (size : Z) : M (Z * bytes) :=
  lock_guard mtx_read (read_ t size).

(** [size_t Comm::read (string &buffer, size_t size)]: the count, and the
    buffer with the bytes appended, in a call whose [new uint8_t[size]] gave
    the scratch buffer; when it cannot, [std::bad_alloc] leaves the method
    before [read_] is called. *)
Definition read_into (t : transport) (buffer : bytes) (size : Z) : M (Z * bytes) :=
  lock_guard mtx_read
    ('(bytes_read, buffer_) <- read_ t size ;;
     ret (bytes_read, buffer ++ firstn (Z.to_nat bytes_read) buffer_)).

(** [string Comm::read (size_t size)] *)
Definition read_string (t : transport) (size : Z) : M bytes :=
  '(_, buffer) <- read_into t [] size ;; ret buffer.

(** [Comm::send] *)
Definition send_bytes (t : transport) (data : bytes) : M Z :=
  lock_guard mtx_send (send_ t data (Z.of_nat (List.length data))).

(** [Comm::setAddress] *)
Definition setAddress (t : transport) (address : string) : M unit :=
  c <- this ;;
  if (address_ c =? address)%string then ret tt
  else
    update (set_address_ address) ;;
    both_locks
      (c <- this ;;
       if is_connected_ c then close_ ;; open_ t else ret tt).

(** [Comm::setPort] *)
Definition setPort (t : transport) (port : Z) : M unit :=
  c <- this ;;
  if port_ c =? port then ret tt
  else
    update (set_port_ port) ;;
    both_locks
      (c <- this ;;
       if is_connected_ c then close_ ;; open_ t else ret tt).

(** [Comm::setBaudrate] *)
Definition setBaudrate (t : transport) (baudrate : Z) : M unit :=
  c <- this ;;
  if baudrate_ c =? baudrate then ret tt
  else
    update (set_baudrate_ baudrate) ;;
    both_locks
      (c <- this ;;
       if is_connected_ c then close_ ;; open_ t else ret tt).

(** [Comm::setEOL] *)
Definition setEOL (eol : bytes) : M unit :=
  lock_guard mtx_read (update (set_eol_ eol (Z.of_nat (List.length eol)))).

(** [Comm::setTimeout] *)
Definition setTimeout (t : transport) (timeout : Timeout) : M unit :=
  both_locks (update (set_timeout_ timeout) ;; setOptions_ t).

(** [Comm::setSettings] *)
Definition setSettings (t : transport) (settings : Settings) : M unit :=
  both_locks (update (set_settings_ settings) ;; setOptions_ t).

(** ** Construction *)

(** [Timeout::Timeout (double read, double send, double byte, double conn)] *)
Definition Timeout_of (read send byte conn : double) : result Timeout :=
  match to_timeval read, to_timeval send, to_timeval byte, to_timeval conn with
  | Ok r, Ok s, Ok b, Ok c => Ok (mk_Timeout r s b c)
  | Err e, _, _, _ => Err e
  | _, Err e, _, _ => Err e
  | _, _, Err e, _ => Err e
  | _, _, _, Err e => Err e
  end.

(** [Comm::Comm].  [baudrate_], [port_] and [fd_] have no initialiser: they
    start with whatever the storage of the object holds, [baudrate0],
    [port0] and [fd0] here (zero for an object with static storage). *)
Definition Comm_new (baudrate0 port0 fd0 : Z) (address : string) (eol : bytes)
    (timeout : Timeout) (settings : Settings) : Comm :=
  mk_Comm address baudrate0 port0 eol (Z.of_nat (List.length eol)) false false
          timeout settings fd0.

(** [Serial::Serial] *)
Definition Serial_new (port0 fd0 : Z) (address : string) (baudrate : Z) (eol : bytes)
    (timeout : Timeout) (settings : Settings) (w : World) : outcome unit * State :=
  constructing (open Serial) (Comm_new baudrate port0 fd0 address eol timeout settings, w).

(** [Ether::Ether] *)
Definition Ether_new (baudrate0 fd0 : Z) (address : string) (port : Z) (eol : bytes)
    (timeout : Timeout) (w : World) : outcome unit * State :=
  constructing (open Ether) (Comm_new baudrate0 port fd0 address eol timeout Settings_default, w).

(* ================================================================== *)
(** * The line framer (comm.cc) *)

Definition byte_val (a : ascii) : Z := Z.of_N (N_of_ascii a).

(** [strncmp (s1, s2, n)] on bytes at [s1] and [s2]: the comparison stops at
    the first difference, at a NUL, or after [n] bytes; the end of a list
    reads as the terminating NUL. *)
Fixpoint strncmp (s1 s2 : bytes) (n : nat) : Z :=
  match n with
  | O => 0
  | S n' =>
      let c1 := match s1 with [] => 0 | a :: _ => byte_val a end in
      let c2 := match s2 with [] => 0 | a :: _ => byte_val a end in
      if negb (c1 =? c2) then c1 - c2
      else if c1 =? 0 then 0
      else strncmp (tl s1) (tl s2) n'
  end.

(** [std::string == std::string] *)
Definition bytes_eqb (s1 s2 : bytes) : bool :=
  if list_eq_dec ascii_dec s1 s2 then true else false.

(** [string (p + from, len)]: the [len] bytes at offset [from] of a buffer. *)
Definition substr (buffer_ : bytes) (from len : Z) : bytes :=
  firstn (Z.to_nat len) (skipn (Z.to_nat from) buffer_).

(** The loop of [Comm::readline].  A turn that does not leave the loop has
    read at least one byte, so [fuel] turns are enough when [fuel] is the
    size asked for; [buffer_] is the part of the scratch buffer written so
    far. *)
Fixpoint readline_loop (fuel : nat) (t : transport) (size : Z)
    (buffer_ : bytes) (read_so_far : Z) {struct fuel} : M (bytes * Z) :=
  if negb (read_so_far <? size) then ret (buffer_, read_so_far)
  else
    match fuel with
    | O => stuck
    | S fuel' =>
        c <- this ;;
        '(bytes_read, got) <- read_ t 1 ;;
        let buffer_ := buffer_ ++ got in
        let read_so_far := wrap64 (read_so_far + bytes_read) in
        if bytes_read =? 0 then ret (buffer_, read_so_far)
        else if read_so_far <? eol_len_ c then
          readline_loop fuel' t size buffer_ read_so_far
        else if bytes_eqb (substr buffer_ (wrap64 (read_so_far - eol_len_ c)) (eol_len_ c))
                          (eol_ c)
        then ret (buffer_, read_so_far)
        else readline_loop fuel' t size buffer_ read_so_far
    end.

(** [size_t Comm::readline (string& buffer, size_t size)]: the count, and the
    buffer with the bytes appended, in a call whose [alloca (size)] found
    room on the stack; when there is none the process ends there. *)
Definition readline_into (t : transport) (buffer : bytes) (size : Z) : M (Z * bytes) :=
  lock_guard mtx_read
    ('(buffer_, read_so_far) <- readline_loop (Z.to_nat size) t size [] 0 ;;
     ret (read_so_far, buffer ++ firstn (Z.to_nat read_so_far) buffer_)).

(** [string Comm::readline (size_t size)] *)
Definition readline (t : transport) (size : Z) : M bytes :=
  '(_, buffer) <- readline_into t [] size ;; ret buffer.

(** The loop of [Comm::readlines]. *)
Fixpoint readlines_loop (fuel : nat) (t : transport) (size : Z)
    (lines : list bytes) (buffer_ : bytes) (read_so_far start_of_line : Z)
    {struct fuel} : M (list bytes * bytes * Z * Z) :=
  if negb (read_so_far <? size) then ret (lines, buffer_, read_so_far, start_of_line)
  else
    match fuel with
    | O => stuck
    | S fuel' =>
        c <- this ;;
        '(bytes_read, got) <- read_ t 1 ;;
        let buffer_ := buffer_ ++ got in
        if bytes_read =? 0 then ret (lines, buffer_, read_so_far, start_of_line)
        else
          let read_so_far := wrap64 (read_so_far + bytes_read) in
          if read_so_far <? wrap64 (eol_len_ c + start_of_line) then
            readlines_loop fuel' t size lines buffer_ read_so_far start_of_line
          else
            let found :=
              negb (strncmp (skipn (Z.to_nat (wrap64 (read_so_far - eol_len_ c))) buffer_)
                            (eol_ c) (Z.to_nat (eol_len_ c)) =? 0) in
            let lines' :=
              if found
              then lines ++ [substr buffer_ start_of_line (wrap64 (read_so_far - start_of_line))]
              else lines in
            let start_of_line' := if found then read_so_far else start_of_line in
            if read_so_far =? size then ret (lines', buffer_, read_so_far, start_of_line')
            else readlines_loop fuel' t size lines' buffer_ read_so_far start_of_line'
    end.

(** [vector<string> Comm::readlines (size_t size)], in a call whose
    [alloca (size)] found room on the stack. *)
Definition readlines (t : transport) (size : Z) : M (list bytes) :=
  lock_guard mtx_read
    ('(lines, buffer_, read_so_far, start_of_line) <-
        readlines_loop (Z.to_nat size) t size [] [] 0 0 ;;
     if negb (start_of_line =? read_so_far) then
       ret (lines ++ [substr buffer_ start_of_line (wrap64 (read_so_far - start_of_line))])
     else ret lines).

(* ================================================================== *)
(** * Building examples *)

Definition B (s : string) : bytes := list_ascii_of_string s.
Definition LF : ascii := "010"%char.

(** An operating system with nothing recorded, no terminal, and a clock
    that is read [n] times at the instant [t]. *)
Definition quiet (n : nat) (t : timespec) : World :=
  mk_World (repeat t n) [] [] [] [] [] [] (fun _ => false) 0 [] [].

(** The number of bit times [get_bytetime] divides by the baud rate: one
    start bit, the byte size, the value of the parity enumerator, and the
    stop bits, twice that count here so that it is an integer. *)
Definition half_bits (s : Settings) : Z :=
  2 * (1 + ByteSize_val (bytesize s) + Parity_val (parity s))
  + match stopbits s with ONE => 2 | TWO => 4 | HALFONE => 3 end.

(** One-second read, send and connect timeouts, no per-byte timeout. *)
Definition timeout1 : Timeout :=
  mk_Timeout (mk_timeval 1 0) (mk_timeval 1 0) (mk_timeval 0 0) (mk_timeval 1 0).

(** A serial port and a socket, open and connected on descriptor 3, with
    a line feed as end-of-line marker. *)
Definition port3 : Comm :=
  mk_Comm "/dev/ttyUSB0" 9600 0 [LF] 1 true true timeout1 Settings_default 3.
Definition socket3 : Comm :=
  mk_Comm "192.168.0.10" 0 502 [LF] 1 true true timeout1 Settings_default 3.
Definition connected (t : transport) : Comm :=
  match t with Serial => port3 | Ether => socket3 end.

(** An operating system that delivers the chunks given, one after the
    other, while the clock stays at 100 s. *)
Definition feed (chunks : list bytes) : World :=
  set_w_rx (map RxData chunks) (quiet 16 (mk_timespec 100 0)).

(** An operating system in which descriptor 0 is a terminal, as for a
    program started from one. *)
Definition tty0 : World :=
  mk_World [] [] [] [] [] [] [] (fun fd => fd =? 0) 0 [] [].

(** The marker [m] ends the line [l]; the marker occurs somewhere in [l]. *)
Definition ends_with (m l : bytes) : Prop := exists p, l = p ++ m.
Definition occurs_in (m l : bytes) : Prop := exists p s, l = p ++ m ++ s.

(** The line [readline] returns leaves the marker out, wherever the marker
    was found among the bytes consumed. *)
Definition marker_excluded (t : transport) (c : Comm) (w : World) (size : Z) : Prop :=
  forall line st',
    readline t size (c, w) = (Ret line, st') ->
    occurs_in (eol_ c) line -> ~ ends_with (eol_ c) line.

(** The invariant of the channel state. *)
Definition connected_is_open (c : Comm) : Prop :=
  is_connected_ c = true -> is_open_ c = true.

(** Two objects with the same [is_open_] and [is_connected_]. *)
Definition same_flags (c c' : Comm) : Prop :=
  is_open_ c' = is_open_ c /\ is_connected_ c' = is_connected_ c.

(** A computation that takes the object from [c] to some [c'] with
    [R c c'], however it ends. *)
Definition respects {A} (R : Comm -> Comm -> Prop) (m : M A) : Prop :=
  forall st, R (fst st) (fst (snd (m st))).

(** A computation that keeps the invariant, however it ends. *)
Definition keeps_invariant {A} (m : M A) : Prop :=
  forall st, connected_is_open (fst st) -> connected_is_open (fst (snd (m st))).

(** [open_] leaves [is_connected_] alone and never closes. *)
Definition opens (c c' : Comm) : Prop :=
  is_connected_ c' = is_connected_ c /\ (is_open_ c = true -> is_open_ c' = true).

(** Two objects with the same [is_open_]. *)
Definition same_open (c c' : Comm) : Prop := is_open_ c' = is_open_ c.

(** Two objects that differ at most in [timeout_.conn], the [timeval] that
    [select] is free to rewrite. *)
Definition same_but_conn (c c' : Comm) : Prop :=
  c' = set_conn (conn (timeout_ c')) c.

(** An operating system in which the device can be opened twice, as
    descriptors 3 and 4, both terminals. *)
Definition device34 : World :=
  mk_World [] [] [] [] [OpenOk 3; OpenOk 4] [] []
           (fun fd => (fd =? 3) || (fd =? 4)) 0 [] [].

(** The bytes still to arrive, in order. *)
Definition rx_stream (w : World) : bytes :=
  List.concat (map (fun o => match o with RxData bs => bs | RxErr _ => [] end) (w_rx w)).

(** The next [n] bytes have arrived in one chunk, and the clock has [n]
    readings to give. *)
Definition available (n : nat) (w : World) : Prop :=
  (n <= List.length (w_clock w))%nat /\
  (n = 0%nat \/
   exists bs rx, w_rx w = RxData bs :: rx /\ (n <= List.length bs)%nat).

(* ================================================================== *)
(** * The line discipline (utils.cc) *)

(** [struct termios] as far as [init_options] and [set_options] go: the
    four flag words, each a [tcflag_t] of 32 bits, and the two control
    characters [set_options] writes. *)
Record termios : Type := mk_termios {
  c_iflag : Z;
  c_oflag : Z;
  c_cflag : Z;
  c_lflag : Z;
  c_cc_VMIN : Z;
  c_cc_VTIME : Z
}.

(** The masks of <termios.h>.  They come with the platform, not with the
    repository, so the two functions take them as a parameter; the
    optional ones ([IUCLC], [PARMRK], [CMSPAR], [IXANY], [CRTSCTS]) are
    taken as defined. *)
Record termios_h : Type := mk_termios_h {
  CLOCAL : Z; CREAD : Z;
  ICANON : Z; ECHO : Z; ECHOE : Z; ECHOK : Z; ECHONL : Z; ISIG : Z; IEXTEN : Z;
  OPOST : Z;
  INLCR : Z; IGNCR : Z; ICRNL : Z; IGNBRK : Z; IUCLC : Z; PARMRK : Z;
  CSIZE : Z; CS5 : Z; CS6 : Z; CS7 : Z; CS8 : Z;
  CSTOPB : Z;
  INPCK : Z; ISTRIP : Z;
  PARENB : Z; PARODD : Z; CMSPAR : Z;
  IXON : Z; IXOFF : Z; IXANY : Z;
  CRTSCTS : Z
}.

(** Their values on Linux (asm-generic/termbits.h). *)
Definition Linux_termios_h : termios_h :=
  mk_termios_h 2048 128
               2 8 16 32 64 1 32768
               1
               64 128 256 1 512 8
               48 0 16 32 48
               64
               16 32
               256 512 1073741824
               1024 4096 2048
               2147483648.

(** [flags |= mask] and [flags &= (tcflag_t) ~mask] on a [tcflag_t]. *)
Definition tcflag_set (flags mask : Z) : Z := Z.lor flags (wrap32 mask).
Definition tcflag_clear (flags mask : Z) : Z := Z.land flags (wrap32 (Z.lnot mask)).

(** utils.cc, [init_options]: the flag words are updated one statement
    after the other. *)
Definition init_options (h : termios_h) (option : termios) : termios :=
  let cflag := tcflag_set (c_cflag option) (Z.lor (CLOCAL h) (CREAD h)) in
  let lflag :=
    tcflag_clear (c_lflag option)
      (Z.lor (Z.lor (Z.lor (Z.lor (Z.lor (Z.lor (ICANON h) (ECHO h)) (ECHOE h)) (ECHOK h))
                           (ECHONL h)) (ISIG h)) (IEXTEN h)) in
  let oflag := tcflag_clear (c_oflag option) (OPOST h) in
  let iflag :=
    tcflag_clear (c_iflag option)
      (Z.lor (Z.lor (Z.lor (INLCR h) (IGNCR h)) (ICRNL h)) (IGNBRK h)) in
  let iflag := tcflag_clear iflag (IUCLC h) in
  let iflag := tcflag_clear iflag (PARMRK h) in
  mk_termios iflag oflag cflag lflag (c_cc_VMIN option) (c_cc_VTIME option).

(** utils.cc, [set_options] on a [termios].  Its [default] branches, which
    throw [invalid_argument], are for values outside the enumerations. *)
Definition set_options_termios (h : termios_h) (option : termios) (settings : Settings)
    : termios :=
  (* SET CHAR LENGTH *)
  let cflag := tcflag_clear (c_cflag option) (CSIZE h) in
  let cflag :=
    tcflag_set cflag
      (match bytesize settings with
       | EIGHT => CS8 h | SEVEN => CS7 h | SIX => CS6 h | FIVE => CS5 h
       end) in
  (* SET STOP BITS *)
  let cflag :=
    match stopbits settings with
    | ONE => tcflag_clear cflag (CSTOPB h)
    | HALFONE => tcflag_set cflag (CSTOPB h)
    | TWO => tcflag_set cflag (CSTOPB h)
    end in
  (* SET PARITY *)
  let iflag := tcflag_clear (c_iflag option) (Z.lor (INPCK h) (ISTRIP h)) in
  let cflag :=
    match parity settings with
    | NOPAR => tcflag_clear cflag (Z.lor (PARENB h) (PARODD h))
    | EVEN => tcflag_set (tcflag_clear cflag (PARODD h)) (PARENB h)
    | ODD => tcflag_set cflag (Z.lor (PARENB h) (PARODD h))
    | MARK => tcflag_set cflag (Z.lor (Z.lor (PARENB h) (CMSPAR h)) (PARODD h))
    | SPACE => tcflag_clear (tcflag_set cflag (Z.lor (PARENB h) (CMSPAR h))) (PARODD h)
    end in
  (* SET FLOW CONTROL *)
  let xonxoff := match flowcontrol settings with SOFTWARE => true | _ => false end in
  let rtscts := match flowcontrol settings with HARDWARE => true | _ => false end in
  let iflag :=
    if xonxoff then tcflag_set iflag (Z.lor (IXON h) (IXOFF h))
    else tcflag_clear iflag (Z.lor (Z.lor (IXON h) (IXOFF h)) (IXANY h)) in
  let cflag :=
    if rtscts then tcflag_set cflag (CRTSCTS h)
    else tcflag_clear cflag (CRTSCTS h) in
  mk_termios iflag (c_oflag option) cflag (c_lflag option) 0 0.

(** What [Serial::setOptions_] hands to [tcsetattr], given what [tcgetattr]
    returned; the two calls that store the speed apart. *)
Definition line_discipline (h : termios_h) (option : termios) (settings : Settings)
    : termios :=
  set_options_termios h (init_options h option) settings.

(** The masks [set_options] uses are laid out as on every platform: the
    character sizes lie within [CSIZE], [PARENB] and [PARODD] share no bit,
    and [CMSPAR] shares none with the other masks of [c_cflag]. *)
Definition masks_laid_out (h : termios_h) : Prop :=
  Z.lor (CSIZE h) (Z.lor (Z.lor (CS5 h) (CS6 h)) (Z.lor (CS7 h) (CS8 h))) = CSIZE h /\
  Z.land (PARENB h) (PARODD h) = 0 /\
  Z.land (CMSPAR h)
         (Z.lor (Z.lor (CSIZE h) (CSTOPB h))
                (Z.lor (Z.lor (PARENB h) (PARODD h)) (CRTSCTS h))) = 0.

Definition stick_parity (p : Parity) : bool :=
  match p with MARK | SPACE => true | _ => false end.

(** A function on a flag word that clears some bits, sets some, and keeps
    the others. *)
Definition flag_update (g : Z -> Z) : Prop :=
  exists keep_mask set_mask, forall x, g x = Z.lor (Z.land x keep_mask) set_mask.

(* ================================================================== *)
(** * Timeouts, continued (utils.h) *)

(** [Timeout::simpleTimeout]: the connect timeout is the default argument
    of the constructor. *)
Definition simpleTimeout (timeout : double) : result Timeout :=
  Timeout_of timeout timeout timeout (of_Z 0).

(* ================================================================== *)
(** * Outcomes and relations the properties speak of *)

(** The operating system after a call that only took and released one
    mutex, or both. *)
Definition locked (m : mutex) (w : World) : World := log (Unlock m) (log (Lock m) w).
Definition locked_both (w : World) : World :=
  log (Unlock mtx_read) (log (Unlock mtx_send) (log (Lock mtx_send) (log (Lock mtx_read) w))).

(** The call [open_] makes, as the trace records it. *)
Definition open_event (t : transport) (c : Comm) : event :=
  match t with Serial => SysOpen (address_ c) | Ether => SysSocket end.

(** The exception of [Serial::setOptions_] when [tcgetattr] fails on [fd]. *)
Definition tcgetattr_failed (fd : Z) : exn :=
  IOException "Serial::setOptions : tcgetattr" (Some (if fd <? 0 then EBADF else ENOTTY)).

(** A computation that, when it throws, throws an exception in [P] and
    leaves the object as it found it, up to [R]. *)
Definition throws_cleanly {A} (P : exn -> Prop) (R : Comm -> Comm -> Prop) (m : M A) : Prop :=
  forall st e st', m st = (Throw e, st') -> P e /\ R (fst st) (fst st').

(** The exceptions of a call that failed in the operating system. *)
Definition os_failure (e : exn) : Prop :=
  match e with
  | InterfaceException _ (Some _) | IOException _ (Some _) => True
  | _ => False
  end.

(** No [::write] recorded fails for another reason than a signal. *)
Definition tx_interrupted_only (tx : list tx_outcome) : Prop :=
  Forall (fun o => match o with TxErr e => e = EINTR | TxRoom _ => True end) tx.

(** The marker and the length stored for it agree. *)
Definition eol_consistent (c : Comm) : Prop :=
  eol_len_ c = Z.of_nat (List.length (eol_ c)).

(** Two objects with the same marker and the same length stored for it. *)
Definition same_eol (c c' : Comm) : Prop :=
  eol_ c' = eol_ c /\ eol_len_ c' = eol_len_ c.

(** A computation that keeps the marker and its length in agreement,
    however it ends. *)
Definition keeps_eol {A} (m : M A) : Prop :=
  forall st, eol_consistent (fst st) -> eol_consistent (fst (snd (m st))).

(* ================================================================== *)
(* ================================================================== *)
(** * Properties *)

(** ** Machine integers *)

Module IntFacts.

Lemma wrap64_small z : 0 <= z < 2 ^ 64 -> wrap64 z = z.
Proof. intros H. unfold wrap64. now apply Z.mod_small. Qed.

Lemma wrap32_small z : 0 <= z < 2 ^ 32 -> wrap32 z = z.
Proof. intros H. unfold wrap32. now apply Z.mod_small. Qed.

Lemma wrap32_range z : 0 <= wrap32 z < 2 ^ 32.
Proof. unfold wrap32. apply Z.mod_pos_bound. lia. Qed.

Lemma wrap64_range z : 0 <= wrap64 z < 2 ^ 64.
Proof. unfold wrap64. apply Z.mod_pos_bound. lia. Qed.

Lemma sint64_small z : 0 <= z < 2 ^ 63 -> sint64 z = z.
Proof.
  intros H. unfold sint64.
  rewrite Z.mod_small by lia.
  destruct (Z.ltb_spec z (2 ^ 63)); lia.
Qed.

Lemma sint64_neg z : - 2 ^ 63 <= z < 0 -> sint64 z = z.
Proof.
  intros H. unfold sint64.
  replace (z mod 2 ^ 64) with (z + 2 ^ 64).
  - destruct (Z.ltb_spec (z + 2 ^ 64) (2 ^ 63)); lia.
  - apply Z.mod_unique with (q := -1); lia.
Qed.

Lemma sint64_id z : - 2 ^ 63 <= z < 2 ^ 63 -> sint64 z = z.
Proof.
  intros H. destruct (Z_lt_le_dec z 0).
  - apply sint64_neg; lia.
  - apply sint64_small; lia.
Qed.

End IntFacts.
Import IntFacts.

(** ** The deadline of a transfer *)

Section Deadline.

Variables (now : timespec) (timeout byte : timeval) (size : Z).

(** Every field is non-negative, as [to_timeval] and the clock produce them,
    and the sums stay below [2^63]. *)
Hypothesis Hnow : 0 <= ts_sec now /\ 0 <= ts_nsec now.
Hypothesis Htimeout : 0 <= tv_sec timeout /\ 0 <= tv_usec timeout.
Hypothesis Hbyte : 0 <= tv_sec byte < 2 ^ 63 /\ 0 <= tv_usec byte < 2 ^ 63.
Hypothesis Hsize : 0 <= size.
Hypothesis Hsec : tv_sec timeout + tv_sec byte * size * 2 + ts_sec now < 2 ^ 63.
Hypothesis Hnsec :
  (tv_usec timeout + tv_usec byte * size * 2) * 1000 + ts_nsec now < 2 ^ 63.

(** Without overflow the constructor stores [now + timeout + byte * size * 2],
    field by field. *)
Lemma TimeCheck_fields :
  TimeCheck now timeout byte size =
  mk_timespec (tv_sec timeout + tv_sec byte * size * 2 + ts_sec now)
              ((tv_usec timeout + tv_usec byte * size * 2) * 1000 + ts_nsec now).
Proof.
  unfold TimeCheck.
  assert (0 <= tv_sec byte * size) by nia.
  assert (0 <= tv_usec byte * size) by nia.
  rewrite (wrap64_small (tv_sec timeout)), (wrap64_small (tv_sec byte)),
    (wrap64_small (ts_sec now)), (wrap64_small (tv_usec timeout)),
    (wrap64_small (tv_usec byte)), (wrap64_small (ts_nsec now)) by lia.
  rewrite (wrap64_small (tv_sec byte * size)), (wrap64_small (tv_usec byte * size)) by lia.
  rewrite (wrap64_small (tv_sec byte * size * 2)),
    (wrap64_small (tv_usec byte * size * 2)) by lia.
  rewrite (wrap64_small (tv_sec timeout + _)), (wrap64_small (tv_usec timeout + _)) by lia.
  rewrite (wrap64_small (_ * 1000)) by lia.
  rewrite (wrap64_small (_ + ts_sec now)), (wrap64_small (_ + ts_nsec now)) by lia.
  rewrite !sint64_small by lia.
  reflexivity.
Qed.

(** As a point in time that is [now + timeout + byte * size * 2]. *)
Lemma TimeCheck_deadline :
  timespec_ns (TimeCheck now timeout byte size) =
  timespec_ns now + timeval_ns timeout + timeval_ns byte * size * 2.
Proof.
  rewrite TimeCheck_fields. unfold timespec_ns, timeval_ns. simpl. ring.
Qed.

End Deadline.

(** [expired] never reports late: a reading it lets through is not past the
    deadline. *)
Lemma expired_false_not_past (deadline now : timespec) :
  expired deadline now = false -> timespec_ns now <= timespec_ns deadline.
Proof.
  unfold expired, timespec_ns. intros H.
  apply orb_false_iff in H. destruct H as [H1 H2].
  apply Z.ltb_ge in H1, H2. lia.
Qed.

(** A reading past the deadline is always reported. *)
Lemma expired_when_past (deadline now : timespec) :
  timespec_ns deadline < timespec_ns now -> expired deadline now = true.
Proof.
  intros H. destruct (expired deadline now) eqn:E; [reflexivity |].
  apply expired_false_not_past in E. lia.
Qed.

(** C4.  With a read timeout of one second, no per-byte timeout and one byte
    asked for, a transfer started at 100.9 s has its deadline at 101.9 s;
    [expired] nevertheless answers true at the reading taken one nanosecond
    after the start, a full second before the deadline: it compares the
    seconds and the nanoseconds separately instead of as one point in
    time. *)
Theorem expired_compares_fields_separately :
  let start := mk_timespec 100 900000000 in
  let deadline := TimeCheck start (mk_timeval 1 0) (mk_timeval 0 0) 1 in
  let now := mk_timespec 100 900000001 in
  deadline = mk_timespec 101 900000000 /\
  timespec_ns deadline = timespec_ns start + 1000000000 /\
  timespec_ns now < timespec_ns deadline /\
  expired deadline now = true.
Proof. cbv zeta. vm_compute. repeat split; reflexivity. Qed.

(** ** The per-byte timeout *)

Lemma get_bytetime_bits (baudrate : Z) (s : Settings) :
  get_bytetime baudrate s = div (of_Z_exp (half_bits s) (-1)) (of_Z baudrate).
Proof.
  unfold get_bytetime. f_equal.
  destruct s as [b p st f]; destruct b, p, st; vm_compute; reflexivity.
Qed.

(** C9.  At 9600 baud with eight data bits, even parity and one stop bit the
    byte lasts eleven bit times (start, eight data, parity, stop), 1146
    microseconds; [get_bytetime] adds the value of the enumerator [EVEN],
    which is 2, counts twelve, and the per-byte timeout stored is 1250
    microseconds.  With [SPACE] it counts fourteen. *)
Theorem get_bytetime_adds_parity_enumerator :
  let even := mk_Settings EIGHT EVEN ONE NOFLOW in
  let space := mk_Settings EIGHT SPACE ONE NOFLOW in
  Parity_val EVEN = 2 /\
  half_bits even = 2 * 12 /\
  to_timeval (get_bytetime 9600 even) = Ok (mk_timeval 0 1250) /\
  to_timeval (div (of_Z 11) (of_Z 9600)) = Ok (mk_timeval 0 1146) /\
  half_bits space = 2 * 14 /\
  to_timeval (get_bytetime 9600 space) = Ok (mk_timeval 0 1458).
Proof. cbv zeta. repeat split; vm_compute; reflexivity. Qed.

(** [Serial::setOptions_], when it returns, has stored the byte time of the
    baud rate and the settings of the object as the per-byte timeout. *)
Lemma Serial_setOptions__byte (st st' : State) :
  Serial_setOptions_ st = (Ret tt, st') ->
  to_timeval (get_bytetime (baudrate_ (fst st)) (settings_ (fst st)))
  = Ok (byte (timeout_ (fst st'))).
Proof.
  destruct st as [c w]. unfold Serial_setOptions_, bind at 1, this. simpl.
  unfold bind at 1, sys_tcgetattr. simpl.
  destruct (w_isatty w (fd_ c)); simpl.
  2:{ unfold bind, errno, throw. simpl. discriminate. }
  unfold bind at 1, sys. simpl. unfold bind at 1.
  destruct (to_timeval _) as [tv | e]; simpl; unfold ret, throw, update; simpl.
  - intros H. inversion H. reflexivity.
  - discriminate.
Qed.

(** A serial port is constructed at 9600 baud, which stores 1042
    microseconds per byte; [setBaudrate (115200)] then reopens the device
    without configuring it, and the 1042 microseconds stay, where ten bit
    times at 115200 baud are 87 microseconds. *)
Lemma setBaudrate_keeps_byte_timeout :
  let '(_, st) := Serial_new 0 0 "/dev/ttyUSB0" 9600 [LF] timeout1 Settings_default
                             device34 in
  byte (timeout_ (fst st)) = mk_timeval 0 1042 /\
  let '(r, (c, _)) := setBaudrate Serial 115200 st in
  r = Ret tt /\ baudrate_ c = 115200 /\
  byte (timeout_ c) = mk_timeval 0 1042 /\
  to_timeval (get_bytetime 115200 Settings_default) = Ok (mk_timeval 0 87).
Proof. vm_compute. repeat split; reflexivity. Qed.

(** ** Setters called with the value already stored *)

(** C10.  [setAddress], [setPort] and [setBaudrate] called with the value
    the channel already stores return at once and leave the object and the
    operating system exactly as they were: no mutex is taken, nothing is
    closed or opened, [is_open_] and [is_connected_] keep their values. *)
Theorem setters_same_value_no_effect (t : transport) (c : Comm) (w : World) :
  setAddress t (address_ c) (c, w) = (Ret tt, (c, w)) /\
  setPort t (port_ c) (c, w) = (Ret tt, (c, w)) /\
  setBaudrate t (baudrate_ c) (c, w) = (Ret tt, (c, w)).
Proof.
  unfold setAddress, setPort, setBaudrate, bind, this; simpl.
  rewrite String.eqb_refl, !Z.eqb_refl. auto.
Qed.

(** ** The line framer on the two-chunk stream *)

(** C1.  [readlines] does not split the stream on the marker.  With a line
    feed as marker and the seven bytes AB<LF>CDE<LF> arriving in two chunks,
    [readlines (7)] returns the six pieces A, B, <LF>C, D, E and <LF>, on a
    serial port and on a socket, not the two lines AB and CDE.  The test
    [if (strncmp (...))] of comm.cc 180, which its comment reads as
    [EOL found], holds when the trailing bytes differ from the marker, where
    [readline] compares with [==]: a piece is cut after every byte that is
    not the end of a marker, and no piece is cut at a marker. *)
Lemma readlines_cuts_on_mismatch :
  let w := feed [B "AB" ++ [LF]; B "CDE" ++ [LF]] in
  fst (readlines Serial 7 (port3, w))
    = Ret [B "A"; B "B"; LF :: B "C"; B "D"; B "E"; [LF]] /\
  fst (readlines Serial 7 (port3, w)) <> Ret [B "AB"; B "CDE"] /\
  fst (readlines Ether 7 (socket3, w))
    = Ret [B "A"; B "B"; LF :: B "C"; B "D"; B "E"; [LF]] /\
  fst (readlines Ether 7 (socket3, w)) <> Ret [B "AB"; B "CDE"].
Proof.
  cbv zeta. repeat split; try (vm_compute; reflexivity); vm_compute; discriminate.
Qed.

(** ** A failed write on the serial port *)

(** C7.  The port is ready to be written and [::write] fails with [EIO]:
    [Serial::send_] keeps the -1 in a [size_t], where it is neither below 1
    nor an interruption, adds it to the count and returns [SIZE_MAX] as the
    number of bytes sent.  [Ether::send_] and both [read_], which keep the
    value in an [ssize_t], throw [InterfaceException] on the same outcome. *)
Theorem Serial_send_counts_failed_write :
  let w := set_w_select [SelReady true] (quiet 2 (mk_timespec 100 0)) in
  fst (send_ Serial (B "x") 1 (port3, set_w_tx [TxErr EIO] w)) = Ret SIZE_MAX /\
  fst (send_ Ether (B "x") 1 (socket3, set_w_tx [TxErr EAGAIN; TxErr EIO] w))
    = Throw (InterfaceException
        "Ether::send : device reports readiness to receive but returned no data, disconnected?"
        (Some EIO)) /\
  fst (read_ Serial 1 (port3, set_w_rx [RxErr EAGAIN; RxErr EIO] w))
    = Throw (read_nothing Serial EIO).
Proof. cbv zeta. repeat split; vm_compute; reflexivity. Qed.

(** ** A serial port constructed without an address *)

(** C8.  A [Serial] object with static storage (so [fd_] starts as 0) is
    constructed with the empty address in a program whose descriptor 0 is a
    terminal.  [Serial::open_] returns without opening anything,
    [Serial::connect_] configures descriptor 0 and sets [is_connected_]:
    the constructor returns with the channel connected but not open. *)
Theorem Serial_connects_without_opening :
  let '(r, (c, w)) := Serial_new 0 0 "" 9600 [LF] timeout1 Settings_default tty0 in
  r = Ret tt /\ is_open_ c = false /\ is_connected_ c = true /\
  w_trace w = [Lock mtx_read; Lock mtx_send; SysTcsetattr 0 9600 Settings_default;
               Unlock mtx_send; Unlock mtx_read].
Proof. vm_compute. repeat split; reflexivity. Qed.

(** ** Conversion of a duration *)

Section ToTimeval.

Local Open Scope Q_scope.

Lemma Qfloor_neg (q : Q) : q < 0 -> (Qfloor q < 0)%Z.
Proof.
  intros H. rewrite Zlt_Qlt.
  apply Qle_lt_trans with (y := q); [apply Qfloor_le | exact H].
Qed.

Lemma Qfloor_nonneg (q : Q) : 0 <= q -> (0 <= Qfloor q)%Z.
Proof.
  intros H. rewrite <- (Qfloor_Z 0). now apply Qfloor_resp_le.
Qed.

Lemma Qfloor_lt_Z (q : Q) (n : Z) : q < inject_Z n -> (Qfloor q < n)%Z.
Proof.
  intros H. rewrite Zlt_Qlt.
  apply Qle_lt_trans with (y := q); [apply Qfloor_le | exact H].
Qed.

Lemma Qfloor_ge_Z (q : Q) (n : Z) : inject_Z n <= q -> (n <= Qfloor q)%Z.
Proof.
  intros H. rewrite <- (Qfloor_Z n). now apply Qfloor_resp_le.
Qed.

(** [std::round] returns an integer nearest to its argument. *)
Lemma round_away_nearest (q : Q) :
  q - (1 # 2) <= inject_Z (round_away q) <= q + (1 # 2).
Proof.
  unfold round_away. destruct (Qle_bool 0 q).
  - pose proof (Qfloor_le (q + (1 # 2))) as Hl.
    pose proof (Qlt_floor (q + (1 # 2))) as Hu.
    rewrite inject_Z_plus in Hu. change (inject_Z 1) with 1 in Hu. lra.
  - pose proof (Qfloor_le (- q + (1 # 2))) as Hl.
    pose proof (Qlt_floor (- q + (1 # 2))) as Hu.
    rewrite inject_Z_plus in Hu. change (inject_Z 1) with 1 in Hu.
    rewrite inject_Z_opp. lra.
Qed.

Local Open Scope Z_scope.

Lemma round_uint32_range (x : double) : 0 <= round_uint32 x < 2 ^ 32.
Proof.
  unfold round_uint32.
  destruct (is_finite x); [destruct (in_int64 _) |]; apply wrap32_range.
Qed.

Lemma floor_int64_not_finite (x : double) :
  is_finite x = false -> floor_int64 x = INT64_MIN.
Proof. intros H. unfold floor_int64. now rewrite H. Qed.

Lemma floor_int64_negative (x : double) :
  is_finite x = true -> (to_Q x < 0)%Q -> floor_int64 x < 0.
Proof.
  intros Hf Hq. unfold floor_int64. rewrite Hf. cbv zeta.
  destruct (in_int64 _).
  - now apply Qfloor_neg.
  - unfold INT64_MIN. lia.
Qed.

Lemma floor_int64_large (x : double) :
  is_finite x = true -> (inject_Z (2 ^ 32) <= to_Q x)%Q ->
  floor_int64 x < 0 \/ UINT32_MAX < floor_int64 x.
Proof.
  intros Hf Hq. unfold floor_int64. rewrite Hf. cbv zeta.
  destruct (in_int64 _).
  - right. apply Qfloor_ge_Z in Hq. unfold UINT32_MAX. lia.
  - left. unfold INT64_MIN. lia.
Qed.

Lemma floor_int64_in_range (x : double) :
  is_finite x = true -> (0 <= to_Q x)%Q -> (to_Q x < inject_Z (2 ^ 32))%Q ->
  floor_int64 x = Qfloor (to_Q x) /\ 0 <= Qfloor (to_Q x) <= UINT32_MAX.
Proof.
  intros Hf H0 H1.
  apply Qfloor_nonneg in H0. apply Qfloor_lt_Z in H1.
  assert (Hr : 0 <= Qfloor (to_Q x) <= UINT32_MAX) by (unfold UINT32_MAX; lia).
  split; [| exact Hr].
  unfold floor_int64. rewrite Hf. cbv zeta.
  replace (in_int64 (Qfloor (to_Q x))) with true; [reflexivity |].
  symmetry. unfold in_int64, INT64_MIN, INT64_MAX, UINT32_MAX in *.
  apply andb_true_iff. split; apply Z.leb_le; lia.
Qed.

Lemma to_timeval_throws (data : double) :
  floor_int64 data < 0 \/ UINT32_MAX < floor_int64 data ->
  to_timeval data = Err RangeError.
Proof.
  intros H. unfold to_timeval. cbv zeta.
  replace ((floor_int64 data <? 0) || (floor_int64 data >? UINT32_MAX)) with true;
    [reflexivity |].
  symmetry. apply orb_true_iff.
  destruct H as [H | H]; [left; now apply Z.ltb_lt | right; apply Z.gtb_lt; lia].
Qed.

Lemma to_timeval_returns (data : double) :
  0 <= floor_int64 data <= UINT32_MAX ->
  to_timeval data =
  Ok (mk_timeval (floor_int64 data + usec_raw data / 1000000)
                 (usec_raw data mod 1000000)).
Proof.
  intros H. unfold to_timeval. cbv zeta.
  replace ((floor_int64 data <? 0) || (floor_int64 data >? UINT32_MAX)) with false.
  2:{ symmetry. apply orb_false_iff.
      split; [apply Z.ltb_ge | rewrite Z.gtb_ltb; apply Z.ltb_ge]; lia. }
  fold (usec_product data). fold (usec_raw data).
  pose proof (round_uint32_range (usec_product data)) as Hu. fold (usec_raw data) in Hu.
  unfold UINT32_MAX in H.
  assert (Hq : 0 <= usec_raw data / 1000000 < 2 ^ 32).
  { split; [apply Z.div_pos; lia | apply Z.div_lt_upper_bound; lia]. }
  assert (Hm : 0 <= usec_raw data mod 1000000 < 1000000) by (apply Z.mod_pos_bound; lia).
  rewrite (wrap32_small (floor_int64 data)) by lia.
  rewrite (wrap64_small (floor_int64 data)), (wrap64_small (usec_raw data)) by lia.
  rewrite (wrap64_small (_ + _)) by lia.
  rewrite !sint64_small by lia.
  reflexivity.
Qed.

End ToTimeval.

(** Away from the top of the range [to_timeval] does what is asked of it.
    It throws its range error for every negative duration,
    for every duration of [2^32] seconds or more, and for the infinities.
    For every other duration it returns a pair whose microseconds are below
    1000000: the whole seconds plus the carry of the microsecond count, which
    is the double [(data - seconds) * 1e6] rounded to a nearest integer.
    [to_timeval (-1)] and [to_timeval (2^32)] throw, and [to_timeval (1.5)]
    is one second and 500000 microseconds. *)
Theorem to_timeval_contract (data : double) :
  (is_finite data = true -> (to_Q data < 0)%Q -> to_timeval data = Err RangeError) /\
  (is_finite data = true -> (inject_Z (2 ^ 32) <= to_Q data)%Q ->
     to_timeval data = Err RangeError) /\
  (forall s, data = S754_infinity s -> to_timeval data = Err RangeError) /\
  (is_finite data = true -> (0 <= to_Q data)%Q -> (to_Q data < inject_Z (2 ^ 32))%Q ->
     exists tv,
       to_timeval data = Ok tv /\
       0 <= tv_usec tv < 1000000 /\
       tv_sec tv = Qfloor (to_Q data) + usec_raw data / 1000000 /\
       tv_sec tv * 1000000 + tv_usec tv = Qfloor (to_Q data) * 1000000 + usec_raw data /\
       (is_finite (usec_product data) = true ->
        0 <= round_away (to_Q (usec_product data)) < 2 ^ 32 ->
        usec_raw data = round_away (to_Q (usec_product data)) /\
        (to_Q (usec_product data) - (1 # 2) <= inject_Z (usec_raw data)
           <= to_Q (usec_product data) + (1 # 2))%Q)) /\
  to_timeval (of_Z (-1)) = Err RangeError /\
  to_timeval (of_Z (2 ^ 32)) = Err RangeError /\
  to_timeval one_and_half = Ok (mk_timeval 1 500000).
Proof.
  split; [| split; [| split; [| split; [| repeat split; vm_compute; reflexivity]]]].
  - intros Hf Hq. apply to_timeval_throws. left. now apply floor_int64_negative.
  - intros Hf Hq. apply to_timeval_throws. now apply floor_int64_large.
  - intros s ->. apply to_timeval_throws. left.
    rewrite floor_int64_not_finite by reflexivity. unfold INT64_MIN. lia.
  - intros Hf H0 H1.
    destruct (floor_int64_in_range data Hf H0 H1) as [Hfl Hr].
    eexists. split; [apply to_timeval_returns; rewrite Hfl; exact Hr |].
    cbn [tv_sec tv_usec]. rewrite Hfl.
    split; [apply Z.mod_pos_bound; lia |].
    split; [reflexivity |].
    split.
    + pose proof (Z.div_mod (usec_raw data) 1000000 ltac:(lia)). lia.
    + intros Hp Hrange.
      assert (E : usec_raw data = round_away (to_Q (usec_product data))).
      { unfold usec_raw, round_uint32. rewrite Hp. cbv zeta.
        replace (in_int64 (round_away (to_Q (usec_product data)))) with true.
        - now apply wrap32_small.
        - symmetry. unfold in_int64, INT64_MIN, INT64_MAX.
          apply andb_true_iff. split; apply Z.leb_le; lia. }
      split; [exact E |]. rewrite E. apply round_away_nearest.
Qed.

(** The contract at 1.5 seconds. *)
Lemma to_timeval_contract_witness :
  exists tv,
    to_timeval one_and_half = Ok tv /\
    0 <= tv_usec tv < 1000000 /\
    tv_sec tv = Qfloor (to_Q one_and_half) + usec_raw one_and_half / 1000000 /\
    tv_sec tv * 1000000 + tv_usec tv
      = Qfloor (to_Q one_and_half) * 1000000 + usec_raw one_and_half /\
    (is_finite (usec_product one_and_half) = true ->
     0 <= round_away (to_Q (usec_product one_and_half)) < 2 ^ 32 ->
     usec_raw one_and_half = round_away (to_Q (usec_product one_and_half)) /\
     (to_Q (usec_product one_and_half) - (1 # 2) <= inject_Z (usec_raw one_and_half)
        <= to_Q (usec_product one_and_half) + (1 # 2))%Q).
Proof.
  apply (proj1 (proj2 (proj2 (proj2 (to_timeval_contract one_and_half))))).
  - reflexivity.
  - vm_compute. discriminate.
  - vm_compute. reflexivity.
Defined.

(** C5.  [to_timeval] does not fail for every duration beyond the dual
    32-bit range.  The largest double below [2^32], [(2^53 - 1) * 2^-21],
    is more than the largest pair of 32-bit seconds and microseconds below
    1000000 can hold, [4294967295.999999]; its whole seconds, [4294967295],
    pass the test made before the microseconds are rounded, the
    microseconds round up to 1000000, and the carry that
    [// avoid rounding errors] adds takes the seconds to [2^32]:
    [to_timeval] returns the pair [{2^32, 0}], whose seconds no longer fit
    in 32 bits, where the exception it throws one step further,
    [Time is out of dual 32-bit range], was due. *)
Lemma to_timeval_carry_at_the_top :
  let data := of_Z_exp (2 ^ 53 - 1) (-21) in
  (to_Q data < inject_Z (2 ^ 32))%Q /\
  to_timeval data = Ok (mk_timeval (2 ^ 32) 0) /\
  (inject_Z UINT32_MAX + (999999 # 1000000) < to_Q data)%Q /\
  floor_int64 data = UINT32_MAX /\
  usec_raw data = 1000000 /\
  UINT32_MAX < tv_sec (mk_timeval (2 ^ 32) 0) /\
  to_timeval (of_Z (2 ^ 32)) = Err RangeError.
Proof.
  cbv zeta. repeat match goal with |- _ /\ _ => split end; vm_compute; reflexivity.
Qed.

(** ** The calls of the operating system *)

Lemma sys_read_returns (count : Z) (st : State) :
  exists n got st',
    sys_read count st = (Ret (n, got), st') /\
    fst st' = fst st /\
    w_clock (snd st') = w_clock (snd st) /\
    ((n = -1 /\ got = []) \/
     (0 <= n <= Z.max 0 count /\ Z.of_nat (List.length got) = n)).
Proof.
  unfold sys_read. destruct st as [c w]; simpl.
  destruct (w_rx w) as [| [bs | e] rx].
  - do 3 eexists. split; [reflexivity |]. simpl. auto.
  - do 3 eexists. split; [reflexivity |]. simpl. repeat split; auto.
    right. split; [| reflexivity].
    pose proof (firstn_le_length (Z.to_nat count) bs). lia.
  - do 3 eexists. split; [reflexivity |]. simpl. auto.
Qed.

(** ** The object, but for [timeout_.conn] *)

Lemma same_but_conn_refl (c : Comm) : same_but_conn c c.
Proof. destruct c as [? ? ? ? ? ? ? [] ? ?]. reflexivity. Qed.

Lemma same_but_conn_trans (c1 c2 c3 : Comm) :
  same_but_conn c1 c2 -> same_but_conn c2 c3 -> same_but_conn c1 c3.
Proof.
  unfold same_but_conn. intros H12 H23. rewrite H23 at 1. rewrite H12 at 1.
  reflexivity.
Qed.

Lemma same_but_conn_set (c : Comm) (tv : timeval) : same_but_conn c (set_conn tv c).
Proof. reflexivity. Qed.

Lemma same_but_conn_write_back (c : Comm) (tv : option timeval) :
  same_but_conn c (write_back tv c).
Proof. destruct tv; [reflexivity | apply same_but_conn_refl]. Qed.

Lemma eq_same_but_conn (c c' : Comm) : c' = c -> same_but_conn c c'.
Proof. intros ->. apply same_but_conn_refl. Qed.

(** Every field but [timeout_.conn] is the same. *)
Lemma same_but_conn_fields (c c' : Comm) :
  same_but_conn c c' ->
  address_ c' = address_ c /\ baudrate_ c' = baudrate_ c /\ port_ c' = port_ c /\
  eol_ c' = eol_ c /\ eol_len_ c' = eol_len_ c /\
  is_open_ c' = is_open_ c /\ is_connected_ c' = is_connected_ c /\
  settings_ c' = settings_ c /\ fd_ c' = fd_ c /\
  read (timeout_ c') = read (timeout_ c) /\ send (timeout_ c') = send (timeout_ c) /\
  byte (timeout_ c') = byte (timeout_ c).
Proof. intros ->. repeat split. Qed.

Lemma same_but_conn_eol (c c' : Comm) : same_but_conn c c' -> eol_ c' = eol_ c.
Proof. intros ->. reflexivity. Qed.

Lemma same_but_conn_eol_len (c c' : Comm) : same_but_conn c c' -> eol_len_ c' = eol_len_ c.
Proof. intros ->. reflexivity. Qed.

Lemma same_but_conn_flags (c c' : Comm) : same_but_conn c c' -> same_flags c c'.
Proof. intros ->. split; reflexivity. Qed.

(** [select] changes nothing of the object but [timeout_.conn]. *)
Lemma sys_select_this (st : State) : same_but_conn (fst st) (fst (snd (sys_select st))).
Proof.
  unfold sys_select. destruct (w_select (snd st)); simpl.
  - apply same_but_conn_refl.
  - apply same_but_conn_write_back.
Qed.

(** [select] uses up its outcome and may set [errno]; the rest of the
    operating system is as it was. *)
Lemma sys_select_world (st : State) :
  let w := snd st in
  let w' := snd (snd (sys_select st)) in
  w_clock w' = w_clock w /\ w_rx w' = w_rx w /\ w_tx w' = w_tx w /\
  w_open w' = w_open w /\ w_close w' = w_close w /\ w_sys w' = w_sys w /\
  w_isatty w' = w_isatty w /\ w_sent w' = w_sent w /\ w_trace w' = w_trace w /\
  w_select w' = tl (w_select w).
Proof.
  cbv zeta. unfold sys_select.
  destruct (w_select (snd st)) as [| o sel] eqn:E; simpl.
  - rewrite E. repeat split.
  - destruct (select_errno o); simpl; repeat split.
Qed.

(** [select] returns. *)
Lemma sys_select_returns (st : State) :
  exists r isset st', sys_select st = (Ret (r, isset), st').
Proof.
  unfold sys_select. destruct (w_select (snd st)) as [| o sel]; [eauto |].
  destruct (select_value o); eauto.
Qed.

(** [waitRead_] changes nothing of the object but [timeout_.conn]. *)
Lemma waitRead__this (st : State) : same_but_conn (fst st) (fst (snd (waitRead_ st))).
Proof.
  unfold waitRead_, bind. pose proof (sys_select_this st) as Hs.
  destruct (sys_select_returns st) as (r & isset & st1 & E). rewrite E in *.
  unfold errno, ret, throw. simpl in *.
  destruct (r <? 0); [destruct (_ =? EINTR) |
                      destruct ((r >? 0) && negb isset)%bool]; exact Hs.
Qed.

(** [waitRead_] throws [IOException] only. *)
Lemma waitRead__throws (st st' : State) (e : exn) :
  waitRead_ st = (Throw e, st') -> exists msg errn, e = IOException msg errn.
Proof.
  unfold waitRead_, bind.
  destruct (sys_select_returns st) as (r & isset & st1 & E). rewrite E.
  unfold errno, ret, throw. simpl.
  destruct (r <? 0); [destruct (_ =? EINTR) |
                      destruct ((r >? 0) && negb isset)%bool]; try discriminate;
    intros H; inversion H; eauto.
Qed.

(** [waitRead_] returns or throws. *)
Lemma waitRead__ends (st : State) : fst (waitRead_ st) <> Stuck.
Proof.
  unfold waitRead_, bind.
  destruct (sys_select_returns st) as (r & isset & st1 & E). rewrite E.
  unfold errno, ret, throw. simpl.
  destruct (r <? 0); [destruct (_ =? EINTR) |
                      destruct ((r >? 0) && negb isset)%bool]; discriminate.
Qed.

(** ** The read loop *)

Section ReadLoop.

Variables (t : transport) (size : Z) (timeout : timespec).
Hypothesis Hsize : 0 <= size < 2 ^ 64.

(** One turn of the loop, spelled out. *)
Lemma read_loop_done clk bytes_read bytes_read_now data st :
  size <= bytes_read ->
  read_loop t size timeout clk bytes_read bytes_read_now data st
  = (Ret (bytes_read, data), st).
Proof.
  intros H. destruct clk; simpl;
    (replace (bytes_read <? size) with false by (symmetry; apply Z.ltb_ge; lia));
    reflexivity.
Qed.

(** When the deadline has passed at the start of a turn, the loop returns
    what it has. *)
Lemma read_loop_expired now clk bytes_read bytes_read_now data st :
  bytes_read < size ->
  expired timeout now = true ->
  read_loop t size timeout (now :: clk) bytes_read bytes_read_now data st
  = (Ret (bytes_read, data), (fst st, set_w_clock clk (snd st))).
Proof.
  intros H E. simpl.
  replace (bytes_read <? size) with true by (symmetry; apply Z.ltb_lt; lia).
  rewrite E. reflexivity.
Qed.

(** The count stays within the size asked for, and counts the bytes stored. *)
Lemma read_loop_bound clk :
  forall bytes_read bytes_read_now data st n out st',
    0 <= bytes_read <= size ->
    Z.of_nat (List.length data) = bytes_read ->
    read_loop t size timeout clk bytes_read bytes_read_now data st = (Ret (n, out), st') ->
    0 <= n <= size /\ Z.of_nat (List.length out) = n.
Proof.
  induction clk as [| now clk IH]; intros bytes_read bytes_read_now data st n out st' Hb Hd.
  - simpl. destruct (bytes_read <? size); simpl; intros H; inversion H; subst; auto.
  - simpl. destruct (Z.ltb_spec bytes_read size) as [Hlt | Hge]; simpl.
    2:{ intros H; inversion H; subst; auto. }
    destruct (expired timeout now || (bytes_read_now =? 0)).
    { intros H; inversion H; subst; auto. }
    unfold bind at 1.
    destruct (waitRead_ _) as [[r | e | ] st1]; try discriminate.
    destruct (r <? 1).
    { apply IH; assumption. }
    unfold bind at 1.
    destruct (sys_read_returns (wrap64 (size - bytes_read)) st1)
      as (k & got & st2 & E & _ & _ & Hk).
    rewrite E. unfold bind at 1, errno at 1.
    destruct ((k =? -1) && (w_errno (snd st2) =? EINTR)).
    { apply IH; assumption. }
    destruct (Z.ltb_spec k 1) as [Hk1 | Hk1].
    { unfold throw. discriminate. }
    destruct Hk as [[Hk _] | [Hk Hlen]]; [lia |].
    rewrite wrap64_small in Hk by lia.
    rewrite Z.max_r in Hk by lia.
    rewrite (wrap64_small (bytes_read + k)) by lia.
    apply IH; [lia |].
    rewrite length_app, Nat2Z.inj_add. lia.
Qed.

(** The loop throws only what [waitRead_] throws, or the exception for a
    ready descriptor that transferred nothing. *)
Lemma read_loop_throws clk :
  forall bytes_read bytes_read_now data st e st',
    read_loop t size timeout clk bytes_read bytes_read_now data st = (Throw e, st') ->
    (exists errn, e = read_nothing t errn) \/ (exists msg errn, e = IOException msg errn).
Proof.
  induction clk as [| now clk IH]; intros bytes_read bytes_read_now data st e st'.
  - simpl. destruct (bytes_read <? size); simpl; discriminate.
  - simpl. destruct (bytes_read <? size); simpl; try discriminate.
    destruct (expired timeout now || (bytes_read_now =? 0)); try discriminate.
    unfold bind at 1.
    destruct (waitRead_ _) as [[r | e1 | ] st1] eqn:W; try discriminate.
    2:{ intros H; inversion H; subst. right. eapply waitRead__throws; eassumption. }
    destruct (r <? 1).
    { apply IH. }
    unfold bind at 1.
    destruct (sys_read_returns (wrap64 (size - bytes_read)) st1)
      as (k & got & st2 & E & _).
    rewrite E. unfold bind at 1, errno at 1.
    destruct ((k =? -1) && (w_errno (snd st2) =? EINTR)).
    { apply IH. }
    destruct (k <? 1).
    { unfold throw. intros H; inversion H; subst. left. eauto. }
    apply IH.
Qed.

End ReadLoop.

(** ** The read loop ends *)

(** Once a reading of the clock to come is one [expired] accepts, the loop
    returns or throws: it does not wait for ever. *)
Lemma read_loop_ends (t : transport) (size : Z) (timeout : timespec) clk :
  Exists (fun now => expired timeout now = true) clk ->
  forall bytes_read bytes_read_now data st,
    fst (read_loop t size timeout clk bytes_read bytes_read_now data st) <> Stuck.
Proof.
  induction clk as [| now clk IH]; intros Hex bytes_read bytes_read_now data st.
  - inversion Hex.
  - simpl. destruct (bytes_read <? size); simpl; [| discriminate].
    destruct (expired timeout now) eqn:E; simpl; [discriminate |].
    assert (Hex' : Exists (fun now => expired timeout now = true) clk).
    { inversion Hex; subst; [congruence | assumption]. }
    destruct (bytes_read_now =? 0); [discriminate |].
    unfold bind at 1.
    pose proof (waitRead__ends (fst st, set_w_clock clk (snd st))) as Hw.
    destruct (waitRead_ _) as [[r | e | ] st1]; [| discriminate | contradiction].
    destruct (r <? 1); [apply IH; assumption |].
    unfold bind at 1.
    destruct (sys_read_returns (wrap64 (size - bytes_read)) st1) as (k & got & st2 & R & _).
    rewrite R. unfold bind at 1, errno at 1.
    destruct ((k =? -1) && (w_errno (snd st2) =? EINTR)); [apply IH; assumption |].
    destruct (k <? 1); [unfold throw; discriminate | apply IH; assumption].
Qed.

(** [read_] on an open and connected channel: the first attempt, the
    deadline, then the loop. *)
Lemma read__connected (t : transport) (size : Z) (c : Comm) (w : World) :
  is_open_ c = true -> is_connected_ c = true ->
  exists n0 data0 w1,
    w_clock w1 = w_clock w /\
    ((n0 = -1 /\ data0 = []) \/
     (0 <= n0 <= Z.max 0 size /\ Z.of_nat (List.length data0) = n0)) /\
    read_ t size (c, w) =
    match w_clock w with
    | [] => (Stuck, (c, w1))
    | now :: clk =>
        read_loop t size (TimeCheck now (read (timeout_ c)) (byte (timeout_ c)) size)
                  clk (if n0 >? 0 then n0 else 0) n0 data0 (c, set_w_clock clk w1)
    end.
Proof.
  intros Ho Hc.
  destruct (sys_read_returns size (c, w)) as (n0 & data0 & [c1 w1] & E & Hthis & Hclk & Hn).
  simpl in Hthis, Hclk. subst c1.
  exists n0, data0, w1. split; [exact Hclk |]. split; [exact Hn |].
  unfold read_, bind at 1, this. simpl. rewrite Ho, Hc. simpl.
  unfold bind at 1. rewrite E.
  unfold bind at 1, clock_gettime. simpl. rewrite Hclk.
  destruct (w_clock w) as [| now clk]; reflexivity.
Qed.

(** C6.  On an open and connected channel, for every size above zero:
    whenever [read_] returns, the count is at most the size and counts the
    bytes stored; whenever it throws, the exception is the one of a failed
    readiness wait or of a ready descriptor that transferred nothing, never
    one for a short count; a deadline found passed at the start of a turn
    of the loop ends the call with a normal return of the bytes read so far;
    when the deadline has passed at the first check the call returns a
    count within the size; and the call ends, by a return or one of those
    exceptions, as soon as some reading of the clock is one [expired]
    accepts.  The same bound holds for the public [read]. *)
Theorem read_at_most_size (t : transport) (c : Comm) (w : World) (size : Z) :
  0 < size < 2 ^ 64 ->
  is_open_ c = true ->
  is_connected_ c = true ->
  (forall n data st',
     read_ t size (c, w) = (Ret (n, data), st') ->
     0 <= n <= size /\ Z.of_nat (List.length data) = n) /\
  (forall e st',
     read_ t size (c, w) = (Throw e, st') ->
     (exists errn, e = read_nothing t errn) \/ (exists msg errn, e = IOException msg errn)) /\
  (forall timeout now clk bytes_read bytes_read_now data st,
     bytes_read < size ->
     expired timeout now = true ->
     read_loop t size timeout (now :: clk) bytes_read bytes_read_now data st
     = (Ret (bytes_read, data), (fst st, set_w_clock clk (snd st)))) /\
  (forall t0 t1 clk,
     w_clock w = t0 :: t1 :: clk ->
     expired (TimeCheck t0 (read (timeout_ c)) (byte (timeout_ c)) size) t1 = true ->
     exists n data st',
       read_ t size (c, w) = (Ret (n, data), st') /\ 0 <= n <= size) /\
  (forall t0 clk,
     w_clock w = t0 :: clk ->
     Exists (fun now =>
               expired (TimeCheck t0 (read (timeout_ c)) (byte (timeout_ c)) size) now
               = true) clk ->
     fst (read_ t size (c, w)) <> Stuck) /\
  (forall buffer n buffer' st',
     read_into t buffer size (c, w) = (Ret (n, buffer'), st') ->
     0 <= n <= size /\
     exists data, buffer' = buffer ++ data /\ Z.of_nat (List.length data) = n).
Proof.
  intros Hsize Ho Hc.
  destruct (read__connected t size c w Ho Hc) as (n0 & data0 & w1 & Hclk & Hn0 & E).
  assert (Hb : 0 <= (if n0 >? 0 then n0 else 0) <= size /\
               Z.of_nat (List.length data0) = (if n0 >? 0 then n0 else 0)).
  { destruct Hn0 as [[-> ->] | [Hr Hl]]; simpl; [lia |].
    rewrite Z.max_r in Hr by lia.
    destruct (Z.gtb_spec n0 0); lia. }
  assert (Hret : forall n data st',
            read_ t size (c, w) = (Ret (n, data), st') ->
            0 <= n <= size /\ Z.of_nat (List.length data) = n).
  { intros n data st'. rewrite E.
    destruct (w_clock w) as [| now clk]; [discriminate |].
    apply read_loop_bound; [lia | apply Hb | apply Hb]. }
  split; [exact Hret |].
  split.
  { intros e st'. rewrite E.
    destruct (w_clock w) as [| now clk]; [discriminate |].
    apply read_loop_throws. }
  split.
  { intros timeout now clk bytes_read bytes_read_now data st.
    apply read_loop_expired. }
  split.
  { intros t0 t1 clk Hw Hexp. rewrite E, Hw.
    destruct (Z.ltb_spec (if n0 >? 0 then n0 else 0) size) as [Hlt | Hge].
    - rewrite read_loop_expired by assumption.
      do 3 eexists. split; [reflexivity | lia].
    - rewrite read_loop_done by assumption.
      do 3 eexists. split; [reflexivity | lia]. }
  split.
  { intros t0 clk Hw Hex. rewrite E, Hw. now apply read_loop_ends. }
  intros buffer n buffer' st'.
  unfold read_into, lock_guard. simpl.
  unfold bind at 1.
  destruct (read_ t size (c, log (Lock mtx_read) w)) as [[[k data] | e |] st1] eqn:R;
    try discriminate.
  unfold ret. intros H. inversion H; subst.
  destruct (read__connected t size c (log (Lock mtx_read) w) Ho Hc)
    as (m0 & d0 & w2 & _ & Hm0 & E2).
  assert (Hk : 0 <= n <= size /\ Z.of_nat (List.length data) = n).
  { rewrite E2 in R.
    destruct (w_clock (log (Lock mtx_read) w)) as [| now clk]; [discriminate |].
    eapply read_loop_bound; [| | | exact R].
    - lia.
    - destruct Hm0 as [[-> ->] | [Hr Hl]]; simpl; [lia |].
      rewrite Z.max_r in Hr by lia. destruct (Z.gtb_spec m0 0); lia.
    - destruct Hm0 as [[-> ->] | [Hr Hl]]; simpl; [lia |].
      destruct (Z.gtb_spec m0 0); lia. }
  split; [apply Hk |].
  exists (firstn (Z.to_nat n) data). split; [reflexivity |].
  rewrite firstn_all2 by lia. apply Hk.
Qed.

(** The contract on a serial port that has two of the three bytes asked
    for when the deadline passes: the call returns the two bytes. *)
Lemma read_at_most_size_witness :
  let w := set_w_clock [mk_timespec 100 0; mk_timespec 102 0] (feed [B "AB"]) in
  (0 < 3 < 2 ^ 64 /\ is_open_ port3 = true /\ is_connected_ port3 = true) /\
  (exists n data st', read_ Serial 3 (port3, w) = (Ret (n, data), st') /\ 0 <= n <= 3) /\
  fst (read_ Serial 3 (port3, w)) = Ret (2, B "AB").
Proof.
  cbv zeta. split; [repeat split; lia |]. split; [| vm_compute; reflexivity].
  refine (proj1 (proj2 (proj2 (proj2
    (read_at_most_size Serial port3
       (set_w_clock [mk_timespec 100 0; mk_timespec 102 0] (feed [B "AB"])) 3
       _ eq_refl eq_refl)))) (mk_timespec 100 0) (mk_timespec 102 0) [] eq_refl eq_refl).
  lia.
Defined.

(** ** [read_] and the object *)

Lemma read_loop_this (t : transport) (size : Z) (timeout : timespec) clk :
  forall bytes_read bytes_read_now data st,
    same_but_conn (fst st)
      (fst (snd (read_loop t size timeout clk bytes_read bytes_read_now data st))).
Proof.
  induction clk as [| now clk IH]; intros bytes_read bytes_read_now data st.
  - simpl. destruct (bytes_read <? size); apply same_but_conn_refl.
  - simpl. destruct (bytes_read <? size); simpl; [| apply same_but_conn_refl].
    destruct (expired timeout now || (bytes_read_now =? 0)); [apply same_but_conn_refl |].
    unfold bind at 1.
    pose proof (waitRead__this (fst st, set_w_clock clk (snd st))) as W.
    destruct (waitRead_ _) as [[r | e | ] st1]; simpl in W; try exact W.
    destruct (r <? 1).
    { eapply same_but_conn_trans; [exact W | apply IH]. }
    unfold bind at 1.
    destruct (sys_read_returns (wrap64 (size - bytes_read)) st1)
      as (k & got & st2 & E & Hthis & _).
    rewrite E. unfold bind at 1, errno at 1. rewrite <- Hthis in W.
    destruct ((k =? -1) && (w_errno (snd st2) =? EINTR)).
    { eapply same_but_conn_trans; [exact W | apply IH]. }
    destruct (k <? 1).
    { unfold throw. simpl. exact W. }
    eapply same_but_conn_trans; [exact W | apply IH].
Qed.

(** [read_] leaves the object as it is, but for [timeout_.conn]. *)
Lemma read__this (t : transport) (size : Z) (st : State) :
  same_but_conn (fst st) (fst (snd (read_ t size st))).
Proof.
  destruct st as [c w]. unfold read_, bind at 1, this. simpl.
  destruct (negb (is_open_ c && is_connected_ c)); [apply same_but_conn_refl |].
  unfold bind at 1.
  destruct (sys_read_returns size (c, w)) as (n0 & data0 & st1 & E & Hthis & _).
  rewrite E. unfold bind at 1, clock_gettime. simpl in Hthis.
  destruct (w_clock (snd st1)) as [| now clk];
    [apply eq_same_but_conn; exact Hthis |].
  eapply same_but_conn_trans; [| apply read_loop_this].
  apply eq_same_but_conn; exact Hthis.
Qed.

(** What [read_] returns, on any channel. *)
Lemma read__ret_bound (t : transport) (size : Z) (st st' : State) n data :
  0 < size < 2 ^ 64 ->
  read_ t size st = (Ret (n, data), st') ->
  0 <= n <= size /\ Z.of_nat (List.length data) = n /\ same_but_conn (fst st) (fst st').
Proof.
  intros Hsize R.
  assert (Hthis : same_but_conn (fst st) (fst st')).
  { pose proof (read__this t size st) as H. rewrite R in H. exact H. }
  destruct st as [c w].
  destruct (is_open_ c && is_connected_ c) eqn:G.
  2:{ unfold read_, bind at 1, this in R. simpl in R. rewrite G in R. discriminate. }
  apply andb_true_iff in G. destruct G as [Ho Hc].
  destruct (read__connected t size c w Ho Hc) as (n0 & data0 & w1 & _ & Hn0 & E).
  rewrite E in R.
  destruct (w_clock w) as [| now clk]; [discriminate |].
  apply read_loop_bound in R; [tauto | lia | |].
  - destruct Hn0 as [[-> ->] | [Hr Hl]]; simpl; [lia |].
    rewrite Z.max_r in Hr by lia. destruct (Z.gtb_spec n0 0); lia.
  - destruct Hn0 as [[-> ->] | [Hr Hl]]; simpl; [lia |].
    destruct (Z.gtb_spec n0 0); lia.
Qed.

(** ** Markers in byte lists *)

Lemma bytes_eqb_eq (a b : bytes) : bytes_eqb a b = true <-> a = b.
Proof.
  unfold bytes_eqb. destruct (list_eq_dec ascii_dec a b); split; congruence.
Qed.

(** The bytes [readline] compares with the marker are the last ones read. *)
Lemma substr_trailing (p m : bytes) :
  substr (p ++ m) (Z.of_nat (List.length (p ++ m)) - Z.of_nat (List.length m))
         (Z.of_nat (List.length m)) = m.
Proof.
  unfold substr. rewrite length_app, Nat2Z.inj_add.
  replace (Z.of_nat (List.length p) + Z.of_nat (List.length m) - Z.of_nat (List.length m))
    with (Z.of_nat (List.length p)) by lia.
  rewrite !Nat2Z.id.
  rewrite skipn_app, skipn_all, Nat.sub_diag. simpl.
  apply firstn_all.
Qed.

Lemma substr_ends_with (buf : bytes) (from len : Z) (m : bytes) :
  0 <= from -> from + len = Z.of_nat (List.length buf) ->
  substr buf from len = m -> ends_with m buf.
Proof.
  intros Hf Hl E. exists (firstn (Z.to_nat from) buf).
  rewrite <- E. unfold substr.
  rewrite (firstn_all2 (n := Z.to_nat len)).
  - symmetry. apply firstn_skipn.
  - rewrite length_skipn. lia.
Qed.

(** A marker that occurs in a buffer grown by one byte, and did not occur
    before, ends the buffer. *)
Lemma occurrence_at_end (m old got : bytes) :
  ~ occurs_in m old ->
  List.length got = 1%nat ->
  forall p s, old ++ got = p ++ m ++ s -> s = [].
Proof.
  intros Hno Hgot p s E.
  destruct got as [| b [| ? ?]]; try discriminate.
  destruct s as [| x0 s0]; [reflexivity |].
  destruct (exists_last (l := x0 :: s0)) as [s' [x Hs]]; [discriminate |].
  exfalso. apply Hno. exists p, s'. rewrite Hs in E.
  rewrite !app_assoc in E. apply app_inj_tail in E. destruct E as [E _].
  rewrite E, app_assoc. reflexivity.
Qed.

Lemma too_short_no_occurrence (m buf : bytes) :
  (List.length buf < List.length m)%nat -> ~ occurs_in m buf.
Proof.
  intros H (p & s & E). apply (f_equal (@List.length ascii)) in E.
  rewrite !length_app in E. lia.
Qed.

(** ** [readline] *)

Section Readline.

Variables (t : transport) (size : Z).
Hypothesis Hsize : 0 <= size < 2 ^ 64.

(** The loop stops at the first marker: while it runs, the marker has not
    occurred in the bytes read, and in what it returns the marker can only
    be at the very end. *)
Lemma readline_loop_marker fuel :
  forall buffer_ read_so_far st out n st',
    eol_ (fst st) <> [] ->
    eol_len_ (fst st) = Z.of_nat (List.length (eol_ (fst st))) ->
    Z.of_nat (List.length buffer_) = read_so_far ->
    read_so_far <= size ->
    ~ occurs_in (eol_ (fst st)) buffer_ ->
    readline_loop fuel t size buffer_ read_so_far st = (Ret (out, n), st') ->
    Z.of_nat (List.length out) = n /\ n <= size /\
    (forall p s, out = p ++ eol_ (fst st) ++ s -> s = []) /\
    same_but_conn (fst st) (fst st').
Proof.
  assert (Hdone : forall buffer_ read_so_far (st : State) out n st',
            Z.of_nat (List.length buffer_) = read_so_far ->
            read_so_far <= size ->
            ~ occurs_in (eol_ (fst st)) buffer_ ->
            (Ret (buffer_, read_so_far), st) = (Ret (out, n), st') ->
            Z.of_nat (List.length out) = n /\ n <= size /\
            (forall p s, out = p ++ eol_ (fst st) ++ s -> s = []) /\
            same_but_conn (fst st) (fst st')).
  { intros buffer_ read_so_far st out n st' Hlen Hle Hno H.
    inversion H; subst. repeat split; auto using same_but_conn_refl.
    intros p s E. exfalso. apply Hno. exists p, s. exact E. }
  induction fuel as [| fuel IH];
    intros buffer_ read_so_far st out n st' Hne Heol Hlen Hle Hno.
  - simpl. destruct (read_so_far <? size); simpl.
    + unfold stuck. discriminate.
    + unfold ret. now apply Hdone.
  - cbn [readline_loop].
    destruct (Z.ltb_spec read_so_far size) as [Hlt | Hge]; simpl.
    2:{ unfold ret. now apply Hdone. }
    unfold bind at 1, this at 1. unfold bind at 1.
    destruct (read_ t 1 st) as [[[k got] | e | ] st1] eqn:R; try discriminate.
    apply read__ret_bound in R; [| lia]. destruct R as (Hk & Hgot & Hthis).
    pose proof (same_but_conn_eol _ _ Hthis) as He.
    pose proof (same_but_conn_eol_len _ _ Hthis) as Hel.
    rewrite (wrap64_small (read_so_far + k)) by lia.
    assert (Hlen' : Z.of_nat (List.length (buffer_ ++ got)) = read_so_far + k).
    { rewrite length_app, Nat2Z.inj_add. lia. }
    destruct (Z.eqb_spec k 0) as [Hk0 | Hk0].
    { (* nothing arrived *)
      destruct got; [| simpl in Hgot; lia]. rewrite app_nil_r in *.
      unfold ret. intros H. inversion H. clear H.
      repeat split; try lia; try congruence.
      intros p s E. exfalso. apply Hno. exists p, s. congruence. }
    assert (Hgot1 : List.length got = 1%nat) by lia.
    assert (Hk1 : k = 1) by lia. clear Hgot Hk Hk0. subst k.
    destruct (Z.ltb_spec (read_so_far + 1) (eol_len_ (fst st))) as [Hshort | Hlong].
    { (* fewer bytes than the marker has *)
      intros H. apply IH in H; rewrite ?He, ?Hel; auto; try lia.
      - rewrite He in H. destruct H as (H1 & H2 & H3 & H4).
        repeat split; auto. eapply same_but_conn_trans; eassumption.
      - apply too_short_no_occurrence. lia. }
    destruct (bytes_eqb _ _) eqn:Eq.
    { (* the marker *)
      unfold ret. intros H. inversion H. clear H.
      repeat split; try lia; try congruence.
      intros p s E. apply (occurrence_at_end _ _ _ Hno Hgot1 p s). congruence. }
    (* not the marker *)
    intros H. apply IH in H; rewrite ?He, ?Hel; auto; try lia.
    + rewrite He in H. destruct H as (H1 & H2 & H3 & H4).
      repeat split; auto. eapply same_but_conn_trans; eassumption.
    + intros (p & s & E).
      pose proof (occurrence_at_end _ _ _ Hno Hgot1 p s E) as ->.
      rewrite app_nil_r in E.
      assert (Eq' : bytes_eqb
                (substr (buffer_ ++ got)
                        (wrap64 (read_so_far + 1 - eol_len_ (fst st)))
                        (eol_len_ (fst st))) (eol_ (fst st)) = true).
      { apply bytes_eqb_eq. rewrite wrap64_small by lia.
        rewrite Heol, <- Hlen', E. apply substr_trailing. }
      congruence.
Qed.

End Readline.

(** ** Reconfiguring a connected channel *)

Lemma open_attempts_connected (t : transport) (script : list open_outcome) :
  forall st,
    is_connected_ (fst (snd (open_attempts t script st))) = is_connected_ (fst st).
Proof.
  induction script as [| o script IH]; intros st; simpl; [reflexivity |].
  destruct o as [fd | e]; simpl; [reflexivity |].
  destruct (e =? EINTR); [rewrite IH |]; reflexivity.
Qed.

(** [open_] never sets [is_connected_]. *)
Lemma open__connected (t : transport) (st : State) :
  is_connected_ (fst (snd (open_ t st))) = is_connected_ (fst st).
Proof.
  unfold open_, bind, this. simpl.
  destruct t; simpl.
  - destruct (is_open_ (fst st) || (address_ (fst st) =? "")%string); simpl;
      [reflexivity | apply open_attempts_connected].
  - destruct (is_open_ (fst st)); simpl; [reflexivity | apply open_attempts_connected].
Qed.

(** [close_] on an open channel, when it returns, leaves it closed and
    disconnected. *)
Lemma close__returns (st st' : State) :
  is_open_ (fst st) = true ->
  close_ st = (Ret tt, st') ->
  is_open_ (fst st') = false /\ is_connected_ (fst st') = false.
Proof.
  destruct st as [c w]. simpl. intros Ho.
  unfold close_, bind at 1, this. simpl. rewrite Ho.
  unfold bind at 1.
  destruct (negb (fd_ c =? -1)).
  - unfold bind at 1, sys_close. simpl.
    destruct (w_close _) as [| z cl]; simpl.
    + unfold bind, update, ret. simpl. intros H. inversion H. auto.
    + destruct z; simpl; unfold bind, update, ret, throw, errno; simpl;
        intros H; inversion H; auto.
  - unfold bind, update, ret. simpl. intros H. inversion H. auto.
Qed.

(** What the three setters share once the value differs: both locks, and
    for a connected channel [close_] followed by [open_]. *)
Lemma reconnect_disconnects (t : transport) (st st' : State) :
  is_open_ (fst st) = true ->
  is_connected_ (fst st) = true ->
  both_locks (c <- this ;; if is_connected_ c then close_ ;; open_ t else ret tt) st
    = (Ret tt, st') ->
  is_connected_ (fst st') = false.
Proof.
  intros Ho Hc. unfold both_locks, lock_guard. simpl.
  unfold bind at 1, this. simpl. rewrite Hc.
  unfold bind at 1.
  destruct (close_ _) as [[[] | e | ] st1] eqn:C; try discriminate.
  apply close__returns in C; [| exact Ho]. destruct C as [_ C].
  pose proof (open__connected t st1) as O.
  destruct (open_ t st1) as [[[] | e | ] st2]; try discriminate.
  simpl in O. intros H. inversion H. simpl. congruence.
Qed.

(** After [setBaudrate], [setAddress] or [setPort] with a new value has
    returned on an open and connected channel, the channel is not connected,
    and the next [read_] throws. *)
Lemma reconfigured_is_disconnected (t : transport) (c : Comm) (w : World) (st' : State) :
  is_open_ c = true ->
  is_connected_ c = true ->
  (exists baudrate, baudrate <> baudrate_ c /\
                    setBaudrate t baudrate (c, w) = (Ret tt, st')) \/
  (exists address, address <> address_ c /\
                   setAddress t address (c, w) = (Ret tt, st')) \/
  (exists port, port <> port_ c /\ setPort t port (c, w) = (Ret tt, st')) ->
  is_connected_ (fst st') = false /\
  forall size, fst (read_ t size st') = Throw (not_connected t "read").
Proof.
  intros Ho Hc H.
  assert (D : is_connected_ (fst st') = false).
  { destruct H as [(b & Hb & H) | [(a & Ha & H) | (p & Hp & H)]].
    - unfold setBaudrate, bind at 1, this in H. simpl in H.
      apply Z.eqb_neq in Hb. rewrite Z.eqb_sym, Hb in H.
      unfold bind at 1, update in H. simpl in H.
      now apply reconnect_disconnects in H.
    - unfold setAddress, bind at 1, this in H. simpl in H.
      apply String.eqb_neq in Ha. rewrite String.eqb_sym, Ha in H.
      unfold bind at 1, update in H. simpl in H.
      now apply reconnect_disconnects in H.
    - unfold setPort, bind at 1, this in H. simpl in H.
      apply Z.eqb_neq in Hp. rewrite Z.eqb_sym, Hp in H.
      unfold bind at 1, update in H. simpl in H.
      now apply reconnect_disconnects in H. }
  split; [exact D |].
  intros size. unfold read_, bind at 1, this. simpl.
  rewrite D, andb_false_r. reflexivity.
Qed.

(** C3.  A serial port is open and connected at 9600 baud on descriptor 3,
    and [setBaudrate (115200)] is called; the operating system hands out
    descriptor 4 for the device.  The setter closes descriptor 3 and opens
    the device again, but calls [open_] only, not [connect_]: it returns
    with the channel open and not connected, the new baud rate stored in the
    object and never applied to the device, and the next read throws.
    [setAddress] and [setPort] end in the same way. *)
Theorem setBaudrate_reopens_without_connecting :
  let w := set_w_open [OpenOk 4] (feed [B "AB" ++ [LF]]) in
  let '(r, (c, w')) := setBaudrate Serial 115200 (port3, w) in
  r = Ret tt /\
  is_open_ c = true /\ is_connected_ c = false /\
  baudrate_ c = 115200 /\ fd_ c = 4 /\
  w_trace w' = [Lock mtx_read; Lock mtx_send; SysClose 3; SysOpen "/dev/ttyUSB0";
                Unlock mtx_send; Unlock mtx_read] /\
  fst (read_string Serial 3 (c, w')) = Throw (not_connected Serial "read") /\
  is_connected_ (fst (snd (setAddress Serial "/dev/ttyUSB1" (port3, w)))) = false /\
  is_connected_ (fst (snd (setPort Ether 503 (socket3, w)))) = false.
Proof. vm_compute. repeat split; reflexivity. Qed.

(** ** One turn of the transfer loops *)

Ltac run_os :=
  cbv beta iota delta
    [bind waitRead_ waitSend_ sys_select sys_read sys_write errno ret throw];
  simpl.

Section Turn.

Variables (t : transport) (size : Z) (timeout now : timespec) (clk : list timespec).
Variables (c : Comm) (w : World) (sel : list select_outcome).
Hypothesis Hready : w_select w = SelReady true :: sel.
Hypothesis Hnow : expired timeout now = false.

(** [read_]: the descriptor is ready and the read fails with an error that
    is not an interruption: [InterfaceException]. *)
Lemma read_loop_ready_error bytes_read bytes_read_now data e rx :
  bytes_read < size -> bytes_read_now <> 0 ->
  w_rx w = RxErr e :: rx -> e <> EINTR ->
  fst (read_loop t size timeout (now :: clk) bytes_read bytes_read_now data (c, w))
  = Throw (read_nothing t e).
Proof.
  intros Hlt Hnz Hrx He. simpl.
  apply Z.ltb_lt in Hlt. rewrite Hlt. simpl.
  apply Z.eqb_neq in Hnz. rewrite Hnow, Hnz. simpl.
  run_os. rewrite Hready. run_os. rewrite Hrx. run_os.
  apply Z.eqb_neq in He. rewrite He. reflexivity.
Qed.

(** [read_]: the descriptor is ready and the read returns zero:
    [InterfaceException]. *)
Lemma read_loop_ready_nothing bytes_read bytes_read_now data rx :
  bytes_read < size -> bytes_read_now <> 0 ->
  w_rx w = RxData [] :: rx ->
  fst (read_loop t size timeout (now :: clk) bytes_read bytes_read_now data (c, w))
  = Throw (read_nothing t (w_errno w)).
Proof.
  intros Hlt Hnz Hrx. simpl.
  apply Z.ltb_lt in Hlt. rewrite Hlt. simpl.
  apply Z.eqb_neq in Hnz. rewrite Hnow, Hnz. simpl.
  run_os. rewrite Hready. run_os. rewrite Hrx. run_os.
  rewrite firstn_nil, skipn_nil. reflexivity.
Qed.

(** [read_]: an interrupted read is tried again with the same count. *)
Lemma read_loop_interrupted bytes_read bytes_read_now data rx :
  bytes_read < size -> bytes_read_now <> 0 ->
  w_rx w = RxErr EINTR :: rx ->
  read_loop t size timeout (now :: clk) bytes_read bytes_read_now data (c, w)
  = read_loop t size timeout clk bytes_read (-1) data
      (c, set_w_errno EINTR (set_w_rx rx (set_w_select sel (set_w_clock clk w)))).
Proof.
  intros Hlt Hnz Hrx. simpl.
  apply Z.ltb_lt in Hlt. rewrite Hlt. simpl.
  apply Z.eqb_neq in Hnz. rewrite Hnow, Hnz. simpl.
  run_os. rewrite Hready. run_os. rewrite Hrx. run_os. reflexivity.
Qed.

(** [Ether::send_]: the socket is ready and the send fails with an error
    that is not an interruption: [InterfaceException]. *)
Lemma Ether_send_loop_ready_error data bytes_sent e tx :
  bytes_sent < size ->
  w_tx w = TxErr e :: tx -> e <> EINTR ->
  exists msg,
    fst (Ether_send_loop size timeout data (now :: clk) bytes_sent (c, w))
    = Throw (InterfaceException msg (Some e)).
Proof.
  intros Hlt Htx He. simpl.
  apply Z.ltb_lt in Hlt. rewrite Hlt. simpl. rewrite Hnow.
  run_os. rewrite Hready. run_os. rewrite Htx. run_os.
  apply Z.eqb_neq in He. rewrite He. eexists. reflexivity.
Qed.

(** [Serial::send_]: the port is ready and the write fails with an error
    that is not an interruption: the -1 is added to the count, modulo
    [2^64], and the loop goes on. *)
Lemma Serial_send_loop_ready_error data bytes_sent e tx :
  bytes_sent < size ->
  w_tx w = TxErr e :: tx -> e <> EINTR ->
  Serial_send_loop size timeout data (now :: clk) bytes_sent (c, w)
  = Serial_send_loop size timeout data clk (wrap64 (bytes_sent + SIZE_MAX))
      (c, set_w_errno e (set_w_tx tx (set_w_select sel (set_w_clock clk w)))).
Proof.
  intros Hlt Htx He. simpl.
  apply Z.ltb_lt in Hlt. rewrite Hlt. simpl. rewrite Hnow.
  run_os. rewrite Hready. run_os. rewrite Htx. run_os.
  apply Z.eqb_neq in He. rewrite He. reflexivity.
Qed.

End Turn.

(** ** The fuel of the line loops *)

(** [readline]'s loop never runs out of turns: the size asked for is
    enough, and more changes nothing. *)
Lemma readline_loop_fuel (t : transport) (size : Z) :
  0 <= size < 2 ^ 64 ->
  forall fuel fuel' buffer_ read_so_far st,
    0 <= read_so_far ->
    (Z.to_nat (size - read_so_far) <= fuel)%nat ->
    (Z.to_nat (size - read_so_far) <= fuel')%nat ->
    readline_loop fuel t size buffer_ read_so_far st
    = readline_loop fuel' t size buffer_ read_so_far st.
Proof.
  intros Hsize.
  induction fuel as [| fuel IH]; intros fuel' buffer_ read_so_far st H0 Hf Hf'.
  - assert (Hge : size <= read_so_far) by lia.
    apply Z.ltb_ge in Hge.
    destruct fuel'; cbn [readline_loop]; rewrite Hge; reflexivity.
  - destruct fuel' as [| fuel'].
    { assert (Hge : size <= read_so_far) by lia.
      apply Z.ltb_ge in Hge. cbn [readline_loop]. rewrite Hge. reflexivity. }
    cbn [readline_loop].
    destruct (Z.ltb_spec read_so_far size) as [Hlt | Hge]; simpl; [| reflexivity].
    unfold bind at 1 3, this at 1 2. unfold bind at 1 2.
    destruct (read_ t 1 st) as [[[k got] | e | ] st1] eqn:R; try reflexivity.
    apply read__ret_bound in R; [| lia]. destruct R as (Hk & _ & _).
    destruct (Z.eqb_spec k 0) as [Hk0 | Hk0]; [reflexivity |].
    assert (E : wrap64 (read_so_far + k) = read_so_far + 1).
    { rewrite wrap64_small by lia. lia. }
    rewrite E.
    destruct (read_so_far + 1 <? eol_len_ (fst st)).
    { apply IH; lia. }
    destruct (bytes_eqb _ _); [reflexivity |].
    apply IH; lia.
Qed.

(** The same for [readlines]. *)
Lemma readlines_loop_fuel (t : transport) (size : Z) :
  0 <= size < 2 ^ 64 ->
  forall fuel fuel' lines buffer_ read_so_far start_of_line st,
    0 <= read_so_far ->
    (Z.to_nat (size - read_so_far) <= fuel)%nat ->
    (Z.to_nat (size - read_so_far) <= fuel')%nat ->
    readlines_loop fuel t size lines buffer_ read_so_far start_of_line st
    = readlines_loop fuel' t size lines buffer_ read_so_far start_of_line st.
Proof.
  intros Hsize.
  induction fuel as [| fuel IH];
    intros fuel' lines buffer_ read_so_far start_of_line st H0 Hf Hf'.
  - assert (Hge : size <= read_so_far) by lia.
    apply Z.ltb_ge in Hge.
    destruct fuel'; cbn [readlines_loop]; rewrite Hge; reflexivity.
  - destruct fuel' as [| fuel'].
    { assert (Hge : size <= read_so_far) by lia.
      apply Z.ltb_ge in Hge. cbn [readlines_loop]. rewrite Hge. reflexivity. }
    cbn [readlines_loop].
    destruct (Z.ltb_spec read_so_far size) as [Hlt | Hge]; simpl; [| reflexivity].
    unfold bind at 1 3, this at 1 2. unfold bind at 1 2.
    destruct (read_ t 1 st) as [[[k got] | e | ] st1] eqn:R; try reflexivity.
    apply read__ret_bound in R; [| lia]. destruct R as (Hk & _ & _).
    destruct (Z.eqb_spec k 0) as [Hk0 | Hk0]; [reflexivity |].
    assert (E : wrap64 (read_so_far + k) = read_so_far + 1).
    { rewrite wrap64_small by lia. lia. }
    rewrite E.
    destruct (read_so_far + 1 <? wrap64 (eol_len_ (fst st) + start_of_line)).
    { apply IH; lia. }
    destruct (read_so_far + 1 =? size); [reflexivity |].
    apply IH; lia.
Qed.

(** ** What a computation does to the object *)

Section Frame.

Variable R : Comm -> Comm -> Prop.
Hypothesis R_refl : forall c, R c c.
Hypothesis R_trans : forall c1 c2 c3, R c1 c2 -> R c2 c3 -> R c1 c3.
Hypothesis R_conn : forall c tv, R c (set_conn tv c).

Lemma respects_ret {A} (a : A) : respects R (ret a).
Proof. intros st. apply R_refl. Qed.

Lemma respects_throw {A} (e : exn) : respects R (@throw A e).
Proof. intros st. apply R_refl. Qed.

Lemma respects_stuck {A} : respects R (@stuck A).
Proof. intros st. apply R_refl. Qed.

Lemma respects_bind {A B} (m : M A) (k : A -> M B) :
  respects R m -> (forall a, respects R (k a)) -> respects R (bind m k).
Proof.
  intros Hm Hk st. unfold bind. specialize (Hm st).
  destruct (m st) as [[a | e | ] st1]; simpl in *; try exact Hm.
  eapply R_trans; [exact Hm | apply Hk].
Qed.

Lemma respects_lock_guard {A} (m : mutex) (body : M A) :
  respects R body -> respects R (lock_guard m body).
Proof.
  intros Hb st. unfold lock_guard.
  specialize (Hb (fst st, log (Lock m) (snd st))).
  destruct (body _) as [[a | e | ] st1]; simpl in *; exact Hb.
Qed.

Lemma respects_this : respects R this.
Proof. intros st. apply R_refl. Qed.

Lemma respects_errno : respects R errno.
Proof. intros st. apply R_refl. Qed.

Lemma respects_sys (f : World -> World) : respects R (sys f).
Proof. intros st. apply R_refl. Qed.

Lemma respects_lift {A} (r : result A) : respects R (lift r).
Proof. destruct r; [apply respects_ret | apply respects_throw]. Qed.

Lemma respects_update (f : Comm -> Comm) :
  (forall c, R c (f c)) -> respects R (update f).
Proof. intros Hf st. apply Hf. Qed.

Lemma respects_clock_gettime : respects R clock_gettime.
Proof.
  intros st. unfold clock_gettime. destruct (w_clock (snd st)); apply R_refl.
Qed.

Lemma respects_sys_read count : respects R (sys_read count).
Proof.
  intros st. unfold sys_read.
  destruct (w_rx (snd st)) as [| [bs | e] rx]; apply R_refl.
Qed.

Lemma respects_sys_write buf count : respects R (sys_write buf count).
Proof.
  intros st. unfold sys_write.
  destruct (w_tx (snd st)) as [| [room | e] tx]; apply R_refl.
Qed.

Lemma respects_sys_select : respects R sys_select.
Proof.
  intros st. unfold sys_select.
  destruct (w_select (snd st)) as [| o sel]; [apply R_refl |].
  simpl. destruct (select_left o); [apply R_conn | apply R_refl].
Qed.

Lemma respects_sys_close fd : respects R (sys_close fd).
Proof.
  intros st. unfold sys_close. simpl.
  destruct (w_close (snd st)) as [| [| p | p] cl]; apply R_refl.
Qed.

Lemma respects_sys_tcgetattr fd : respects R (sys_tcgetattr fd).
Proof.
  intros st. unfold sys_tcgetattr. destruct (w_isatty (snd st) fd); apply R_refl.
Qed.

Lemma respects_sys_other ok : respects R (sys_other ok).
Proof.
  intros st. unfold sys_other.
  destruct (w_sys (snd st)) as [| [v e] rest]; apply R_refl.
Qed.

Lemma respects_if {A} (b : bool) (m1 m2 : M A) :
  respects R m1 -> respects R m2 -> respects R (if b then m1 else m2).
Proof. destruct b; auto. Qed.

End Frame.

Create HintDb frame.

#[local] Hint Resolve respects_ret respects_throw respects_stuck respects_this
  respects_errno respects_sys respects_lift respects_clock_gettime
  respects_sys_read respects_sys_write respects_sys_select respects_sys_close
  respects_sys_tcgetattr respects_sys_other : frame.

(** Breaks a computation into its calls. *)
Ltac frame :=
  repeat first
    [ solve [eauto with frame]
    | apply respects_bind
    | apply respects_lock_guard
    | apply respects_if
    | progress intros
    | match goal with
      | |- respects _ (match ?x with _ => _ end) => destruct x
      end ].

Lemma eq_refl_Comm : forall c : Comm, c = c.
Proof. reflexivity. Qed.

Lemma eq_trans_Comm : forall c1 c2 c3 : Comm, c1 = c2 -> c2 = c3 -> c1 = c3.
Proof. intros; congruence. Qed.

Lemma same_flags_refl : forall c, same_flags c c.
Proof. intros c; split; reflexivity. Qed.

Lemma same_flags_trans : forall c1 c2 c3,
  same_flags c1 c2 -> same_flags c2 c3 -> same_flags c1 c3.
Proof. unfold same_flags. intros c1 c2 c3 [] []. split; congruence. Qed.

Lemma same_flags_conn : forall c tv, same_flags c (set_conn tv c).
Proof. intros c tv. split; reflexivity. Qed.

#[local] Hint Resolve eq_refl_Comm eq_trans_Comm same_flags_refl same_flags_trans
  same_flags_conn same_but_conn_refl same_but_conn_trans same_but_conn_set : frame.

(** The readiness waits, the transfers and the line framer leave the object
    as it is, but for [timeout_.conn]. *)
Lemma waitRead__keeps : respects same_but_conn waitRead_.
Proof. unfold waitRead_. frame. Qed.

Lemma waitSend__keeps : respects same_but_conn waitSend_.
Proof. unfold waitSend_. frame. Qed.

Lemma read__keeps t size : respects same_but_conn (read_ t size).
Proof. intros st. apply read__this. Qed.

Lemma Serial_send_loop_keeps size timeout data clk :
  forall bytes_sent,
    respects same_but_conn (Serial_send_loop size timeout data clk bytes_sent).
Proof.
  induction clk as [| now clk IH]; intros bytes_sent st.
  - simpl. destruct (bytes_sent <? size); apply same_but_conn_refl.
  - simpl. destruct (bytes_sent <? size); simpl; [| apply same_but_conn_refl].
    destruct (expired timeout now); [apply same_but_conn_refl |].
    change (fst st) with (fst (fst st, set_w_clock clk (snd st))) at 1.
    generalize (fst st, set_w_clock clk (snd st)).
    change (respects same_but_conn
      (r <- waitSend_ ;;
       if r <? 1 then Serial_send_loop size timeout data clk bytes_sent
       else
         n <- sys_write (skipn (Z.to_nat bytes_sent) data) (wrap64 (size - bytes_sent)) ;;
         e <- errno ;;
         if (wrap64 n =? wrap64 (-1)) && (e =? EINTR) then
           Serial_send_loop size timeout data clk bytes_sent
         else if wrap64 n <? 1 then
           throw (InterfaceException
             "Serial::send : device reports readiness to receive but returned data, disconnected?"
             (Some e))
         else Serial_send_loop size timeout data clk (wrap64 (bytes_sent + wrap64 n)))).
    pose proof waitSend__keeps. frame.
Qed.

Lemma Ether_send_loop_keeps size timeout data clk :
  forall bytes_sent,
    respects same_but_conn (Ether_send_loop size timeout data clk bytes_sent).
Proof.
  induction clk as [| now clk IH]; intros bytes_sent st.
  - simpl. destruct (bytes_sent <? size); apply same_but_conn_refl.
  - simpl. destruct (bytes_sent <? size); simpl; [| apply same_but_conn_refl].
    destruct (expired timeout now); [apply same_but_conn_refl |].
    change (fst st) with (fst (fst st, set_w_clock clk (snd st))) at 1.
    generalize (fst st, set_w_clock clk (snd st)).
    change (respects same_but_conn
      (r <- waitSend_ ;;
       if r <? 1 then Ether_send_loop size timeout data clk bytes_sent
       else
         bytes_sent_now <- sys_write (skipn (Z.to_nat bytes_sent) data)
                                     (wrap64 (size - bytes_sent)) ;;
         e <- errno ;;
         if (bytes_sent_now =? -1) && (e =? EINTR) then
           Ether_send_loop size timeout data clk bytes_sent
         else if bytes_sent_now <? 1 then
           throw (InterfaceException
             "Ether::send : device reports readiness to receive but returned no data, disconnected?"
             (Some e))
         else Ether_send_loop size timeout data clk (wrap64 (bytes_sent + bytes_sent_now)))).
    pose proof waitSend__keeps. frame.
Qed.

Lemma send__keeps t data size : respects same_but_conn (send_ t data size).
Proof.
  destruct t; unfold send_, Serial_send_, Ether_send_; frame;
    intros st; first [apply Serial_send_loop_keeps | apply Ether_send_loop_keeps].
Qed.

Lemma readline_loop_keeps t size fuel :
  forall buffer_ read_so_far,
    respects same_but_conn (readline_loop fuel t size buffer_ read_so_far).
Proof.
  pose proof (read__keeps t 1).
  induction fuel as [| fuel IH]; intros buffer_ read_so_far; cbn [readline_loop]; frame.
Qed.

Lemma readlines_loop_keeps t size fuel :
  forall lines buffer_ read_so_far start_of_line,
    respects same_but_conn
      (readlines_loop fuel t size lines buffer_ read_so_far start_of_line).
Proof.
  pose proof (read__keeps t 1).
  induction fuel as [| fuel IH]; intros lines buffer_ read_so_far start_of_line;
    cbn [readlines_loop]; frame.
Qed.

(** ** The invariant [is_connected_ => is_open_] *)

Lemma respects_weaken {A} (R R' : Comm -> Comm -> Prop) (m : M A) :
  (forall c c', R c c' -> R' c c') -> respects R m -> respects R' m.
Proof. intros H Hm st. apply H, Hm. Qed.

Lemma respects_invariant {A} (m : M A) :
  respects opens m -> keeps_invariant m.
Proof.
  intros H st I Hc. destruct (H st) as [Hconn Hopen].
  apply Hopen, I. congruence.
Qed.

Lemma eq_opens c c' : c = c' -> opens c c'.
Proof. intros <-. split; auto. Qed.

Lemma same_flags_opens c c' : same_flags c c' -> opens c c'.
Proof. intros [Ho Hc]. split; [exact Hc | congruence]. Qed.

Lemma opens_refl : forall c, opens c c.
Proof. intros c. split; auto. Qed.

Lemma opens_trans : forall c1 c2 c3, opens c1 c2 -> opens c2 c3 -> opens c1 c3.
Proof. unfold opens. intros c1 c2 c3 [] []. split; [congruence | auto]. Qed.

Lemma same_open_refl : forall c, same_open c c.
Proof. reflexivity. Qed.

Lemma same_open_trans : forall c1 c2 c3,
  same_open c1 c2 -> same_open c2 c3 -> same_open c1 c3.
Proof. unfold same_open. intros. congruence. Qed.

Lemma opens_conn : forall c tv, opens c (set_conn tv c).
Proof. intros c tv. split; auto. Qed.

Lemma same_open_conn : forall c tv, same_open c (set_conn tv c).
Proof. reflexivity. Qed.

#[local] Hint Resolve opens_refl opens_trans same_open_refl same_open_trans
  opens_conn same_open_conn : frame.

Lemma open_attempts_opens (t : transport) (script : list open_outcome) :
  forall st, opens (fst st) (fst (snd (open_attempts t script st))).
Proof.
  induction script as [| o script IH]; intros st; simpl; [apply opens_refl |].
  destruct o as [fd | e]; simpl.
  - split; reflexivity.
  - destruct (e =? EINTR).
    + eapply opens_trans; [| apply IH]. split; simpl; auto.
    + split; simpl; auto.
Qed.

Lemma open__opens (t : transport) : respects opens (open_ t).
Proof.
  intros st. unfold open_, bind, this. simpl.
  destruct (match t with
            | Serial => is_open_ (fst st) || (address_ (fst st) =? "")%string
            | Ether => is_open_ (fst st)
            end); simpl; [apply opens_refl | apply open_attempts_opens].
Qed.

(** When [open_] returns, the channel is open, unless it is a serial port
    without an address, which [open_] leaves as it is. *)
Lemma open__returns (t : transport) (st st' : State) :
  open_ t st = (Ret tt, st') ->
  is_open_ (fst st') = true \/
  (t = Serial /\ address_ (fst st) = ""%string /\ st' = st).
Proof.
  assert (A : forall script s s',
            open_attempts t script s = (Ret tt, s') -> is_open_ (fst s') = true).
  { induction script as [| o script IH]; intros s s'; simpl; [discriminate |].
    destruct o as [fd | e].
    - intros H. inversion H. reflexivity.
    - destruct (e =? EINTR); [apply IH | discriminate]. }
  unfold open_, bind, this. simpl. destruct t.
  - destruct (is_open_ (fst st)) eqn:Ho; simpl.
    + unfold ret. intros H. inversion H; subst. auto.
    + destruct (String.eqb_spec (address_ (fst st)) ""); simpl.
      * unfold ret. intros H. inversion H; subst. auto.
      * intros H. left. eapply A; eassumption.
  - destruct (is_open_ (fst st)) eqn:Ho; simpl.
    + unfold ret. intros H. inversion H; subst. auto.
    + intros H. left. eapply A; eassumption.
Qed.

Lemma Serial_setOptions__flags : respects same_flags Serial_setOptions_.
Proof.
  unfold Serial_setOptions_. frame.
  apply respects_update. intros c'. split; reflexivity.
Qed.

Lemma Ether_setOptions__keeps : respects eq Ether_setOptions_.
Proof. unfold Ether_setOptions_. frame. Qed.

Lemma setOptions__flags (t : transport) : respects same_flags (setOptions_ t).
Proof.
  destruct t; simpl; [apply Serial_setOptions__flags |].
  eapply respects_weaken; [| apply Ether_setOptions__keeps].
  intros c c' <-. apply same_flags_refl.
Qed.

(** [connect_] never touches [is_open_]. *)
Lemma connect__same_open (t : transport) : respects same_open (connect_ t).
Proof.
  assert (U : respects same_open (update (set_is_connected_ true))).
  { apply respects_update. intros c. reflexivity. }
  destruct t; simpl.
  - unfold Serial_connect_.
    assert (S : respects same_open Serial_setOptions_).
    { eapply respects_weaken; [| apply Serial_setOptions__flags]. intros c c' []. assumption. }
    frame.
  - unfold Ether_connect_, set_address, get_options, set_options.
    assert (S : respects same_open Ether_setOptions_).
    { eapply respects_weaken; [| apply Ether_setOptions__keeps]. intros c c' <-. reflexivity. }
    frame.
Qed.

(** [Serial::connect_] on a descriptor that is no terminal throws and
    connects nothing. *)
Lemma Serial_connect__no_terminal (st : State) :
  is_connected_ (fst st) = false ->
  w_isatty (snd st) (fd_ (fst st)) = false ->
  is_connected_ (fst (snd (Serial_connect_ st))) = false.
Proof.
  intros Hc Htty. unfold Serial_connect_, bind at 1, this. simpl. rewrite Hc.
  unfold bind at 1, Serial_setOptions_, bind at 1, this. simpl.
  unfold bind at 1, sys_tcgetattr. simpl. rewrite Htty. simpl.
  unfold bind, errno, throw. simpl. exact Hc.
Qed.

Lemma close__invariant : keeps_invariant close_.
Proof.
  intros [c w] I. simpl in I.
  unfold close_, bind at 1, this. simpl.
  destruct (is_open_ c) eqn:Ho; [| exact I].
  unfold bind at 1.
  destruct (negb (fd_ c =? -1)).
  - unfold bind at 1, sys_close. simpl.
    destruct (w_close _) as [| z cl]; simpl.
    + unfold bind, update, ret. simpl. intros H. discriminate.
    + destruct z; simpl; unfold bind, update, ret, throw, errno; simpl;
        first [intros H; discriminate | intros _; exact Ho].
  - unfold bind, update, ret. simpl. intros H. discriminate.
Qed.

Lemma keeps_invariant_bind {A B} (m : M A) (k : A -> M B) :
  keeps_invariant m -> (forall a, keeps_invariant (k a)) -> keeps_invariant (bind m k).
Proof.
  intros Hm Hk st I. unfold bind. specialize (Hm st I).
  destruct (m st) as [[a | e | ] st1]; simpl in *; try exact Hm.
  now apply Hk.
Qed.

Lemma keeps_invariant_lock_guard {A} (m : mutex) (body : M A) :
  keeps_invariant body -> keeps_invariant (lock_guard m body).
Proof.
  intros Hb st I. unfold lock_guard.
  specialize (Hb (fst st, log (Lock m) (snd st)) I).
  destruct (body _) as [[a | e | ] st1]; simpl in *; exact Hb.
Qed.

Lemma keeps_invariant_eq {A} (m : M A) : respects eq m -> keeps_invariant m.
Proof.
  intros H. apply respects_invariant.
  eapply respects_weaken; [apply eq_opens | exact H].
Qed.

Lemma keeps_invariant_flags {A} (m : M A) : respects same_flags m -> keeps_invariant m.
Proof.
  intros H. apply respects_invariant.
  eapply respects_weaken; [apply same_flags_opens | exact H].
Qed.

Lemma keeps_invariant_conn {A} (m : M A) : respects same_but_conn m -> keeps_invariant m.
Proof.
  intros H. apply keeps_invariant_flags.
  eapply respects_weaken; [apply same_but_conn_flags | exact H].
Qed.

Lemma lock_guard_this {A} (m : mutex) (body : M A) (st : State) :
  fst (snd (lock_guard m body st)) = fst (snd (body (fst st, log (Lock m) (snd st)))).
Proof.
  unfold lock_guard. destruct (body _) as [[a | e | ] st1]; reflexivity.
Qed.

(** What the three setters do once the value differs keeps the invariant. *)
Lemma reconnect_invariant (t : transport) (f : Comm -> Comm) :
  (forall c, same_flags c (f c)) ->
  keeps_invariant
    (update f ;;
     both_locks (c <- this ;; if is_connected_ c then close_ ;; open_ t else ret tt)).
Proof.
  intros Hf. apply keeps_invariant_bind.
  - apply keeps_invariant_flags, respects_update, Hf.
  - intros _. unfold both_locks. do 2 apply keeps_invariant_lock_guard.
    apply keeps_invariant_bind; [apply keeps_invariant_eq, respects_this; auto with frame |].
    intros c. destruct (is_connected_ c).
    + apply keeps_invariant_bind; [apply close__invariant |].
      intros _. apply respects_invariant, open__opens.
    + apply keeps_invariant_eq, respects_ret. reflexivity.
Qed.

(** [Comm::open] keeps the invariant on a socket, on a serial port with an
    address, on a channel that is open already, and on a serial port whose
    stale descriptor is no terminal. *)
Lemma open_invariant (t : transport) (st : State) :
  connected_is_open (fst st) ->
  t = Ether \/ address_ (fst st) <> ""%string \/ is_open_ (fst st) = true \/
    w_isatty (snd st) (fd_ (fst st)) = false ->
  connected_is_open (fst (snd (open t st))).
Proof.
  intros I H. unfold open, both_locks.
  rewrite !lock_guard_this. simpl.
  set (st0 := (fst st, log (Lock mtx_send) (log (Lock mtx_read) (snd st)))).
  unfold bind.
  pose proof (open__opens t st0) as O.
  destruct (open_ t st0) as [[[] | e | ] st1] eqn:Op; simpl in *.
  - pose proof (connect__same_open t st1) as C. unfold same_open in C.
    apply open__returns in Op. destruct Op as [Hopen | (-> & Haddr & ->)].
    + intros _. congruence.
    + pose proof (Serial_connect__no_terminal st0) as D.
      subst st0. change (connect_ Serial) with Serial_connect_ in *.
      simpl in Haddr, C, D.
      destruct H as [H | [H | [H | H]]]; try congruence.
      destruct (is_connected_ (fst st)) eqn:Hc.
      { intros _. rewrite C. now apply I. }
      intros Hc'. exfalso. specialize (D eq_refl H).
      simpl in Hc'. congruence.
  - destruct O as [Oc Oo]. intros Hc. apply Oo, I. congruence.
  - destruct O as [Oc Oo]. intros Hc. apply Oo, I. congruence.
Qed.

(** X30. The invariant holds for a new object and is kept by every public
    operation, [open] on a serial port without an address apart. *)
Lemma invariant_kept (t : transport) :
  (forall b p fd address eol timeout settings,
     connected_is_open (Comm_new b p fd address eol timeout settings)) /\
  keeps_invariant close /\
  keeps_invariant (flush t) /\
  keeps_invariant waitRead /\
  keeps_invariant waitSend /\
  (forall buffer size, keeps_invariant (read_into t buffer size)) /\
  (forall buffer size, keeps_invariant (readline_into t buffer size)) /\
  (forall size, keeps_invariant (readlines t size)) /\
  (forall data, keeps_invariant (send_bytes t data)) /\
  (forall address, keeps_invariant (setAddress t address)) /\
  (forall port, keeps_invariant (setPort t port)) /\
  (forall baudrate, keeps_invariant (setBaudrate t baudrate)) /\
  (forall eol, keeps_invariant (setEOL eol)) /\
  (forall timeout, keeps_invariant (setTimeout t timeout)) /\
  (forall settings, keeps_invariant (setSettings t settings)).
Proof.
  pose proof waitRead__keeps. pose proof waitSend__keeps.
  pose proof (read__keeps t). pose proof (send__keeps t).
  pose proof (readline_loop_keeps t). pose proof (readlines_loop_keeps t).
  repeat split.
  - unfold Comm_new. intros Hc. discriminate.
  - unfold close, both_locks. do 2 apply keeps_invariant_lock_guard. apply close__invariant.
  - apply keeps_invariant_eq. unfold flush, both_locks, flush_. destruct t; frame.
  - apply keeps_invariant_conn. unfold waitRead. frame.
  - apply keeps_invariant_conn. unfold waitSend. frame.
  - intros. apply keeps_invariant_conn. unfold read_into. frame.
  - intros. apply keeps_invariant_conn. unfold readline_into. frame.
  - intros. apply keeps_invariant_conn. unfold readlines. frame.
  - intros. apply keeps_invariant_conn. unfold send_bytes. frame.
  - intros address. unfold setAddress.
    apply keeps_invariant_bind; [apply keeps_invariant_eq; frame |].
    intros c. destruct (address_ c =? address)%string;
      [apply keeps_invariant_eq; frame |].
    apply reconnect_invariant. intros c'. split; reflexivity.
  - intros port. unfold setPort.
    apply keeps_invariant_bind; [apply keeps_invariant_eq; frame |].
    intros c. destruct (port_ c =? port); [apply keeps_invariant_eq; frame |].
    apply reconnect_invariant. intros c'. split; reflexivity.
  - intros baudrate. unfold setBaudrate.
    apply keeps_invariant_bind; [apply keeps_invariant_eq; frame |].
    intros c. destruct (baudrate_ c =? baudrate); [apply keeps_invariant_eq; frame |].
    apply reconnect_invariant. intros c'. split; reflexivity.
  - intros eol. apply keeps_invariant_flags. unfold setEOL.
    apply respects_lock_guard, respects_update. intros c. split; reflexivity.
  - intros timeout. apply keeps_invariant_flags. unfold setTimeout, both_locks.
    pose proof (setOptions__flags t).
    assert (respects same_flags (update (set_timeout_ timeout)))
      by (apply respects_update; intros c; split; reflexivity).
    frame.
  - intros settings. apply keeps_invariant_flags. unfold setSettings, both_locks.
    pose proof (setOptions__flags t).
    assert (respects same_flags (update (set_settings_ settings)))
      by (apply respects_update; intros c; split; reflexivity).
    frame.
Qed.

(** ** Where the bytes go *)

(** A read takes its bytes from the front of the stream. *)
Lemma sys_read_stream (count : Z) (st st' : State) n got :
  sys_read count st = (Ret (n, got), st') ->
  rx_stream (snd st) = got ++ rx_stream (snd st').
Proof.
  unfold sys_read, rx_stream.
  destruct st as [c [clk rx0 tx sel op cl sy tty en sent tr]]; simpl.
  destruct rx0 as [| [bs | e] rx].
  - intros H; inversion H; subst; reflexivity.
  - intros H; inversion H; subst; simpl. clear H.
    rewrite <- (firstn_skipn (Z.to_nat count) bs) at 1.
    rewrite <- app_assoc. f_equal.
    destruct (skipn (Z.to_nat count) bs); reflexivity.
  - intros H; inversion H; subst; reflexivity.
Qed.

Lemma waitRead__stream (st : State) : rx_stream (snd (snd (waitRead_ st))) = rx_stream (snd st).
Proof.
  unfold waitRead_, bind, rx_stream.
  destruct (sys_select_world st) as (_ & Hrx & _).
  destruct (sys_select_returns st) as (r & isset & st1 & E). rewrite E in *.
  unfold errno, ret, throw. simpl in *.
  destruct (r <? 0); [destruct (_ =? EINTR) |
                      destruct ((r >? 0) && negb isset)%bool]; simpl; rewrite Hrx;
    reflexivity.
Qed.

(** What the loop returns is what it had, followed by the bytes it took from
    the front of the stream. *)
Lemma read_loop_stream (t : transport) (size : Z) (timeout : timespec) clk :
  forall bytes_read bytes_read_now data st n out st',
    read_loop t size timeout clk bytes_read bytes_read_now data st = (Ret (n, out), st') ->
    data ++ rx_stream (snd st) = out ++ rx_stream (snd st').
Proof.
  induction clk as [| now clk IH]; intros bytes_read bytes_read_now data st n out st'.
  - simpl. destruct (bytes_read <? size); simpl; intros H; inversion H; subst; reflexivity.
  - simpl. destruct (bytes_read <? size); simpl.
    2:{ intros H; inversion H; subst; reflexivity. }
    destruct (expired timeout now || (bytes_read_now =? 0)).
    { intros H; inversion H; subst; reflexivity. }
    unfold bind at 1.
    pose proof (waitRead__stream (fst st, set_w_clock clk (snd st))) as W.
    destruct (waitRead_ _) as [[r | e | ] st1]; try discriminate.
    simpl in W. change (rx_stream (set_w_clock clk (snd st))) with (rx_stream (snd st)) in W.
    destruct (r <? 1).
    { intros H. apply IH in H. congruence. }
    unfold bind at 1.
    destruct (sys_read_returns (wrap64 (size - bytes_read)) st1)
      as (k & got & st2 & R & _ & _ & Hk).
    rewrite R. apply sys_read_stream in R.
    unfold bind at 1, errno at 1.
    destruct ((k =? -1) && (w_errno (snd st2) =? EINTR)) eqn:Ei.
    { (* an interrupted read stores nothing *)
      apply andb_true_iff in Ei. destruct Ei as [Ek _]. apply Z.eqb_eq in Ek.
      destruct Hk as [[_ ->] | [Hk _]]; [| lia].
      intros H. apply IH in H. rewrite <- H, <- W, R. reflexivity. }
    destruct (k <? 1); [unfold throw; discriminate |].
    intros H. apply IH in H. rewrite <- H, <- W, R, app_assoc. reflexivity.
Qed.

(** What [read_] returns is the front of the stream. *)
Lemma read__stream (t : transport) (size : Z) (st st' : State) n data :
  read_ t size st = (Ret (n, data), st') ->
  rx_stream (snd st) = data ++ rx_stream (snd st').
Proof.
  destruct st as [c w]. unfold read_, bind at 1, this. simpl.
  destruct (negb (is_open_ c && is_connected_ c)); [discriminate |].
  unfold bind at 1.
  destruct (sys_read size (c, w)) as [[[n0 d0] | e | ] st1] eqn:R; try discriminate.
  apply sys_read_stream in R. simpl in R.
  unfold bind at 1, clock_gettime.
  destruct (w_clock (snd st1)) as [| now clk]; [discriminate |].
  intros H. apply read_loop_stream in H. simpl in H.
  change (rx_stream (set_w_clock clk (snd st1))) with (rx_stream (snd st1)) in H.
  rewrite R. exact H.
Qed.

(** What [readline]'s loop returns is what it had, followed by the front of
    the stream. *)
Lemma readline_loop_stream (t : transport) (size : Z) fuel :
  forall buffer_ read_so_far st out n st',
    readline_loop fuel t size buffer_ read_so_far st = (Ret (out, n), st') ->
    buffer_ ++ rx_stream (snd st) = out ++ rx_stream (snd st').
Proof.
  induction fuel as [| fuel IH]; intros buffer_ read_so_far st out n st'.
  - simpl. destruct (read_so_far <? size); simpl.
    + unfold stuck. discriminate.
    + unfold ret. intros H. inversion H; subst. reflexivity.
  - cbn [readline_loop].
    destruct (read_so_far <? size); simpl.
    2:{ unfold ret. intros H. inversion H; subst. reflexivity. }
    unfold bind at 1, this at 1. unfold bind at 1.
    destruct (read_ t 1 st) as [[[k got] | e | ] st1] eqn:R; try discriminate.
    apply read__stream in R.
    assert (E : buffer_ ++ rx_stream (snd st) = (buffer_ ++ got) ++ rx_stream (snd st1)).
    { rewrite R, app_assoc. reflexivity. }
    destruct (k =? 0).
    { unfold ret. intros H. inversion H; subst. exact E. }
    destruct (_ <? eol_len_ (fst st)).
    { intros H. apply IH in H. congruence. }
    destruct (bytes_eqb _ _).
    { unfold ret. intros H. inversion H; subst. exact E. }
    intros H. apply IH in H. congruence.
Qed.

(** C2, with the marker kept.  On a channel with a non-empty marker, for every
    size limit: the line [readline] returns is the front of the stream, has
    at most that many bytes, and the marker can only occur at its very end,
    as its suffix.  Reading stops at the first point where the trailing
    bytes consumed equal the marker, and the marker is part of the line
    returned. *)
Theorem readline_stops_at_marker (t : transport) (c : Comm) (w : World)
    (size : Z) (line : bytes) (st' : State) :
  eol_ c <> [] ->
  eol_len_ c = Z.of_nat (List.length (eol_ c)) ->
  0 <= size < 2 ^ 64 ->
  readline t size (c, w) = (Ret line, st') ->
  rx_stream w = line ++ rx_stream (snd st') /\
  Z.of_nat (List.length line) <= size /\
  (forall p s, line = p ++ eol_ c ++ s -> s = []) /\
  (occurs_in (eol_ c) line -> ends_with (eol_ c) line).
Proof.
  intros Hne Heol Hsize.
  unfold readline, readline_into, lock_guard. unfold bind at 1. simpl.
  unfold bind at 1.
  destruct (readline_loop _ _ _ _ _ _) as [[[buffer_ n] | e | ] st1] eqn:L;
    try discriminate.
  unfold ret. intros H. inversion H; subst. clear H.
  pose proof (readline_loop_stream _ _ _ _ _ _ _ _ _ L) as Hstream.
  simpl in Hstream.
  change (rx_stream (log (Lock mtx_read) w)) with (rx_stream w) in Hstream.
  apply readline_loop_marker in L; simpl; auto; try lia.
  2:{ intros (p & s & E). destruct p; [| discriminate].
      destruct (eol_ c); [congruence | discriminate]. }
  simpl in L. destruct L as (Hlen & Hle & Hocc & _).
  rewrite firstn_all2 by lia.
  split; [exact Hstream |].
  split; [lia |]. split; [exact Hocc |].
  intros (p & s & E). exists p. rewrite (Hocc p s E) in E.
  now rewrite app_nil_r in E.
Qed.

(** C2 with the marker left out does not hold: with a line feed as marker
    and the bytes AB<LF> arriving, [readline (10)] returns AB<LF>, marker
    included. *)
Lemma readline_keeps_marker :
  fst (readline Serial 10 (port3, feed [B "AB" ++ [LF]])) = Ret (B "AB" ++ [LF]) /\
  ~ marker_excluded Serial port3 (feed [B "AB" ++ [LF]]) 10.
Proof.
  split; [vm_compute; reflexivity |].
  intros H.
  apply (H (B "AB" ++ [LF]) (snd (readline Serial 10 (port3, feed [B "AB" ++ [LF]])))).
  - vm_compute. reflexivity.
  - exists (B "AB"), []. reflexivity.
  - exists (B "AB"). reflexivity.
Qed.

(** The same stream: the line read is the front of the stream and ends with
    the marker, its only occurrence. *)
Lemma readline_stops_at_marker_witness :
  let w := feed [B "AB" ++ [LF]] in
  rx_stream w
    = (B "AB" ++ [LF]) ++ rx_stream (snd (snd (readline Serial 10 (port3, w)))) /\
  Z.of_nat (List.length (B "AB" ++ [LF])) <= 10 /\
  (forall p s, B "AB" ++ [LF] = p ++ eol_ port3 ++ s -> s = []) /\
  (occurs_in (eol_ port3) (B "AB" ++ [LF]) -> ends_with (eol_ port3) (B "AB" ++ [LF])).
Proof.
  cbv zeta.
  apply (readline_stops_at_marker Serial port3 (feed [B "AB" ++ [LF]]) 10
           (B "AB" ++ [LF]) (snd (readline Serial 10 (port3, feed [B "AB" ++ [LF]])))).
  - discriminate.
  - reflexivity.
  - lia.
  - vm_compute. reflexivity.
Defined.

(** ** [readlines] *)

(** Cutting a piece off the bytes read since the last cut. *)
Lemma emit_piece (lines : list bytes) (buffer_ : bytes) (start_of_line read_so_far : Z) :
  Z.of_nat (List.length buffer_) = read_so_far ->
  0 <= start_of_line < read_so_far ->
  List.concat lines = firstn (Z.to_nat start_of_line) buffer_ ->
  List.concat (lines ++ [substr buffer_ start_of_line (read_so_far - start_of_line)])
    = buffer_ /\
  substr buffer_ start_of_line (read_so_far - start_of_line) <> [].
Proof.
  intros Hlen Hs Hc.
  assert (E : substr buffer_ start_of_line (read_so_far - start_of_line)
              = skipn (Z.to_nat start_of_line) buffer_).
  { unfold substr. apply firstn_all2. rewrite length_skipn. lia. }
  rewrite E. split.
  - rewrite concat_app, Hc. simpl. rewrite app_nil_r. apply firstn_skipn.
  - intros H. apply (f_equal (@List.length ascii)) in H.
    rewrite length_skipn in H. simpl in H. lia.
Qed.

Section Readlines.

Variables (t : transport) (size : Z).
Hypothesis Hsize : 0 <= size < 2 ^ 64.

(** While the loop runs, the pieces cut so far are the bytes read up to the
    last cut, none of them empty, and the bytes read are the front of the
    stream. *)
Lemma readlines_loop_pieces fuel :
  forall lines buffer_ read_so_far start_of_line st lines' buffer' read' start' st',
    Z.of_nat (List.length buffer_) = read_so_far ->
    0 <= start_of_line <= read_so_far ->
    read_so_far <= size ->
    List.concat lines = firstn (Z.to_nat start_of_line) buffer_ ->
    Forall (fun l => l <> []) lines ->
    readlines_loop fuel t size lines buffer_ read_so_far start_of_line st
      = (Ret (lines', buffer', read', start'), st') ->
    Z.of_nat (List.length buffer') = read' /\
    0 <= start' <= read' /\
    read' <= size /\
    List.concat lines' = firstn (Z.to_nat start') buffer' /\
    Forall (fun l => l <> []) lines' /\
    buffer_ ++ rx_stream (snd st) = buffer' ++ rx_stream (snd st').
Proof.
  induction fuel as [| fuel IH];
    intros lines buffer_ read_so_far start_of_line st lines' buffer' read' start' st'
           Hlen Hs Hle Hc Hne.
  - simpl. destruct (read_so_far <? size); simpl.
    + unfold stuck. discriminate.
    + unfold ret. intros H. inversion H; subst. repeat split; auto; lia.
  - cbn [readlines_loop].
    destruct (Z.ltb_spec read_so_far size) as [Hlt | Hge]; simpl.
    2:{ unfold ret. intros H. inversion H; subst. repeat split; auto; lia. }
    unfold bind at 1, this at 1. unfold bind at 1.
    destruct (read_ t 1 st) as [[[k got] | e | ] st1] eqn:R; try discriminate.
    pose proof (read__stream _ _ _ _ _ _ R) as Hstream.
    apply read__ret_bound in R; [| lia]. destruct R as (Hk & Hgot & _).
    assert (Hstream' : buffer_ ++ rx_stream (snd st)
                       = (buffer_ ++ got) ++ rx_stream (snd st1)).
    { rewrite Hstream, app_assoc. reflexivity. }
    destruct (Z.eqb_spec k 0) as [Hk0 | Hk0].
    { destruct got; [| simpl in Hgot; lia]. rewrite app_nil_r in *.
      unfold ret. intros H. inversion H; subst lines' buffer' read' start' st'.
      repeat split; auto; lia. }
    assert (Hgot1 : List.length got = 1%nat) by lia.
    assert (Hk1 : k = 1) by lia. clear Hgot Hk Hk0. subst k.
    rewrite (wrap64_small (read_so_far + 1)) by lia.
    assert (Hlen1 : Z.of_nat (List.length (buffer_ ++ got)) = read_so_far + 1).
    { rewrite length_app, Nat2Z.inj_add. lia. }
    assert (Hc1 : List.concat lines = firstn (Z.to_nat start_of_line) (buffer_ ++ got)).
    { rewrite Hc, firstn_app.
      replace (Z.to_nat start_of_line - List.length buffer_)%nat with 0%nat by lia.
      simpl. now rewrite app_nil_r. }
    destruct (read_so_far + 1 <? wrap64 (eol_len_ (fst st) + start_of_line)).
    { intros H. apply IH in H; auto; try lia.
      destruct H as (? & ? & ? & ? & ? & H). repeat split; auto; try lia. congruence. }
    destruct (negb (strncmp _ _ _ =? 0)).
    + (* a piece is cut *)
      rewrite (wrap64_small (read_so_far + 1 - start_of_line)) by lia.
      destruct (emit_piece lines (buffer_ ++ got) start_of_line (read_so_far + 1))
        as [Hcat Hpiece]; auto; try lia.
      assert (Hcat' : List.concat
                (lines ++ [substr (buffer_ ++ got) start_of_line
                                  (read_so_far + 1 - start_of_line)])
              = firstn (Z.to_nat (read_so_far + 1)) (buffer_ ++ got)).
      { transitivity (buffer_ ++ got); [exact Hcat |].
        symmetry. apply firstn_all2. lia. }
      assert (Hne' : Forall (fun l => l <> [])
                (lines ++ [substr (buffer_ ++ got) start_of_line
                                  (read_so_far + 1 - start_of_line)])).
      { apply Forall_app. split; [assumption | constructor; auto]. }
      destruct (read_so_far + 1 =? size).
      * unfold ret. intros H. inversion H; subst lines' buffer' read' start' st'.
        repeat split; auto; lia.
      * intros H. apply IH in H; auto; try lia.
        destruct H as (? & ? & ? & ? & ? & H). repeat split; auto; try lia. congruence.
    + (* no cut *)
      destruct (read_so_far + 1 =? size).
      * unfold ret. intros H. inversion H; subst lines' buffer' read' start' st'.
        repeat split; auto; lia.
      * intros H. apply IH in H; auto; try lia.
        destruct H as (? & ? & ? & ? & ? & H). repeat split; auto; try lia. congruence.
Qed.

End Readlines.

(** What [readlines] does keep, wherever it cuts.  For every channel and
    every size limit, [readlines] consumes at most that many bytes from the
    front of the stream and returns them all, in order, cut into pieces none
    of which is empty: the pieces put end to end are the bytes consumed,
    markers included, and the bytes after the last cut are the last
    piece. *)
Theorem readlines_pieces_are_the_stream (t : transport) (c : Comm) (w : World)
    (size : Z) (lines : list bytes) (st' : State) :
  0 <= size < 2 ^ 64 ->
  readlines t size (c, w) = (Ret lines, st') ->
  rx_stream w = List.concat lines ++ rx_stream (snd st') /\
  Z.of_nat (List.length (List.concat lines)) <= size /\
  Forall (fun l => l <> []) lines.
Proof.
  intros Hsize.
  unfold readlines, lock_guard. simpl. unfold bind at 1.
  destruct (readlines_loop _ _ _ _ _ _ _ _)
    as [[[[[lines0 buffer_] read_so_far] start_of_line] | e | ] st1] eqn:L;
    try discriminate.
  apply readlines_loop_pieces in L; auto; simpl; try lia.
  destruct L as (Hlen & Hs & Hle & Hc & Hne & Hstream).
  simpl in Hstream.
  change (rx_stream (log (Lock mtx_read) w)) with (rx_stream w) in Hstream.
  destruct (Z.eqb_spec start_of_line read_so_far) as [Heq | Hneq]; simpl;
    unfold ret; intros H; inversion H; subst lines st'; clear H; simpl;
    change (rx_stream (log (Unlock mtx_read) (snd st1))) with (rx_stream (snd st1)).
  - assert (E : List.concat lines0 = buffer_).
    { rewrite Hc. apply firstn_all2. lia. }
    rewrite E. repeat split; auto; lia.
  - rewrite (wrap64_small (read_so_far - start_of_line)) by lia.
    destruct (emit_piece lines0 buffer_ start_of_line read_so_far) as [Hcat Hpiece];
      auto; try lia.
    assert (E : List.concat
                  (lines0 ++ [substr buffer_ start_of_line (read_so_far - start_of_line)])
                = buffer_) by exact Hcat.
    rewrite E. repeat split; auto; try lia.
    apply Forall_app. split; [assumption | constructor; auto].
Qed.

(** The two-chunk stream: the six pieces put end to end are AB<LF>CDE<LF>. *)
Lemma readlines_pieces_are_the_stream_witness :
  let w := feed [B "AB" ++ [LF]; B "CDE" ++ [LF]] in
  let pieces := [B "A"; B "B"; LF :: B "C"; B "D"; B "E"; [LF]] in
  List.concat pieces = B "AB" ++ [LF] ++ B "CDE" ++ [LF] /\
  (rx_stream w
   = List.concat pieces ++ rx_stream (snd (snd (readlines Serial 7 (port3, w)))) /\
   Z.of_nat (List.length (List.concat pieces)) <= 7 /\
   Forall (fun l => l <> []) pieces).
Proof.
  cbv zeta. split; [reflexivity |].
  apply (readlines_pieces_are_the_stream Serial port3
           (feed [B "AB" ++ [LF]; B "CDE" ++ [LF]]) 7
           [B "A"; B "B"; LF :: B "C"; B "D"; B "E"; [LF]]
           (snd (readlines Serial 7 (port3, feed [B "AB" ++ [LF]; B "CDE" ++ [LF]])))).
  - lia.
  - vm_compute. reflexivity.
Defined.

(** ** The line loops return *)

(** With a byte waiting, [read_ (1)] returns it at once. *)
Lemma read__available (t : transport) (c : Comm) (w : World) (n : nat) :
  is_open_ c = true -> is_connected_ c = true ->
  available (S n) w ->
  exists b w', read_ t 1 (c, w) = (Ret (1, [b]), (c, w')) /\ available n w'.
Proof.
  intros Ho Hc [Hclk [Hz | (bs & rx & Hrx & Hbs)]]; [discriminate |].
  destruct (w_clock w) as [| now clk] eqn:Eclk; [simpl in Hclk; lia |].
  destruct bs as [| b bs]; [simpl in Hbs; lia |].
  exists b, (set_w_clock clk
               (set_w_rx (match bs with [] => rx | _ => RxData bs :: rx end) w)).
  split.
  - unfold read_, bind at 1, this. simpl. rewrite Ho, Hc. simpl.
    unfold bind at 1, sys_read. simpl. rewrite Hrx. simpl.
    unfold bind at 1, clock_gettime. simpl. rewrite Eclk.
    destruct clk; reflexivity.
  - split; simpl.
    + simpl in Hclk. lia.
    + destruct n; [left; reflexivity | right].
      destruct bs as [| b' bs]; [simpl in Hbs; lia |].
      exists (b' :: bs), rx. split; [reflexivity | simpl in *; lia].
Qed.

Lemma readline_loop_returns (t : transport) (size : Z) (c : Comm) :
  0 <= size < 2 ^ 64 ->
  is_open_ c = true -> is_connected_ c = true ->
  forall fuel buffer_ read_so_far w,
    0 <= read_so_far <= size ->
    fuel = Z.to_nat (size - read_so_far) ->
    available fuel w ->
    exists out n w',
      readline_loop fuel t size buffer_ read_so_far (c, w) = (Ret (out, n), (c, w')).
Proof.
  intros Hsize Ho Hc.
  induction fuel as [| fuel IH]; intros buffer_ read_so_far w Hr Hf Ha.
  - simpl. replace (read_so_far <? size) with false
      by (symmetry; apply Z.ltb_ge; lia).
    simpl. unfold ret. eauto.
  - cbn [readline_loop].
    replace (read_so_far <? size) with true by (symmetry; apply Z.ltb_lt; lia).
    simpl. unfold bind at 1, this at 1. unfold bind at 1.
    destruct (read__available t c w fuel Ho Hc Ha) as (b & w' & R & Ha').
    rewrite R. simpl.
    rewrite (wrap64_small (read_so_far + 1)) by lia.
    destruct (read_so_far + 1 <? eol_len_ c).
    { apply IH; [lia | lia | assumption]. }
    destruct (bytes_eqb _ _).
    { unfold ret. eauto. }
    apply IH; [lia | lia | assumption].
Qed.

(** On an open and connected channel with enough bytes waiting, [readline]
    returns a line. *)
Lemma readline_returns (t : transport) (size : Z) (c : Comm) (w : World) :
  0 <= size < 2 ^ 64 ->
  is_open_ c = true -> is_connected_ c = true ->
  available (Z.to_nat size) w ->
  exists line st', readline t size (c, w) = (Ret line, st').
Proof.
  intros Hsize Ho Hc Ha.
  destruct (readline_loop_returns t size c Hsize Ho Hc (Z.to_nat size) [] 0
              (log (Lock mtx_read) w)) as (out & n & w' & L).
  - lia.
  - f_equal. lia.
  - exact Ha.
  - unfold readline, readline_into, lock_guard. unfold bind at 1. simpl.
    unfold bind at 1. rewrite L. simpl. unfold ret. eauto.
Qed.

Lemma readlines_loop_returns (t : transport) (size : Z) (c : Comm) :
  0 <= size < 2 ^ 64 ->
  is_open_ c = true -> is_connected_ c = true ->
  forall fuel lines buffer_ read_so_far start_of_line w,
    0 <= read_so_far <= size ->
    fuel = Z.to_nat (size - read_so_far) ->
    available fuel w ->
    exists r w',
      readlines_loop fuel t size lines buffer_ read_so_far start_of_line (c, w)
      = (Ret r, (c, w')).
Proof.
  intros Hsize Ho Hc.
  induction fuel as [| fuel IH];
    intros lines buffer_ read_so_far start_of_line w Hr Hf Ha.
  - simpl. replace (read_so_far <? size) with false
      by (symmetry; apply Z.ltb_ge; lia).
    simpl. unfold ret. eauto.
  - cbn [readlines_loop].
    replace (read_so_far <? size) with true by (symmetry; apply Z.ltb_lt; lia).
    simpl. unfold bind at 1, this at 1. unfold bind at 1.
    destruct (read__available t c w fuel Ho Hc Ha) as (b & w' & R & Ha').
    rewrite R. simpl.
    rewrite (wrap64_small (read_so_far + 1)) by lia.
    destruct (read_so_far + 1 <? wrap64 (eol_len_ c + start_of_line)).
    { apply IH; [lia | lia | assumption]. }
    destruct (read_so_far + 1 =? size).
    { unfold ret. eauto. }
    apply IH; [lia | lia | assumption].
Qed.

(** On an open and connected channel with enough bytes waiting, [readlines]
    returns its pieces. *)
Lemma readlines_returns (t : transport) (size : Z) (c : Comm) (w : World) :
  0 <= size < 2 ^ 64 ->
  is_open_ c = true -> is_connected_ c = true ->
  available (Z.to_nat size) w ->
  exists lines st', readlines t size (c, w) = (Ret lines, st').
Proof.
  intros Hsize Ho Hc Ha.
  destruct (readlines_loop_returns t size c Hsize Ho Hc (Z.to_nat size) [] [] 0 0
              (log (Lock mtx_read) w)) as ([[[lines buffer_] n] start] & w' & L).
  - lia.
  - f_equal. lia.
  - exact Ha.
  - unfold readlines, lock_guard. simpl. unfold bind at 1. rewrite L. simpl.
    destruct (negb (start =? n)); unfold ret; eauto.
Qed.

(* ================================================================== *)
(** * The life cycle of the channel *)

(** ** Running a computation under the mutexes *)

Lemma lock_guard_returns {A} (m : mutex) (body : M A) (st st1 : State) (r : outcome A) :
  body (fst st, log (Lock m) (snd st)) = (r, st1) -> r <> Stuck ->
  lock_guard m body st = (r, (fst st1, log (Unlock m) (snd st1))).
Proof. intros H N. unfold lock_guard. rewrite H. destruct r; congruence. Qed.

Lemma both_locks_returns {A} (body : M A) (st st1 : State) (r : outcome A) :
  body (fst st, log (Lock mtx_send) (log (Lock mtx_read) (snd st))) = (r, st1) ->
  r <> Stuck ->
  both_locks body st
    = (r, (fst st1, log (Unlock mtx_read) (log (Unlock mtx_send) (snd st1)))).
Proof.
  intros H N. unfold both_locks.
  apply (lock_guard_returns mtx_read _ st (fst st1, log (Unlock mtx_send) (snd st1))); [| exact N].
  now apply lock_guard_returns.
Qed.

Lemma lock_guard_inv {A} (m : mutex) (body : M A) (st st' : State) (r : outcome A) :
  lock_guard m body st = (r, st') -> r <> Stuck ->
  exists st1, body (fst st, log (Lock m) (snd st)) = (r, st1) /\
              st' = (fst st1, log (Unlock m) (snd st1)).
Proof.
  unfold lock_guard. intros H N.
  destruct (body _) as [[a | e |] st1]; inversion H; subst; try congruence;
    exists st1; auto.
Qed.

Lemma both_locks_inv {A} (body : M A) (st st' : State) (r : outcome A) :
  both_locks body st = (r, st') -> r <> Stuck ->
  exists st1,
    body (fst st, log (Lock mtx_send) (log (Lock mtx_read) (snd st))) = (r, st1) /\
    st' = (fst st1, log (Unlock mtx_read) (log (Unlock mtx_send) (snd st1))).
Proof.
  unfold both_locks. intros H N.
  apply lock_guard_inv in H; [| exact N]. destruct H as (st2 & H & ->).
  apply lock_guard_inv in H; [| exact N]. destruct H as (st1 & H & ->).
  exists st1. auto.
Qed.

Lemma bind_returns {A B} (m : M A) (k : A -> M B) (st st1 : State) (a : A) :
  m st = (Ret a, st1) -> bind m k st = k a st1.
Proof. intros H. unfold bind. now rewrite H. Qed.

Lemma bind_throws {A B} (m : M A) (k : A -> M B) (st st1 : State) (e : exn) :
  m st = (Throw e, st1) -> bind m k st = (Throw e, st1).
Proof. intros H. unfold bind. now rewrite H. Qed.

Lemma bind_inv {A B} (m : M A) (k : A -> M B) (st st' : State) (b : B) :
  bind m k st = (Ret b, st') ->
  exists a st1, m st = (Ret a, st1) /\ k a st1 = (Ret b, st').
Proof.
  unfold bind. destruct (m st) as [[a | e |] st1]; try discriminate.
  intros H. exists a, st1. auto.
Qed.

(** ** Closing *)

(** [close_] on an open channel, when it returns, has reset the three
    fields. *)
Lemma close__resets (st st' : State) :
  is_open_ (fst st) = true ->
  close_ st = (Ret tt, st') ->
  fst st' = set_is_open_ false (set_is_connected_ false (set_fd_ (-1) (fst st))).
Proof.
  destruct st as [c w]. simpl. intros Ho.
  unfold close_, bind at 1, this. simpl. rewrite Ho.
  unfold bind at 1.
  destruct (Z.eqb_spec (fd_ c) (-1)) as [Hfd | Hfd]; simpl.
  - unfold bind, update, ret. simpl. intros H. inversion H.
    destruct c; simpl in *; subst; reflexivity.
  - unfold bind at 1, sys_close. simpl.
    destruct (w_close w) as [| z cl]; simpl.
    + unfold bind, update, ret. simpl. intros H. inversion H. reflexivity.
    + destruct z; simpl; unfold bind, update, ret, throw, errno; simpl;
        intros H; inversion H; reflexivity.
Qed.

(** X1. [Comm::close], when it returns, leaves the channel closed; a channel
    that was open is also disconnected and holds [-1] for a descriptor; and
    a second [close] then returns having only taken and released the two
    mutexes: no descriptor is closed twice. *)
Theorem close_twice (c : Comm) (w : World) (st' : State) :
  close (c, w) = (Ret tt, st') ->
  is_open_ (fst st') = false /\
  (is_open_ c = true -> is_connected_ (fst st') = false /\ fd_ (fst st') = -1) /\
  close st' = (Ret tt, (fst st', locked_both (snd st'))).
Proof.
  intros H. unfold close in H.
  apply both_locks_inv in H; [| discriminate]. destruct H as (st1 & H & ->). simpl in *.
  assert (Hclosed : is_open_ (fst st1) = false).
  { destruct (is_open_ c) eqn:Ho.
    - apply close__resets in H; [| exact Ho]. rewrite H. reflexivity.
    - unfold close_, bind, this in H. simpl in H. rewrite Ho in H.
      inversion H. exact Ho. }
  split; [exact Hclosed |]. split.
  - intros Ho. apply close__resets in H; [| exact Ho]. rewrite H. split; reflexivity.
  - unfold close.
    rewrite (both_locks_returns close_ _
               (fst st1, log (Lock mtx_send) (log (Lock mtx_read)
                  (log (Unlock mtx_read) (log (Unlock mtx_send) (snd st1)))))
               (Ret tt)); [reflexivity | | discriminate].
    unfold close_, bind, this. simpl. rewrite Hclosed. reflexivity.
Qed.

(** The serial port of the examples is closed, and closed again. *)
Lemma close_twice_witness :
  let st' := snd (close (port3, tty0)) in
  close (port3, tty0) = (Ret tt, st') /\
  is_open_ (fst st') = false /\
  (is_open_ port3 = true -> is_connected_ (fst st') = false /\ fd_ (fst st') = -1) /\
  close st' = (Ret tt, (fst st', locked_both (snd st'))).
Proof.
  cbv zeta. split; [reflexivity |].
  apply (close_twice port3 tty0 (snd (close (port3, tty0)))). reflexivity.
Defined.

(** X2. When [::close] fails, [Comm::close] throws [IOException] with the
    [errno] of the call and the object is left as it was: still open, still
    connected if it was, still holding the descriptor. *)
Theorem close_failure_keeps_channel (c : Comm) (w : World) (e : Z) (cl : list Z) :
  is_open_ c = true ->
  fd_ c <> -1 ->
  w_close w = e :: cl ->
  e <> 0 ->
  fst (close (c, w)) = Throw (IOException "Comm::close" (Some e)) /\
  fst (snd (close (c, w))) = c.
Proof.
  intros Ho Hfd Hcl He.
  assert (H : close_ (c, log (Lock mtx_send) (log (Lock mtx_read) w))
              = (Throw (IOException "Comm::close" (Some e)),
                 (c, set_w_errno e (set_w_close cl
                       (log (SysClose (fd_ c))
                          (log (Lock mtx_send) (log (Lock mtx_read) w))))))).
  { unfold close_, bind at 1, this. simpl. rewrite Ho.
    unfold bind at 1.
    destruct (Z.eqb_spec (fd_ c) (-1)) as [| _]; [contradiction |]. simpl.
    unfold bind at 1, sys_close. simpl. rewrite Hcl.
    destruct e; [contradiction | |]; reflexivity. }
  unfold close.
  erewrite both_locks_returns; [| exact H | discriminate]. split; reflexivity.
Qed.

Lemma close_failure_keeps_channel_witness :
  let w := set_w_close [EIO] tty0 in
  (is_open_ port3 = true /\ fd_ port3 <> -1 /\ w_close w = [EIO] /\ EIO <> 0) /\
  fst (close (port3, w)) = Throw (IOException "Comm::close" (Some EIO)) /\
  fst (snd (close (port3, w))) = port3.
Proof.
  cbv zeta. split; [repeat split; discriminate |].
  apply (close_failure_keeps_channel port3 (set_w_close [EIO] tty0) EIO []);
    [reflexivity | discriminate | reflexivity | discriminate].
Defined.

(** ** Opening *)

(** X3. [Comm::open] on a channel that is open and connected does nothing
    but take and release the two mutexes. *)
Theorem open_connected_is_noop (t : transport) (c : Comm) (w : World) :
  is_open_ c = true ->
  is_connected_ c = true ->
  open t (c, w) = (Ret tt, (c, locked_both w)).
Proof.
  intros Ho Hc. unfold open.
  rewrite (both_locks_returns _ _
             (c, log (Lock mtx_send) (log (Lock mtx_read) w)) (Ret tt));
    [reflexivity | | discriminate].
  destruct t; simpl connect_;
    unfold open_, Serial_connect_, Ether_connect_, this, bind; simpl;
    rewrite Ho; simpl; rewrite Hc; reflexivity.
Qed.

Lemma open_connected_is_noop_witness :
  (is_open_ socket3 = true /\ is_connected_ socket3 = true) /\
  open Ether (socket3, tty0) = (Ret tt, (socket3, locked_both tty0)).
Proof.
  split; [split; reflexivity |].
  apply (open_connected_is_noop Ether socket3 tty0); reflexivity.
Defined.

Lemma repeat_shift {A} (x : A) (k : nat) (l : list A) :
  x :: repeat x k ++ l = repeat x k ++ x :: l.
Proof. induction k as [| k IH]; simpl; [reflexivity | now rewrite <- IH]. Qed.

(** The attempts of [open_] along [k] interrupted calls. *)
Lemma open_attempts_interrupted (t : transport) (k : nat) (script : list open_outcome) :
  forall c w,
    exists w',
      open_attempts t (repeat (OpenErr EINTR) k ++ script) (c, w)
        = open_attempts t script (match k with O => c | S _ => set_fd_ (-1) c end, w') /\
      w_open w' = match k with O => w_open w | S _ => script end /\
      w_trace w' = w_trace w ++ repeat (open_event t c) k /\
      w_sys w' = w_sys w /\ w_isatty w' = w_isatty w.
Proof.
  induction k as [| k IH]; intros c w.
  - exists w. simpl. rewrite app_nil_r. auto.
  - simpl repeat. simpl app. simpl open_attempts.
    destruct (IH (set_fd_ (-1) c)
                 (set_w_errno EINTR (log (open_event t c)
                    (set_w_open (repeat (OpenErr EINTR) k ++ script) w))))
      as (w' & E & Hop & Htr & Hsys & Htty).
    exists (match k with
            | O => set_w_errno EINTR (log (open_event t c) (set_w_open script w))
            | S _ => w' end).
    destruct k as [| k].
    + simpl. repeat split; reflexivity.
    + split.
      * unfold open_event in *. rewrite E. reflexivity.
      * simpl in *. rewrite Hop, Htr, Hsys, Htty. repeat split.
        rewrite <- app_assoc. destruct t; reflexivity.
Qed.

(** X4. An [::open] or [socket] interrupted by a signal is made again:
    after [k] interrupted calls and one that succeeds, [open_] returns with
    the channel open on the descriptor of the last call, having made
    [k + 1] calls. *)
Theorem open_retries_interrupted (t : transport) (c : Comm) (w : World)
    (k : nat) (fd : N) (rest : list open_outcome) :
  is_open_ c = false ->
  (t = Serial -> address_ c <> ""%string) ->
  w_open w = repeat (OpenErr EINTR) k ++ OpenOk fd :: rest ->
  exists w',
    open_ t (c, w) = (Ret tt, (set_is_open_ true (set_fd_ (Z.of_N fd) c), w')) /\
    w_open w' = rest /\
    w_trace w' = w_trace w ++ repeat (open_event t c) (S k).
Proof.
  intros Ho Ha Hscript.
  assert (G : open_ t (c, w) = open_attempts t (w_open w) (c, w)).
  { unfold open_, bind, this. simpl. rewrite Ho. destruct t; simpl; [| reflexivity].
    destruct (String.eqb_spec (address_ c) ""); [now elim Ha | reflexivity]. }
  rewrite G, Hscript.
  destruct (open_attempts_interrupted t k (OpenOk fd :: rest) c w)
    as (w' & E & Hop & Htr & _).
  rewrite E. simpl.
  eexists. split; [| split].
  - destruct k; reflexivity.
  - reflexivity.
  - simpl. rewrite Htr. rewrite <- app_assoc. f_equal.
    change (repeat (open_event t c) k ++ [open_event t c]
            = open_event t c :: repeat (open_event t c) k).
    rewrite <- (repeat_shift (open_event t c) k []), app_nil_r. reflexivity.
Qed.

Lemma open_retries_interrupted_witness :
  let c := set_is_open_ false (set_is_connected_ false port3) in
  let w := set_w_open [OpenErr EINTR; OpenErr EINTR; OpenOk 5] tty0 in
  (is_open_ c = false /\ (Serial = Serial -> address_ c <> ""%string) /\
   w_open w = repeat (OpenErr EINTR) 2 ++ [OpenOk 5]) /\
  exists w',
    open_ Serial (c, w) = (Ret tt, (set_is_open_ true (set_fd_ 5 c), w')) /\
    w_open w' = [] /\
    w_trace w' = w_trace w ++ repeat (open_event Serial c) 3.
Proof.
  cbv zeta. split; [repeat split; discriminate |].
  apply (open_retries_interrupted Serial
           (set_is_open_ false (set_is_connected_ false port3))
           (set_w_open [OpenErr EINTR; OpenErr EINTR; OpenOk 5] tty0) 2 5 []);
    [reflexivity | discriminate | reflexivity].
Defined.

(** X5. When [::open] or [socket] fails with anything but [EINTR],
    [Comm::open] throws the [IOException] of [open_] and does not go on to
    [connect_]: the object is as before with [-1] for a descriptor, so the
    channel stays closed and no other call reaches the operating system. *)
Theorem open_failure_leaves_closed (t : transport) (c : Comm) (w : World)
    (k : nat) (e : Z) (rest : list open_outcome) :
  is_open_ c = false ->
  (t = Serial -> address_ c <> ""%string) ->
  w_open w = repeat (OpenErr EINTR) k ++ OpenErr e :: rest ->
  e <> EINTR ->
  exists w',
    open t (c, w) = (Throw (open_failed t e), (set_fd_ (-1) c, w')) /\
    w_open w' = rest /\
    w_sys w' = w_sys w /\
    w_trace w' = w_trace w ++ [Lock mtx_read; Lock mtx_send]
                   ++ repeat (open_event t c) (S k) ++ [Unlock mtx_send; Unlock mtx_read].
Proof.
  intros Ho Ha Hscript He.
  set (w0 := log (Lock mtx_send) (log (Lock mtx_read) w)).
  assert (G : open_ t (c, w0) = open_attempts t (w_open w0) (c, w0)).
  { unfold open_, bind, this. simpl. rewrite Ho. destruct t; simpl; [| reflexivity].
    destruct (String.eqb_spec (address_ c) ""); [now elim Ha | reflexivity]. }
  destruct (open_attempts_interrupted t k (OpenErr e :: rest) c w0)
    as (w' & E & Hop & Htr & Hsys & _).
  change (w_open w0) with (w_open w) in G. rewrite Hscript, E in G.
  simpl in G. destruct (Z.eqb_spec e EINTR) as [| _]; [contradiction |].
  unfold open.
  erewrite both_locks_returns;
    [| apply bind_throws; exact G | discriminate].
  eexists. split; [| split; [| split]].
  - destruct k; reflexivity.
  - reflexivity.
  - simpl. exact Hsys.
  - simpl. rewrite Htr. unfold w0. simpl. rewrite <- !app_assoc. simpl.
    do 3 f_equal. unfold open_event. symmetry. apply repeat_shift.
Qed.

Lemma open_failure_leaves_closed_witness :
  let c := set_is_open_ false (set_is_connected_ false socket3) in
  let w := set_w_open [OpenErr EMFILE] tty0 in
  (is_open_ c = false /\ (Ether = Serial -> address_ c <> ""%string) /\
   w_open w = repeat (OpenErr EINTR) 0 ++ [OpenErr EMFILE] /\ EMFILE <> EINTR) /\
  exists w',
    open Ether (c, w) = (Throw (open_failed Ether EMFILE), (set_fd_ (-1) c, w')) /\
    w_open w' = [] /\
    w_sys w' = w_sys w /\
    w_trace w' = w_trace w ++ [Lock mtx_read; Lock mtx_send]
                   ++ repeat (open_event Ether c) 1 ++ [Unlock mtx_send; Unlock mtx_read].
Proof.
  cbv zeta. split; [repeat split; discriminate |].
  apply (open_failure_leaves_closed Ether
           (set_is_open_ false (set_is_connected_ false socket3))
           (set_w_open [OpenErr EMFILE] tty0) 0 EMFILE []);
    [reflexivity | discriminate | reflexivity | discriminate].
Defined.

(** ** Exceptions that leave the object alone *)

Section Cleanly.

Variable P : exn -> Prop.
Variable R : Comm -> Comm -> Prop.
Hypothesis R_refl : forall c, R c c.
Hypothesis R_trans : forall c1 c2 c3, R c1 c2 -> R c2 c3 -> R c1 c3.

Lemma cleanly_ret {A} (a : A) : throws_cleanly P R (ret a).
Proof. intros st e st'. discriminate. Qed.

Lemma cleanly_throw {A} (e : exn) : P e -> throws_cleanly P R (@throw A e).
Proof. intros H st e' st' E. inversion E. subst. auto. Qed.

Lemma cleanly_bind {A B} (m : M A) (k : A -> M B) :
  respects R m -> throws_cleanly P R m -> (forall a, throws_cleanly P R (k a)) ->
  throws_cleanly P R (bind m k).
Proof.
  intros Rm Hm Hk st e st'. unfold bind.
  pose proof (Rm st) as Rst.
  destruct (m st) as [[a | e1 |] st1] eqn:E; simpl in Rst.
  - intros H. apply Hk in H. destruct H as [H1 H2]. split; [exact H1 |].
    eapply R_trans; eassumption.
  - intros H. inversion H. subst. eapply Hm. eassumption.
  - discriminate.
Qed.

Lemma cleanly_if {A} (b : bool) (m1 m2 : M A) :
  throws_cleanly P R m1 -> throws_cleanly P R m2 ->
  throws_cleanly P R (if b then m1 else m2).
Proof. destruct b; auto. Qed.

Lemma cleanly_this : throws_cleanly P R this.
Proof. intros st e st'. discriminate. Qed.

Lemma cleanly_errno : throws_cleanly P R errno.
Proof. intros st e st'. discriminate. Qed.

Lemma cleanly_sys (f : World -> World) : throws_cleanly P R (sys f).
Proof. intros st e st'. discriminate. Qed.

Lemma cleanly_update (f : Comm -> Comm) : throws_cleanly P R (update f).
Proof. intros st e st'. discriminate. Qed.

Lemma cleanly_lift {A} (r : result A) :
  (forall e, r = Err e -> P e) -> throws_cleanly P R (lift r).
Proof.
  intros H st e st'. destruct r as [a | e1]; simpl; [discriminate |].
  unfold throw. intros E. inversion E. subst. auto.
Qed.

Lemma cleanly_sys_other ok : throws_cleanly P R (sys_other ok).
Proof.
  intros st e st'. unfold sys_other.
  destruct (w_sys (snd st)) as [| [v e1] rest]; discriminate.
Qed.

Lemma cleanly_sys_select : throws_cleanly P R sys_select.
Proof.
  intros st e st'. destruct (sys_select_returns st) as (r & isset & st1 & E).
  rewrite E. discriminate.
Qed.

Lemma cleanly_sys_tcgetattr fd : throws_cleanly P R (sys_tcgetattr fd).
Proof.
  intros st e st'. unfold sys_tcgetattr.
  destruct (w_isatty (snd st) fd); discriminate.
Qed.

Lemma cleanly_weaken {A} (R' : Comm -> Comm -> Prop) (m : M A) :
  (forall c c', R c c' -> R' c c') -> throws_cleanly P R m -> throws_cleanly P R' m.
Proof. intros HR Hm st e st' E. destruct (Hm st e st' E). auto. Qed.

End Cleanly.

#[local] Hint Resolve cleanly_ret cleanly_this cleanly_errno cleanly_sys
  cleanly_update cleanly_sys_other cleanly_sys_select cleanly_sys_tcgetattr : frame.

(** Breaks a computation into its calls, as [frame] does. *)
Ltac cleanly :=
  repeat first
    [ solve [eauto with frame]
    | apply cleanly_bind; [solve [eauto with frame] | solve [frame] | |]
    | apply cleanly_if
    | apply cleanly_throw; solve [simpl; auto with frame]
    | progress intros
    | match goal with
      | |- throws_cleanly _ _ (match ?x with _ => _ end) => destruct x
      end ].

Lemma os_failure_not_argument (e : exn) :
  os_failure e ->
  (forall what, e <> invalid_argument what) /\
  (forall description, e <> ConnectionException description).
Proof. destruct e; simpl; intros H; split; intros; congruence || contradiction. Qed.

Lemma to_timeval_range_error (data : double) (e : exn) :
  to_timeval data = Err e -> e = RangeError.
Proof.
  unfold to_timeval. destruct (_ || _); intros H; inversion H. reflexivity.
Qed.

(** ** Configuring and connecting *)

Lemma Serial_setOptions__terminal (c : Comm) (w : World) :
  w_isatty w (fd_ c) = true ->
  Serial_setOptions_ (c, w) =
  match to_timeval (get_bytetime (baudrate_ c) (settings_ c)) with
  | Ok tv =>
      (Ret tt,
       (set_timeout_ (mk_Timeout (read (timeout_ c)) (send (timeout_ c)) tv
                                 (conn (timeout_ c))) c,
        log (SysTcsetattr (fd_ c) (baudrate_ c) (settings_ c)) w))
  | Err e => (Throw e, (c, log (SysTcsetattr (fd_ c) (baudrate_ c) (settings_ c)) w))
  end.
Proof.
  intros Htty. unfold Serial_setOptions_, bind at 1, this. cbn [fst snd].
  unfold bind at 1, sys_tcgetattr. cbn [fst snd]. rewrite Htty.
  change (-1 =? -1) with true. change (0 =? -1) with false. cbv iota.
  unfold bind at 1, sys. cbn [fst snd]. unfold bind at 1.
  destruct (to_timeval _) as [tv | e]; reflexivity.
Qed.

Lemma Serial_setOptions__no_terminal (c : Comm) (w : World) :
  w_isatty w (fd_ c) = false ->
  Serial_setOptions_ (c, w) =
  (Throw (tcgetattr_failed (fd_ c)),
   (c, set_w_errno (if fd_ c <? 0 then EBADF else ENOTTY) w)).
Proof.
  intros Htty. unfold Serial_setOptions_, bind at 1, this. cbn [fst snd].
  unfold bind at 1, sys_tcgetattr. cbn [fst snd]. rewrite Htty. reflexivity.
Qed.

Lemma Serial_setOptions__cleanly :
  throws_cleanly (fun e => e = RangeError \/ os_failure e) eq Serial_setOptions_.
Proof.
  unfold Serial_setOptions_. cleanly.
  apply cleanly_lift; [reflexivity |].
  intros e H. left. eapply to_timeval_range_error, H.
Qed.

Lemma Ether_setOptions__cleanly : throws_cleanly os_failure eq Ether_setOptions_.
Proof. unfold Ether_setOptions_. cleanly. Qed.

Lemma set_address_cleanly (address : string) (port : Z) :
  address <> ""%string -> port <> 0 ->
  throws_cleanly os_failure eq (set_address address port).
Proof.
  intros Ha Hp. unfold set_address.
  destruct (String.eqb_spec address ""); [contradiction |].
  destruct (Z.eqb_spec port 0); [contradiction |].
  cleanly.
Qed.

Lemma set_address_keeps address port : respects eq (set_address address port).
Proof. unfold set_address. frame. Qed.

Lemma get_options_keeps : respects eq get_options.
Proof. unfold get_options. frame. Qed.

Lemma set_options_keeps : respects eq set_options.
Proof. unfold set_options. frame. Qed.

#[local] Hint Resolve set_address_keeps get_options_keeps set_options_keeps
  Ether_setOptions__keeps : frame.

(** A socket that does not connect leaves the object as it was, but for
    the [timeout_.conn] that the [select] in [Ether::connect_] may have
    rewritten. *)
Lemma Ether_connect__cleanly : throws_cleanly os_failure same_but_conn Ether_connect_.
Proof.
  unfold Ether_connect_.
  apply cleanly_bind; [eauto with frame | frame | apply cleanly_this |]. intros c.
  destruct (is_connected_ c); simpl; [apply cleanly_ret |].
  destruct (String.eqb_spec (address_ c) ""); simpl; [apply cleanly_ret |].
  destruct (Z.eqb_spec (port_ c) 0); simpl; [apply cleanly_ret |].
  assert (S : respects same_but_conn Ether_setOptions_).
  { eapply respects_weaken; [| apply Ether_setOptions__keeps].
    intros c1 c2 <-. apply same_but_conn_refl. }
  assert (S' : throws_cleanly os_failure same_but_conn Ether_setOptions_).
  { eapply cleanly_weaken; [| apply Ether_setOptions__cleanly].
    intros c1 c2 <-. apply same_but_conn_refl. }
  apply cleanly_bind; [eauto with frame | unfold set_address; frame | |].
  { eapply cleanly_weaken; [| now apply set_address_cleanly].
    intros c1 c2 <-. apply same_but_conn_refl. }
  intros _. unfold get_options, set_options. cleanly.
Qed.

Lemma Serial_connect__cleanly :
  throws_cleanly (fun e => e = RangeError \/ os_failure e) eq Serial_connect_.
Proof.
  unfold Serial_connect_.
  pose proof Serial_setOptions__cleanly as S.
  intros st e st'. unfold bind at 1, this. simpl.
  destruct (is_connected_ (fst st)) eqn:Hc; [discriminate |].
  unfold bind. destruct (Serial_setOptions_ st) as [[[] | e1 |] st1] eqn:E;
    try discriminate.
  intros H. inversion H. subst. eapply S. eassumption.
Qed.


(** A connection that times out where [select] writes the time left back:
    [::connect] on the socket made non-blocking answers [EINPROGRESS],
    [select] runs the connect timeout of one second down and leaves zero in
    [timeout_.conn], and [Ether::connect_] throws with the object changed
    in that field. *)
Lemma Ether_connect__timed_out :
  let c := set_is_connected_ false socket3 in
  let w := set_w_select [SelLeft (mk_timeval 0 0) SelTimeout]
             (set_w_sys [(1, 0); (0, 0); (0, 0); (-1, EINPROGRESS)] tty0) in
  conn (timeout_ c) = mk_timeval 1 0 /\
  fst (Ether_connect_ (c, w))
  = Throw (InterfaceException "Ether::connect : connection error" (Some EINPROGRESS)) /\
  fst (snd (Ether_connect_ (c, w))) = set_conn (mk_timeval 0 0) c /\
  fst (snd (Ether_connect_ (c, w))) <> c.
Proof.
  cbv zeta. repeat match goal with |- _ /\ _ => split end;
    try (vm_compute; reflexivity).
  vm_compute. discriminate.
Qed.

(** ** Construction *)

Lemma open__first_attempt (t : transport) (c : Comm) (w : World) (fd : N)
    (rest : list open_outcome) :
  is_open_ c = false ->
  (t = Serial -> address_ c <> ""%string) ->
  w_open w = OpenOk fd :: rest ->
  open_ t (c, w)
  = (Ret tt, (set_is_open_ true (set_fd_ (Z.of_N fd) c),
              log (open_event t c) (set_w_open rest w))).
Proof.
  intros Ho Ha Hscript. unfold open_, bind, this. simpl. rewrite Ho.
  destruct t; simpl.
  - destruct (String.eqb_spec (address_ c) ""); [now elim Ha |].
    simpl. rewrite Hscript. reflexivity.
  - rewrite Hscript. reflexivity.
Qed.

(** X7. A serial port constructed with an address, when the device opens
    and is a terminal and the byte time of the baud rate and settings is in
    range, is open and connected on the descriptor of [::open]; the object
    holds the arguments of the constructor, except that the per-byte
    timeout is the byte time computed, whatever the [Timeout] passed said;
    one [::open] and one [tcsetattr] were made under the two mutexes. *)
Theorem Serial_new_connects (port0 fd0 : Z) (address : string) (baudrate : Z)
    (eol : bytes) (timeout : Timeout) (settings : Settings) (w : World)
    (fd : N) (rest : list open_outcome) (tv : timeval) :
  address <> ""%string ->
  w_open w = OpenOk fd :: rest ->
  w_isatty w (Z.of_N fd) = true ->
  to_timeval (get_bytetime baudrate settings) = Ok tv ->
  exists w',
    Serial_new port0 fd0 address baudrate eol timeout settings w
    = (Ret tt,
       (mk_Comm address baudrate port0 eol (Z.of_nat (List.length eol)) true true
                (mk_Timeout (read timeout) (send timeout) tv (conn timeout))
                settings (Z.of_N fd), w')) /\
    w_trace w'
    = w_trace w ++ [Lock mtx_read; Lock mtx_send; SysOpen address;
                    SysTcsetattr (Z.of_N fd) baudrate settings;
                    Unlock mtx_send; Unlock mtx_read].
Proof.
  intros Ha Hscript Htty Htv. unfold Serial_new, constructing, open.
  set (c := Comm_new baudrate port0 fd0 address eol timeout settings).
  set (w0 := log (Lock mtx_send) (log (Lock mtx_read) w)).
  assert (O : open_ Serial (c, w0)
              = (Ret tt, (set_is_open_ true (set_fd_ (Z.of_N fd) c),
                          log (open_event Serial c) (set_w_open rest w0)))).
  { apply open__first_attempt; [reflexivity | intros _; exact Ha | exact Hscript]. }
  assert (S : Serial_connect_ (set_is_open_ true (set_fd_ (Z.of_N fd) c),
                               log (open_event Serial c) (set_w_open rest w0))
              = (Ret tt,
                 (mk_Comm address baudrate port0 eol (Z.of_nat (List.length eol)) true true
                          (mk_Timeout (read timeout) (send timeout) tv (conn timeout))
                          settings (Z.of_N fd),
                  log (SysTcsetattr (Z.of_N fd) baudrate settings)
                      (log (open_event Serial c) (set_w_open rest w0))))).
  { unfold Serial_connect_, bind at 1, this. simpl.
    unfold bind. rewrite Serial_setOptions__terminal by exact Htty.
    simpl. rewrite Htv. reflexivity. }
  erewrite both_locks_returns;
    [| simpl fst; simpl snd; fold w0; rewrite (bind_returns _ _ _ _ _ O); exact S
     | discriminate].
  eexists. split; [reflexivity |].
  simpl. rewrite <- !app_assoc. reflexivity.
Qed.

Lemma Serial_new_connects_witness :
  let w := set_w_open [OpenOk 3] device34 in
  ("/dev/ttyUSB0"%string <> ""%string /\ w_open w = [OpenOk 3] /\
   w_isatty w (Z.of_N 3) = true /\
   to_timeval (get_bytetime 9600 Settings_default) = Ok (mk_timeval 0 1042)) /\
  exists w',
    Serial_new 0 0 "/dev/ttyUSB0" 9600 [LF] timeout1 Settings_default w
    = (Ret tt,
       (mk_Comm "/dev/ttyUSB0" 9600 0 [LF] (Z.of_nat (List.length [LF])) true true
                (mk_Timeout (read timeout1) (send timeout1) (mk_timeval 0 1042)
                            (conn timeout1))
                Settings_default (Z.of_N 3), w')) /\
    w_trace w'
    = w_trace w ++ [Lock mtx_read; Lock mtx_send; SysOpen "/dev/ttyUSB0";
                    SysTcsetattr (Z.of_N 3) 9600 Settings_default;
                    Unlock mtx_send; Unlock mtx_read].
Proof.
  cbv zeta. split; [repeat split; (discriminate || (vm_compute; reflexivity)) |].
  apply (Serial_new_connects 0 0 "/dev/ttyUSB0" 9600 [LF] timeout1 Settings_default
           (set_w_open [OpenOk 3] device34) 3 [] (mk_timeval 0 1042));
    [discriminate | reflexivity | reflexivity | vm_compute; reflexivity].
Defined.

Lemma get_bytetime_zero_baudrate (settings : Settings) :
  to_timeval (get_bytetime 0 settings) = Err RangeError.
Proof.
  destruct settings as [b p s f]; destruct b, p, s; vm_compute; reflexivity.
Qed.

(** An exception that leaves the body of a constructor is followed by the
    destructor of the base. *)
Lemma constructing_throws (body : M unit) (st st1 st2 : State) (e : exn) :
  body st = (Throw e, st1) ->
  close st1 = (Ret tt, st2) ->
  constructing body st = (Throw e, st2).
Proof. intros B C. unfold constructing. rewrite B, C. reflexivity. Qed.

(** [close_] on an open channel whose descriptor [::close] accepts. *)
Lemma close__closes (c : Comm) (w : World) :
  is_open_ c = true -> fd_ c <> -1 -> hd 0 (w_close w) = 0 ->
  close_ (c, w)
  = (Ret tt,
     (set_is_open_ false (set_is_connected_ false (set_fd_ (-1) c)),
      set_w_close (tl (w_close w)) (log (SysClose (fd_ c)) w))).
Proof.
  intros Ho Hfd Hcl. unfold close_, bind at 1, this. cbn [fst snd]. rewrite Ho.
  destruct (Z.eqb_spec (fd_ c) (-1)) as [| _]; [contradiction |]. cbn [negb].
  destruct w as [clk rx tx sel op cl sy tty en sent tr]. simpl in Hcl.
  unfold bind, sys_close, update, ret. simpl.
  destruct cl as [| z cl]; simpl; [reflexivity |].
  simpl in Hcl. subst z. reflexivity.
Qed.

(** [close_] on a channel that is not open. *)
Lemma close__closed (c : Comm) (w : World) :
  is_open_ c = false -> close_ (c, w) = (Ret tt, (c, w)).
Proof. intros Ho. unfold close_, bind, this. simpl. rewrite Ho. reflexivity. Qed.

(** X8. A serial port constructed with baud rate 0: the byte time is a
    division by zero, [to_timeval] rejects it, and [open] throws that range
    error out of the body of the constructor after the device has been
    opened and configured.  The destructor of the base then takes the two
    mutexes again and closes the descriptor, and the range error reaches the
    caller: when [::close] accepts the descriptor, the object destroyed is
    closed, not connected and holds [-1], and the calls made are one
    [::open], one [tcsetattr] and one [::close]. *)
Theorem Serial_new_zero_baudrate (port0 fd0 : Z) (address : string)
    (eol : bytes) (timeout : Timeout) (settings : Settings) (w : World)
    (fd : N) (rest : list open_outcome) :
  address <> ""%string ->
  w_open w = OpenOk fd :: rest ->
  w_isatty w (Z.of_N fd) = true ->
  hd 0 (w_close w) = 0 ->
  exists w',
    Serial_new port0 fd0 address 0 eol timeout settings w
    = (Throw RangeError,
       (mk_Comm address 0 port0 eol (Z.of_nat (List.length eol)) false false
                timeout settings (-1), w')) /\
    w_trace w'
    = w_trace w ++ [Lock mtx_read; Lock mtx_send; SysOpen address;
                    SysTcsetattr (Z.of_N fd) 0 settings;
                    Unlock mtx_send; Unlock mtx_read;
                    Lock mtx_read; Lock mtx_send; SysClose (Z.of_N fd);
                    Unlock mtx_send; Unlock mtx_read].
Proof.
  intros Ha Hscript Htty Hclose. unfold Serial_new.
  set (c := Comm_new 0 port0 fd0 address eol timeout settings).
  set (w0 := log (Lock mtx_send) (log (Lock mtx_read) w)).
  assert (O : open_ Serial (c, w0)
              = (Ret tt, (set_is_open_ true (set_fd_ (Z.of_N fd) c),
                          log (open_event Serial c) (set_w_open rest w0)))).
  { apply open__first_attempt; [reflexivity | intros _; exact Ha | exact Hscript]. }
  assert (S : Serial_connect_ (set_is_open_ true (set_fd_ (Z.of_N fd) c),
                               log (open_event Serial c) (set_w_open rest w0))
              = (Throw RangeError,
                 (set_is_open_ true (set_fd_ (Z.of_N fd) c),
                  log (SysTcsetattr (Z.of_N fd) 0 settings)
                      (log (open_event Serial c) (set_w_open rest w0))))).
  { unfold Serial_connect_, bind at 1, this. simpl.
    unfold bind. rewrite Serial_setOptions__terminal by exact Htty.
    simpl. rewrite get_bytetime_zero_baudrate. reflexivity. }
  set (c1 := set_is_open_ true (set_fd_ (Z.of_N fd) c)) in *.
  set (w1 := log (Unlock mtx_read) (log (Unlock mtx_send)
               (log (SysTcsetattr (Z.of_N fd) 0 settings)
                  (log (open_event Serial c) (set_w_open rest w0))))).
  assert (Op : open Serial (c, w) = (Throw RangeError, (c1, w1))).
  { unfold open.
    rewrite (both_locks_returns _ _
               (c1, log (SysTcsetattr (Z.of_N fd) 0 settings)
                      (log (open_event Serial c) (set_w_open rest w0)))
               (Throw RangeError));
      [reflexivity | | discriminate].
    simpl fst; simpl snd; fold w0. rewrite (bind_returns _ _ _ _ _ O). exact S. }
  set (w2 := log (Lock mtx_send) (log (Lock mtx_read) w1)).
  assert (Cl : close (c1, w1)
               = (Ret tt,
                  (set_is_open_ false (set_is_connected_ false (set_fd_ (-1) c1)),
                   log (Unlock mtx_read) (log (Unlock mtx_send)
                     (set_w_close (tl (w_close w2)) (log (SysClose (fd_ c1)) w2)))))).
  { unfold close.
    rewrite (both_locks_returns _ _
               (set_is_open_ false (set_is_connected_ false (set_fd_ (-1) c1)),
                set_w_close (tl (w_close w2)) (log (SysClose (fd_ c1)) w2)) (Ret tt));
      [reflexivity | | discriminate].
    apply close__closes; [reflexivity | simpl; lia | exact Hclose]. }
  rewrite (constructing_throws _ _ _ _ _ Op Cl).
  eexists. split; [reflexivity |].
  simpl. rewrite <- !app_assoc. reflexivity.
Qed.

Lemma Serial_new_zero_baudrate_witness :
  let w := set_w_open [OpenOk 3] device34 in
  ("/dev/ttyUSB0"%string <> ""%string /\ w_open w = [OpenOk 3] /\
   w_isatty w (Z.of_N 3) = true /\ hd 0 (w_close w) = 0) /\
  exists w',
    Serial_new 0 0 "/dev/ttyUSB0" 0 [LF] timeout1 Settings_default w
    = (Throw RangeError,
       (mk_Comm "/dev/ttyUSB0" 0 0 [LF] (Z.of_nat (List.length [LF])) false false
                timeout1 Settings_default (-1), w')) /\
    w_trace w'
    = w_trace w ++ [Lock mtx_read; Lock mtx_send; SysOpen "/dev/ttyUSB0";
                    SysTcsetattr (Z.of_N 3) 0 Settings_default;
                    Unlock mtx_send; Unlock mtx_read;
                    Lock mtx_read; Lock mtx_send; SysClose (Z.of_N 3);
                    Unlock mtx_send; Unlock mtx_read].
Proof.
  cbv zeta. split; [repeat split; discriminate |].
  apply (Serial_new_zero_baudrate 0 0 "/dev/ttyUSB0" [LF] timeout1 Settings_default
           (set_w_open [OpenOk 3] device34) 3 []);
    [discriminate | reflexivity | reflexivity | reflexivity].
Defined.



(** X10. A socket constructed without an address or with port 0, the
    defaults of the constructor, does not stay closed either: [socket] is
    called and the object is open on its descriptor, not connected, and no
    call is made to connect it. *)
Theorem Ether_new_without_target (baudrate0 fd0 : Z) (address : string) (port : Z)
    (eol : bytes) (timeout : Timeout) (w : World) (fd : N) (rest : list open_outcome) :
  address = ""%string \/ port = 0 ->
  w_open w = OpenOk fd :: rest ->
  Ether_new baudrate0 fd0 address port eol timeout w
  = (Ret tt,
     (mk_Comm address baudrate0 port eol (Z.of_nat (List.length eol)) true false
              timeout Settings_default (Z.of_N fd),
      log (Unlock mtx_read) (log (Unlock mtx_send)
        (log SysSocket (set_w_open rest
           (log (Lock mtx_send) (log (Lock mtx_read) w))))))).
Proof.
  intros Htarget Hscript. unfold Ether_new, constructing, open.
  set (c := Comm_new baudrate0 port fd0 address eol timeout Settings_default).
  set (w0 := log (Lock mtx_send) (log (Lock mtx_read) w)).
  assert (O : open_ Ether (c, w0)
              = (Ret tt, (set_is_open_ true (set_fd_ (Z.of_N fd) c),
                          log (open_event Ether c) (set_w_open rest w0)))).
  { apply open__first_attempt; [reflexivity | discriminate | exact Hscript]. }
  rewrite (both_locks_returns _ _
             (set_is_open_ true (set_fd_ (Z.of_N fd) c),
              log (open_event Ether c) (set_w_open rest w0)) (Ret tt));
    [reflexivity | | discriminate].
  simpl fst; simpl snd; fold w0.
  rewrite (bind_returns _ _ _ _ _ O).
  unfold connect_, Ether_connect_, bind, this. simpl.
  destruct Htarget as [-> | ->]; simpl; [reflexivity |].
  rewrite orb_true_r. reflexivity.
Qed.

Lemma Ether_new_without_target_witness :
  let w := set_w_open [OpenOk 3] tty0 in
  (""%string = ""%string \/ 0 = 0) /\ w_open w = [OpenOk 3] /\
  Ether_new 0 0 "" 0 [LF] timeout1 w
  = (Ret tt,
     (mk_Comm "" 0 0 [LF] (Z.of_nat (List.length [LF])) true false
              timeout1 Settings_default (Z.of_N 3),
      log (Unlock mtx_read) (log (Unlock mtx_send)
        (log SysSocket (set_w_open []
           (log (Lock mtx_send) (log (Lock mtx_read) w))))))).
Proof.
  cbv zeta. split; [left; reflexivity |]. split; [reflexivity |].
  apply (Ether_new_without_target 0 0 "" 0 [LF] timeout1 (set_w_open [OpenOk 3] tty0) 3 []);
    [left; reflexivity | reflexivity].
Defined.

Lemma Ether_connect__quiet (c : Comm) (w : World) :
  is_connected_ c = false ->
  address_ c <> ""%string ->
  port_ c <> 0 ->
  w_sys w = [] ->
  Ether_connect_ (c, w) = (Ret tt, (set_is_connected_ true c, w)).
Proof.
  intros Hc Ha Hp Hsys.
  unfold Ether_connect_, bind at 1, this. simpl. rewrite Hc.
  destruct (String.eqb_spec (address_ c) ""); [contradiction |].
  destruct (Z.eqb_spec (port_ c) 0); [contradiction |]. simpl.
  unfold set_address.
  destruct (String.eqb_spec (address_ c) ""); [contradiction |].
  destruct (Z.eqb_spec (port_ c) 0); [contradiction |].
  unfold get_options, set_options, Ether_setOptions_.
  unfold sys_other, errno, ret, throw, update, bind. simpl.
  repeat (rewrite Hsys; simpl). reflexivity.
Qed.

(** X11. A socket constructed with an address and a port, when [socket]
    succeeds and every call that follows does, is open and connected on the
    descriptor of [socket], and holds the arguments of the constructor. *)
Theorem Ether_new_connects (baudrate0 fd0 : Z) (address : string) (port : Z)
    (eol : bytes) (timeout : Timeout) (w : World) (fd : N) (rest : list open_outcome) :
  address <> ""%string ->
  port <> 0 ->
  w_open w = OpenOk fd :: rest ->
  w_sys w = [] ->
  Ether_new baudrate0 fd0 address port eol timeout w
  = (Ret tt,
     (mk_Comm address baudrate0 port eol (Z.of_nat (List.length eol)) true true
              timeout Settings_default (Z.of_N fd),
      log (Unlock mtx_read) (log (Unlock mtx_send)
        (log SysSocket (set_w_open rest
           (log (Lock mtx_send) (log (Lock mtx_read) w))))))).
Proof.
  intros Ha Hp Hscript Hsys. unfold Ether_new, constructing, open.
  set (c := Comm_new baudrate0 port fd0 address eol timeout Settings_default).
  set (w0 := log (Lock mtx_send) (log (Lock mtx_read) w)).
  assert (O : open_ Ether (c, w0)
              = (Ret tt, (set_is_open_ true (set_fd_ (Z.of_N fd) c),
                          log (open_event Ether c) (set_w_open rest w0)))).
  { apply open__first_attempt; [reflexivity | discriminate | exact Hscript]. }
  rewrite (both_locks_returns _ _
             (set_is_connected_ true (set_is_open_ true (set_fd_ (Z.of_N fd) c)),
              log (open_event Ether c) (set_w_open rest w0)) (Ret tt));
    [reflexivity | | discriminate].
  simpl fst; simpl snd; fold w0.
  rewrite (bind_returns _ _ _ _ _ O).
  apply Ether_connect__quiet; [reflexivity | exact Ha | exact Hp | exact Hsys].
Qed.

Lemma Ether_new_connects_witness :
  let w := set_w_open [OpenOk 3] tty0 in
  ("192.168.0.10"%string <> ""%string /\ 502 <> 0 /\ w_open w = [OpenOk 3] /\
   w_sys w = []) /\
  Ether_new 0 0 "192.168.0.10" 502 [LF] timeout1 w
  = (Ret tt,
     (mk_Comm "192.168.0.10" 0 502 [LF] (Z.of_nat (List.length [LF])) true true
              timeout1 Settings_default (Z.of_N 3),
      log (Unlock mtx_read) (log (Unlock mtx_send)
        (log SysSocket (set_w_open []
           (log (Lock mtx_send) (log (Lock mtx_read) w))))))).
Proof.
  cbv zeta. split; [repeat split; discriminate |].
  apply (Ether_new_connects 0 0 "192.168.0.10" 502 [LF] timeout1
           (set_w_open [OpenOk 3] tty0) 3 []);
    [discriminate | discriminate | reflexivity | reflexivity].
Defined.

(** * Transfers *)

(** ** A channel that is not connected *)

Lemma read__not_connected (t : transport) (size : Z) (c : Comm) (w : World) :
  is_open_ c && is_connected_ c = false ->
  read_ t size (c, w) = (Throw (not_connected t "read"), (c, w)).
Proof. intros G. unfold read_, bind, this. simpl. rewrite G. reflexivity. Qed.

Lemma send__not_connected (t : transport) (data : bytes) (size : Z) (c : Comm) (w : World) :
  is_open_ c && is_connected_ c = false ->
  send_ t data size (c, w) = (Throw (not_connected t "send"), (c, w)).
Proof.
  intros G. destruct t; unfold send_, Serial_send_, Ether_send_, bind, this; simpl;
    rewrite G; reflexivity.
Qed.

(** Once their scratch buffer is taken, the overloads of [read] that
    allocate, [readline] and [readlines] meet the same test. *)
Lemma framers_need_connection (t : transport) (c : Comm) (w : World) :
  is_open_ c && is_connected_ c = false ->
  (forall buffer size,
     read_into t buffer size (c, w)
     = (Throw (not_connected t "read"), (c, locked mtx_read w))) /\
  (forall buffer size, 0 < size ->
     readline_into t buffer size (c, w)
     = (Throw (not_connected t "read"), (c, locked mtx_read w))) /\
  (forall size, 0 < size ->
     readlines t size (c, w)
     = (Throw (not_connected t "read"), (c, locked mtx_read w))).
Proof.
  intros G. repeat split.
  - intros buffer size. unfold read_into.
    rewrite (lock_guard_returns _ _ _ (c, log (Lock mtx_read) w)
               (Throw (not_connected t "read"))); [reflexivity | | discriminate].
    apply bind_throws. apply read__not_connected, G.
  - intros buffer size Hsize. unfold readline_into.
    rewrite (lock_guard_returns _ _ _ (c, log (Lock mtx_read) w)
               (Throw (not_connected t "read"))); [reflexivity | | discriminate].
    apply bind_throws.
    destruct (Z.to_nat size) as [| fuel] eqn:F; [lia |]. simpl.
    destruct (Z.ltb_spec 0 size); [| lia]. simpl.
    unfold bind at 1, this. simpl. apply bind_throws.
    apply read__not_connected, G.
  - intros size Hsize. unfold readlines.
    rewrite (lock_guard_returns _ _ _ (c, log (Lock mtx_read) w)
               (Throw (not_connected t "read"))); [reflexivity | | discriminate].
    apply bind_throws.
    destruct (Z.to_nat size) as [| fuel] eqn:F; [lia |]. simpl.
    destruct (Z.ltb_spec 0 size); [| lia]. simpl.
    unfold bind at 1, this. simpl. apply bind_throws.
    apply read__not_connected, G.
Qed.

(** X12. On a channel that is not both open and connected no transfer is
    made.  [read] into an array of the caller and [send] throw
    [ConnectionException] before any call on the descriptor, the clock or
    [select]: the object is unchanged, and of the operating system that the
    model records only the mutex was taken and released (a serial port has
    by then printed a line on standard output, which the model does not
    record).  The overloads of [read] that allocate, and [readline] and
    [readlines] with a size above zero, which take their scratch buffer
    first, never return a value. *)
Theorem transfers_need_connection (t : transport) (c : Comm) (w : World) :
  is_open_ c && is_connected_ c = false ->
  (forall size,
     read_array t size (c, w)
     = (Throw (not_connected t "read"), (c, locked mtx_read w))) /\
  (forall data,
     send_bytes t data (c, w)
     = (Throw (not_connected t "send"), (c, locked mtx_send w))) /\
  (forall buffer size r, fst (read_into t buffer size (c, w)) <> Ret r) /\
  (forall buffer size r, 0 < size -> fst (readline_into t buffer size (c, w)) <> Ret r) /\
  (forall size r, 0 < size -> fst (readlines t size (c, w)) <> Ret r).
Proof.
  intros G. destruct (framers_need_connection t c w G) as (F1 & F2 & F3).
  split; [| split; [| split; [| split]]].
  - intros size. unfold read_array.
    rewrite (lock_guard_returns _ _ _ (c, log (Lock mtx_read) w)
               (Throw (not_connected t "read"))); [reflexivity | | discriminate].
    apply read__not_connected, G.
  - intros data. unfold send_bytes.
    rewrite (lock_guard_returns _ _ _ (c, log (Lock mtx_send) w)
               (Throw (not_connected t "send"))); [reflexivity | | discriminate].
    apply send__not_connected, G.
  - intros buffer size r. rewrite F1. discriminate.
  - intros buffer size r Hsize. rewrite F2 by exact Hsize. discriminate.
  - intros size r Hsize. rewrite F3 by exact Hsize. discriminate.
Qed.

Lemma transfers_need_connection_witness :
  let c := set_is_connected_ false port3 in
  is_open_ c && is_connected_ c = false /\
  read_array Serial 80 (c, tty0)
  = (Throw (not_connected Serial "read"), (c, locked mtx_read tty0)).
Proof.
  cbv zeta. split; [reflexivity |].
  apply (proj1 (transfers_need_connection Serial
                  (set_is_connected_ false port3) tty0 eq_refl)).
Defined.

(** ** Reading *)

(** X13. The bytes [read] appends to the caller's buffer are the next bytes
    of the incoming stream, in the order they arrived, as many as the count
    returned: what was in the buffer stays, nothing is dropped, repeated or
    reordered, and what was not delivered is still to come.  Of the object
    the call changes at most [timeout_.conn], which the [select] of a wait
    may rewrite with the time left. *)
Theorem read_delivers_the_stream (t : transport) (c : Comm) (w : World)
    (buffer : bytes) (size n : Z) (buffer' : bytes) (st' : State) :
  0 < size < 2 ^ 64 ->
  read_into t buffer size (c, w) = (Ret (n, buffer'), st') ->
  exists data,
    buffer' = buffer ++ data /\
    Z.of_nat (List.length data) = n /\
    rx_stream w = data ++ rx_stream (snd st') /\
    same_but_conn c (fst st').
Proof.
  intros Hsize H. unfold read_into in H.
  apply lock_guard_inv in H; [| discriminate]. destruct H as (st1 & H & ->).
  apply bind_inv in H. destruct H as ([n0 data] & st2 & R & H).
  unfold ret in H. inversion H. subst. clear H.
  pose proof (read__stream _ _ _ _ _ _ R) as S.
  apply read__ret_bound in R; [| exact Hsize]. destruct R as (Hn & Hlen & Hthis).
  exists data. simpl in *. repeat split; try assumption.
  rewrite firstn_all2 by lia. reflexivity.
Qed.

Lemma read_delivers_the_stream_witness :
  let w := set_w_select [SelLeft (mk_timeval 0 900000) (SelReady true)]
                        (feed [B "AB"; B "CD"]) in
  let st' := snd (read_into Serial (B "x") 3 (port3, w)) in
  (0 < 3 < 2 ^ 64 /\
   read_into Serial (B "x") 3 (port3, w) = (Ret (3, B "xABC"), st')) /\
  conn (timeout_ (fst st')) = mk_timeval 0 900000 /\
  exists data,
    B "xABC" = B "x" ++ data /\
    Z.of_nat (List.length data) = 3 /\
    rx_stream w = data ++ rx_stream (snd st') /\
    same_but_conn port3 (fst st').
Proof.
  cbv zeta. split; [split; [lia | vm_compute; reflexivity] |].
  split; [vm_compute; reflexivity |].
  apply (read_delivers_the_stream Serial port3
           (set_w_select [SelLeft (mk_timeval 0 900000) (SelReady true)]
                         (feed [B "AB"; B "CD"])) (B "x") 3 3
           (B "xABC")
           (snd (read_into Serial (B "x") 3
                   (port3, set_w_select [SelLeft (mk_timeval 0 900000) (SelReady true)]
                                        (feed [B "AB"; B "CD"])))));
    [lia | vm_compute; reflexivity].
Defined.

(** X14. When the bytes asked for are already waiting, [read_] returns all
    of them from its first call to [::read]: it reads the clock once, never
    waits in [select], and leaves the bytes beyond the size for the next
    read. *)
Theorem read_returns_waiting_bytes (t : transport) (c : Comm) (w : World) (size : Z)
    (bs : bytes) (rx : list rx_outcome) (now : timespec) (clk : list timespec) :
  is_open_ c = true ->
  is_connected_ c = true ->
  0 <= size <= Z.of_nat (List.length bs) ->
  w_rx w = RxData bs :: rx ->
  w_clock w = now :: clk ->
  read_ t size (c, w)
  = (Ret (size, firstn (Z.to_nat size) bs),
     (c, set_w_clock clk
           (set_w_rx (match skipn (Z.to_nat size) bs with
                      | [] => rx
                      | _ => RxData (skipn (Z.to_nat size) bs) :: rx
                      end) w))).
Proof.
  intros Ho Hc Hsize Hrx Hclk.
  unfold read_, bind at 1, this. simpl. rewrite Ho, Hc. simpl.
  unfold bind at 1, sys_read. simpl. rewrite Hrx. simpl.
  unfold bind at 1, clock_gettime. simpl. rewrite Hclk.
  rewrite length_firstn, Nat.min_l by lia. rewrite Z2Nat.id by lia.
  assert (E : (if size >? 0 then size else 0) = size).
  { destruct (Z.gtb_spec size 0); lia. }
  rewrite E.
  destruct clk; simpl; rewrite Z.ltb_irrefl; simpl; reflexivity.
Qed.

Lemma read_returns_waiting_bytes_witness :
  let w := feed [B "ABCDE"] in
  (is_open_ socket3 = true /\ is_connected_ socket3 = true /\
   0 <= 3 <= Z.of_nat (List.length (B "ABCDE")) /\
   w_rx w = RxData (B "ABCDE") :: [] /\
   w_clock w = mk_timespec 100 0 :: repeat (mk_timespec 100 0) 15) /\
  read_ Ether 3 (socket3, w)
  = (Ret (3, B "ABC"),
     (socket3, set_w_clock (repeat (mk_timespec 100 0) 15)
                 (set_w_rx [RxData (B "DE")] w))).
Proof.
  cbv zeta. split; [repeat split; (reflexivity || (simpl; lia)) |].
  apply (read_returns_waiting_bytes Ether socket3 (feed [B "ABCDE"]) 3 (B "ABCDE") []
           (mk_timespec 100 0) (repeat (mk_timespec 100 0) 15));
    [reflexivity | reflexivity | simpl; lia | reflexivity | reflexivity].
Defined.

(** ** Sending *)

Lemma firstn_add {A} (a b : nat) (l : list A) :
  firstn (a + b) l = firstn a l ++ firstn b (skipn a l).
Proof.
  revert l. induction a as [| a IH]; intros l; [reflexivity |].
  destruct l as [| x l]; simpl.
  - now rewrite firstn_nil.
  - now rewrite IH.
Qed.

Lemma firstn_its_length {A} (m : nat) (l : list A) :
  firstn (List.length (firstn m l)) l = firstn m l.
Proof.
  rewrite length_firstn.
  destruct (Nat.le_ge_cases m (List.length l)) as [H | H].
  - now rewrite Nat.min_l.
  - rewrite Nat.min_r by exact H. now rewrite !firstn_all2.
Qed.

(** [waitSend_] touches nothing but the outcomes of [select], [errno] and
    [timeout_.conn]. *)
Lemma waitSend__world (st : State) :
  let st1 := snd (waitSend_ st) in
  same_but_conn (fst st) (fst st1) /\ w_sent (snd st1) = w_sent (snd st) /\
  w_tx (snd st1) = w_tx (snd st).
Proof.
  cbv zeta. unfold waitSend_, bind.
  pose proof (sys_select_this st) as Hs.
  destruct (sys_select_world st) as (_ & _ & Htx & _ & _ & _ & _ & Hsent & _).
  destruct (sys_select_returns st) as (r & isset & st1 & E). rewrite E in *.
  unfold errno, ret, throw. simpl in *.
  destruct (r <? 0); [destruct (_ =? EINTR) |
                      destruct ((r >? 0) && negb isset)%bool]; simpl; auto.
Qed.

(** What [::write] does: it fails and writes nothing, or it writes a
    prefix of the buffer, no longer than the count asked for. *)
Lemma sys_write_returns (buf : bytes) (count : Z) (st : State) :
  exists n st1,
    sys_write buf count st = (Ret n, st1) /\ fst st1 = fst st /\
    ((n = -1 /\ w_sent (snd st1) = w_sent (snd st)) \/
     (0 <= n <= Z.of_nat (List.length buf) /\ (0 <= count -> n <= count) /\
      w_sent (snd st1) = w_sent (snd st) ++ firstn (Z.to_nat n) buf)).
Proof.
  destruct st as [c w]. unfold sys_write. simpl.
  destruct (w_tx w) as [| [room | e] tx]; simpl.
  - eexists _, _. split; [reflexivity |]. auto.
  - eexists _, _. split; [reflexivity |]. split; [reflexivity |]. right.
    rewrite Nat2Z.id, firstn_its_length, length_firstn. repeat split; lia.
  - eexists _, _. split; [reflexivity |]. auto.
Qed.

Section Send.

Variables (data : bytes) (size : Z) (timeout : timespec).
Hypothesis Hsize : size = Z.of_nat (List.length data).
Hypothesis Hbig : size < 2 ^ 64 - 1.

Lemma sent_so_far (sent : bytes) (bytes_sent n1 n : Z) (rest : bytes) :
  0 <= bytes_sent -> 0 <= n1 -> bytes_sent + n1 <= n ->
  rest = (sent ++ firstn (Z.to_nat n1) (skipn (Z.to_nat bytes_sent) data))
           ++ firstn (Z.to_nat (n - (bytes_sent + n1)))
                     (skipn (Z.to_nat (bytes_sent + n1)) data) ->
  rest = sent ++ firstn (Z.to_nat (n - bytes_sent)) (skipn (Z.to_nat bytes_sent) data).
Proof.
  intros H0 H1 H2 ->. rewrite <- app_assoc. f_equal.
  replace (Z.to_nat (n - bytes_sent))
    with (Z.to_nat n1 + Z.to_nat (n - (bytes_sent + n1)))%nat by lia.
  rewrite firstn_add. f_equal. f_equal.
  rewrite skipn_skipn. f_equal. lia.
Qed.

(** The loop of [Ether::send_] extends what was written by the bytes it
    counts, taken from the buffer at the offset it had reached. *)
Lemma Ether_send_loop_prefix clk :
  forall bytes_sent st n st',
    0 <= bytes_sent <= size ->
    Ether_send_loop size timeout data clk bytes_sent st = (Ret n, st') ->
    bytes_sent <= n <= size /\ same_but_conn (fst st) (fst st') /\
    w_sent (snd st')
    = w_sent (snd st)
        ++ firstn (Z.to_nat (n - bytes_sent)) (skipn (Z.to_nat bytes_sent) data).
Proof.
  assert (Hdone : forall bytes_sent (st : State),
            0 <= bytes_sent <= size ->
            bytes_sent <= bytes_sent <= size /\ same_but_conn (fst st) (fst st) /\
            w_sent (snd st)
            = w_sent (snd st)
                ++ firstn (Z.to_nat (bytes_sent - bytes_sent))
                          (skipn (Z.to_nat bytes_sent) data)).
  { intros b s Hb. rewrite Z.sub_diag. simpl. rewrite app_nil_r.
    split; [lia |]. split; [apply same_but_conn_refl | reflexivity]. }
  induction clk as [| now clk IH]; intros bytes_sent st n st' Hb; simpl.
  - destruct (bytes_sent <? size); simpl; [discriminate |].
    intros H. inversion H. subst. now apply Hdone.
  - destruct (Z.ltb_spec bytes_sent size) as [Hlt | Hge]; simpl.
    2:{ intros H. inversion H. subst. now apply Hdone. }
    destruct (expired timeout now).
    { intros H. inversion H. subst. simpl. now apply Hdone. }
    unfold bind at 1.
    pose proof (waitSend__world (fst st, set_w_clock clk (snd st))) as W.
    cbv zeta in W. simpl in W.
    destruct (waitSend_ (fst st, set_w_clock clk (snd st))) as [[r | e |] st1];
      try discriminate.
    simpl in W. destruct W as (W1 & W2 & _).
    destruct (r <? 1).
    { intros H. apply IH in H; [| exact Hb]. destruct H as (H1 & H2 & H3).
      split; [exact H1 |]. split; [eapply same_but_conn_trans; eassumption |].
      rewrite H3, W2. reflexivity. }
    unfold bind at 1.
    destruct (sys_write_returns (skipn (Z.to_nat bytes_sent) data)
                (wrap64 (size - bytes_sent)) st1) as (n1 & st2 & E & S1 & S2).
    rewrite E. unfold bind at 1, errno. simpl.
    rewrite wrap64_small in S2 by lia.
    rewrite length_skipn in S2.
    destruct ((n1 =? -1) && (w_errno (snd st2) =? EINTR)) eqn:I.
    { apply andb_true_iff in I. destruct I as [I _]. apply Z.eqb_eq in I.
      destruct S2 as [[_ S2] | [S2 _]]; [| lia].
      intros H. apply IH in H; [| exact Hb]. destruct H as (H1 & H2 & H3).
      rewrite S1 in H2.
      split; [exact H1 |]. split; [eapply same_but_conn_trans; eassumption |].
      rewrite H3, S2, W2. reflexivity. }
    destruct (Z.ltb_spec n1 1) as [| Hn1]; [discriminate |].
    destruct S2 as [[S2 _] | (S2 & S3 & S4)]; [lia |].
    rewrite wrap64_small by lia.
    intros H. apply IH in H; [| lia]. destruct H as (H1 & H2 & H3).
    rewrite S1 in H2.
    split; [lia |]. split; [eapply same_but_conn_trans; eassumption |].
    apply (sent_so_far _ bytes_sent n1 n); try lia.
    rewrite H3, S4, W2. reflexivity.
Qed.

(** The same for [Serial::send_], as long as no [::write] fails for another
    reason than a signal while the loop runs. *)
Lemma Serial_send_loop_prefix clk :
  forall bytes_sent st n st',
    0 <= bytes_sent <= size ->
    tx_interrupted_only (w_tx (snd st)) ->
    (List.length clk <= List.length (w_tx (snd st)))%nat ->
    Serial_send_loop size timeout data clk bytes_sent st = (Ret n, st') ->
    bytes_sent <= n <= size /\ same_but_conn (fst st) (fst st') /\
    w_sent (snd st')
    = w_sent (snd st)
        ++ firstn (Z.to_nat (n - bytes_sent)) (skipn (Z.to_nat bytes_sent) data).
Proof.
  assert (Hdone : forall bytes_sent (st : State),
            0 <= bytes_sent <= size ->
            bytes_sent <= bytes_sent <= size /\ same_but_conn (fst st) (fst st) /\
            w_sent (snd st)
            = w_sent (snd st)
                ++ firstn (Z.to_nat (bytes_sent - bytes_sent))
                          (skipn (Z.to_nat bytes_sent) data)).
  { intros b s Hb. rewrite Z.sub_diag. simpl. rewrite app_nil_r.
    split; [lia |]. split; [apply same_but_conn_refl | reflexivity]. }
  induction clk as [| now clk IH]; intros bytes_sent st n st' Hb Htx Hlen; simpl.
  - destruct (bytes_sent <? size); simpl; [discriminate |].
    intros H. inversion H. subst. now apply Hdone.
  - destruct (Z.ltb_spec bytes_sent size) as [Hlt | Hge]; simpl.
    2:{ intros H. inversion H. subst. now apply Hdone. }
    destruct (expired timeout now).
    { intros H. inversion H. subst. simpl. now apply Hdone. }
    unfold bind at 1.
    pose proof (waitSend__world (fst st, set_w_clock clk (snd st))) as W.
    cbv zeta in W. simpl in W.
    destruct (waitSend_ (fst st, set_w_clock clk (snd st))) as [[r | e |] [c1 w1]];
      try discriminate.
    simpl in W. destruct W as (W1 & W2 & W3).
    simpl in Hlen.
    destruct (r <? 1).
    { intros H. apply IH in H; simpl; try assumption.
      - simpl in H. destruct H as (H1 & H2 & H3).
        split; [exact H1 |]. split; [eapply same_but_conn_trans; eassumption |].
        rewrite H3, W2. reflexivity.
      - rewrite W3. exact Htx.
      - rewrite W3. lia. }
    unfold bind at 1, sys_write. simpl. rewrite W3.
    destruct (w_tx (snd st)) as [| [room | e] tx] eqn:Etx; simpl in Hlen; [lia | |].
    + (* room for some bytes *)
      pose proof (Forall_inv_tail Htx) as Htx'.
      set (put := firstn (Nat.min room (Z.to_nat (wrap64 (size - bytes_sent))))
                         (skipn (Z.to_nat bytes_sent) data)).
      assert (Hput : Z.of_nat (List.length put) <= size - bytes_sent).
      { unfold put. rewrite length_firstn, length_skipn. lia. }
      assert (Hput' : put = firstn (Z.to_nat (Z.of_nat (List.length put)))
                                   (skipn (Z.to_nat bytes_sent) data)).
      { unfold put. rewrite Nat2Z.id, firstn_its_length. reflexivity. }
      unfold bind at 1, errno. simpl.
      rewrite (wrap64_small (Z.of_nat (List.length put))) by lia.
      replace (Z.of_nat (List.length put) =? wrap64 (-1)) with false
        by (symmetry; apply Z.eqb_neq;
            change (wrap64 (-1)) with 18446744073709551615; lia).
      simpl.
      destruct (Z.ltb_spec (Z.of_nat (List.length put)) 1) as [| Hn1]; [discriminate |].
      rewrite wrap64_small by lia.
      intros H. apply IH in H; simpl; try assumption; try lia.
      simpl in H. destruct H as (H1 & H2 & H3).
      split; [lia |]. split; [eapply same_but_conn_trans; eassumption |].
      apply (sent_so_far _ bytes_sent (Z.of_nat (List.length put)) n); try lia.
      rewrite H3, W2, <- Hput'. reflexivity.
    + (* interrupted *)
      pose proof (Forall_inv Htx) as He. pose proof (Forall_inv_tail Htx) as Htx'.
      simpl in He. rewrite He.
      unfold bind at 1, errno. simpl.
      intros H. apply IH in H; simpl; try assumption; try lia.
      simpl in H. destruct H as (H1 & H2 & H3).
      split; [exact H1 |]. split; [eapply same_but_conn_trans; eassumption |].
      rewrite H3, W2. reflexivity.
Qed.

End Send.

(** X15. What [send] reports on a socket is what was written: the count
    returned is at most the length of the data, and the bytes handed to the
    operating system by the call are the first that many bytes of the data,
    in order, whatever interruptions, partial writes and waits there were.
    Of the object the call changes at most [timeout_.conn], which the
    [select] of each wait may rewrite with the time left. *)
Theorem Ether_send_writes_a_prefix (c : Comm) (w : World) (data : bytes) (n : Z)
    (st' : State) :
  Z.of_nat (List.length data) < 2 ^ 64 - 1 ->
  send_bytes Ether data (c, w) = (Ret n, st') ->
  0 <= n <= Z.of_nat (List.length data) /\
  w_sent (snd st') = w_sent w ++ firstn (Z.to_nat n) data /\
  same_but_conn c (fst st').
Proof.
  intros Hbig H. unfold send_bytes in H.
  apply lock_guard_inv in H; [| discriminate]. destruct H as (st1 & H & ->).
  simpl in *. unfold Ether_send_, bind at 1, this in H. simpl in H.
  destruct (negb (is_open_ c && is_connected_ c)); [discriminate |].
  unfold bind at 1 in H.
  destruct (sys_write_returns data (Z.of_nat (List.length data))
              (c, log (Lock mtx_send) w)) as (n0 & st2 & E & S1 & S2).
  rewrite E in H. unfold bind at 1, clock_gettime in H.
  destruct (w_clock (snd st2)) as [| now clk]; [discriminate |].
  apply Ether_send_loop_prefix in H; try reflexivity; try assumption.
  - simpl in H. destruct H as (H1 & H2 & H3).
    assert (H0 : 0 <= (if n0 >? 0 then n0 else 0)
                 /\ w_sent (snd st2)
                    = w_sent w ++ firstn (Z.to_nat (if n0 >? 0 then n0 else 0)) data).
    { destruct S2 as [[-> S2] | (S2 & _ & S3)]; simpl in *.
      - rewrite S2, app_nil_r. split; [lia | reflexivity].
      - destruct (Z.gtb_spec n0 0); [split; [lia | exact S3] |].
        replace n0 with 0 in S3 by lia. exact (conj (Z.le_refl 0) S3). }
    destruct H0 as [H0 H4]. split; [lia |].
    split; [| simpl in *; rewrite S1 in H2; exact H2].
    rewrite H3, H4, <- app_assoc. f_equal.
    replace (Z.to_nat n)
      with (Z.to_nat (if n0 >? 0 then n0 else 0)
            + Z.to_nat (n - (if n0 >? 0 then n0 else 0)))%nat by lia.
    apply eq_sym, firstn_add.
  - destruct S2 as [[-> _] | (S2 & S3 & _)]; simpl; [lia |].
    destruct (Z.gtb_spec n0 0); lia.
Qed.

Lemma Ether_send_writes_a_prefix_witness :
  let w := mk_World (repeat (mk_timespec 100 0) 4 ++ [mk_timespec 102 0]) []
                    [TxRoom 2; TxErr EINTR; TxRoom 1]
                    [SelLeft (mk_timeval 0 800000) (SelReady true);
                     SelLeft (mk_timeval 0 0) SelTimeout;
                     SelLeft (mk_timeval 0 0) (SelReady true)] [] [] []
                    (fun _ => false) 0 [] [] in
  (Z.of_nat (List.length (B "ABCDE")) < 2 ^ 64 - 1 /\
   fst (send_bytes Ether (B "ABCDE") (socket3, w)) = Ret 3) /\
  conn (timeout_ (fst (snd (send_bytes Ether (B "ABCDE") (socket3, w))))) = mk_timeval 0 0 /\
  0 <= 3 <= Z.of_nat (List.length (B "ABCDE")) /\
  w_sent (snd (snd (send_bytes Ether (B "ABCDE") (socket3, w))))
  = w_sent w ++ firstn (Z.to_nat 3) (B "ABCDE") /\
  same_but_conn socket3 (fst (snd (send_bytes Ether (B "ABCDE") (socket3, w)))).
Proof.
  cbv zeta. split; [split; [simpl; lia | vm_compute; reflexivity] |].
  split; [vm_compute; reflexivity |].
  apply (Ether_send_writes_a_prefix socket3
           (mk_World (repeat (mk_timespec 100 0) 4 ++ [mk_timespec 102 0]) []
                     [TxRoom 2; TxErr EINTR; TxRoom 1]
                     [SelLeft (mk_timeval 0 800000) (SelReady true);
                      SelLeft (mk_timeval 0 0) SelTimeout;
                      SelLeft (mk_timeval 0 0) (SelReady true)] [] [] []
                     (fun _ => false) 0 [] []) (B "ABCDE") 3);
    [simpl; lia | vm_compute; reflexivity].
Defined.

(** X16. On a serial port [send] reports what was written as long as no
    [::write] fails for another reason than a signal: the count returned is
    at most the length of the data, and the bytes handed to the operating
    system are the first that many bytes of the data, in order.  Of the
    object the call changes at most [timeout_.conn], which the [select] of
    each wait may rewrite with the time left. *)
Theorem Serial_send_writes_a_prefix (c : Comm) (w : World) (data : bytes) (n : Z)
    (st' : State) :
  Z.of_nat (List.length data) < 2 ^ 64 - 1 ->
  tx_interrupted_only (w_tx w) ->
  (List.length (w_clock w) <= List.length (w_tx w))%nat ->
  send_bytes Serial data (c, w) = (Ret n, st') ->
  0 <= n <= Z.of_nat (List.length data) /\
  w_sent (snd st') = w_sent w ++ firstn (Z.to_nat n) data /\
  same_but_conn c (fst st').
Proof.
  intros Hbig Htx Hlen H. unfold send_bytes in H.
  apply lock_guard_inv in H; [| discriminate]. destruct H as (st1 & H & ->).
  simpl in *. unfold Serial_send_, bind at 1, this in H. simpl in H.
  destruct (negb (is_open_ c && is_connected_ c)); [discriminate |].
  unfold bind at 1, clock_gettime in H. simpl in H.
  destruct (w_clock w) as [| now clk]; [discriminate |]. simpl in H, Hlen.
  apply Serial_send_loop_prefix in H; try reflexivity; try assumption; simpl; try lia.
  simpl in H. destruct H as (H1 & H2 & H3).
  split; [lia |]. split; [| exact H2].
  rewrite H3, Z.sub_0_r. reflexivity.
Qed.

Lemma Serial_send_writes_a_prefix_witness :
  let w := mk_World (repeat (mk_timespec 100 0) 3) []
                    [TxErr EINTR; TxRoom 9; TxRoom 9]
                    [SelLeft (mk_timeval 0 900000) (SelReady true);
                     SelLeft (mk_timeval 0 700000) (SelReady true)] [] [] []
                    (fun _ => false) 0 [] [] in
  (Z.of_nat (List.length (B "ABCDE")) < 2 ^ 64 - 1 /\
   tx_interrupted_only (w_tx w) /\
   (List.length (w_clock w) <= List.length (w_tx w))%nat /\
   fst (send_bytes Serial (B "ABCDE") (port3, w)) = Ret 5) /\
  conn (timeout_ (fst (snd (send_bytes Serial (B "ABCDE") (port3, w)))))
  = mk_timeval 0 700000 /\
  0 <= 5 <= Z.of_nat (List.length (B "ABCDE")) /\
  w_sent (snd (snd (send_bytes Serial (B "ABCDE") (port3, w))))
  = w_sent w ++ firstn (Z.to_nat 5) (B "ABCDE") /\
  same_but_conn port3 (fst (snd (send_bytes Serial (B "ABCDE") (port3, w)))).
Proof.
  cbv zeta.
  assert (Htx : tx_interrupted_only [TxErr EINTR; TxRoom 9; TxRoom 9]).
  { repeat constructor. }
  split.
  { split; [simpl; lia |]. split; [exact Htx |].
    split; [simpl; lia | vm_compute; reflexivity]. }
  split; [vm_compute; reflexivity |].
  apply (Serial_send_writes_a_prefix port3
           (mk_World (repeat (mk_timespec 100 0) 3) []
                     [TxErr EINTR; TxRoom 9; TxRoom 9]
                     [SelLeft (mk_timeval 0 900000) (SelReady true);
                      SelLeft (mk_timeval 0 700000) (SelReady true)] [] [] []
                     (fun _ => false) 0 [] []) (B "ABCDE") 5);
    [simpl; lia | exact Htx | simpl; lia | vm_compute; reflexivity].
Defined.

(** ** Waiting *)

(** What [select] can report: one descriptor ready, none, or a failure with
    its [errno]. *)
Lemma select_value_cases (o : select_outcome) :
  (exists isset, select_value o = (1, isset) /\ select_errno o = None) \/
  (select_value o = (0, false) /\ select_errno o = None) \/
  (exists e, select_value o = (-1, false) /\ select_errno o = Some e).
Proof.
  induction o as [isset | | e | tv o IH]; simpl; eauto.
Qed.


(** * The setters *)

(** X18. [setTimeout] on a serial port does not keep the per-byte timeout
    it is given: when it returns, the read, send and connect timeouts are
    the ones passed and the per-byte timeout is the byte time of the baud
    rate and the settings of the object.  On a socket the four are stored
    as passed. *)
Theorem setTimeout_stores (t : transport) (c : Comm) (w : World) (timeout : Timeout)
    (st' : State) :
  setTimeout t timeout (c, w) = (Ret tt, st') ->
  match t with
  | Serial =>
      exists tv,
        to_timeval (get_bytetime (baudrate_ c) (settings_ c)) = Ok tv /\
        fst st' = set_timeout_ (mk_Timeout (read timeout) (send timeout) tv
                                           (conn timeout)) c
  | Ether => fst st' = set_timeout_ timeout c
  end.
Proof.
  intros H. unfold setTimeout in H.
  apply both_locks_inv in H; [| discriminate]. destruct H as (st1 & H & ->).
  unfold bind at 1, update in H. simpl in H.
  destruct t; simpl in *.
  - destruct (w_isatty w (fd_ c)) eqn:Htty.
    + rewrite Serial_setOptions__terminal in H by exact Htty. simpl in H.
      destruct (to_timeval (get_bytetime (baudrate_ c) (settings_ c))) as [tv | e];
        [| discriminate].
      exists tv. split; [reflexivity |]. inversion H. reflexivity.
    + rewrite Serial_setOptions__no_terminal in H by exact Htty. discriminate.
  - pose proof (Ether_setOptions__keeps
                  (set_timeout_ timeout c, log (Lock mtx_send) (log (Lock mtx_read) w)))
      as K.
    rewrite H in K. simpl in K. symmetry. exact K.
Qed.

Lemma setTimeout_stores_witness :
  let timeout := mk_Timeout (mk_timeval 2 0) (mk_timeval 3 0) (mk_timeval 9 0)
                            (mk_timeval 4 0) in
  let w := mk_World [] [] [] [] [] [] [] (fun fd => fd =? 3) 0 [] [] in
  fst (setTimeout Serial timeout (port3, w)) = Ret tt /\
  exists tv,
    to_timeval (get_bytetime (baudrate_ port3) (settings_ port3)) = Ok tv /\
    fst (snd (setTimeout Serial timeout (port3, w)))
    = set_timeout_ (mk_Timeout (read timeout) (send timeout) tv (conn timeout)) port3.
Proof.
  cbv zeta. split; [vm_compute; reflexivity |].
  apply (setTimeout_stores Serial port3
           (mk_World [] [] [] [] [] [] [] (fun fd => fd =? 3) 0 [] [])
           (mk_Timeout (mk_timeval 2 0) (mk_timeval 3 0) (mk_timeval 9 0) (mk_timeval 4 0))
           (snd (setTimeout Serial
                   (mk_Timeout (mk_timeval 2 0) (mk_timeval 3 0) (mk_timeval 9 0)
                               (mk_timeval 4 0))
                   (port3, mk_World [] [] [] [] [] [] [] (fun fd => fd =? 3) 0 [] [])))).
  vm_compute. reflexivity.
Defined.

(** X19. [setSettings] on a serial port, when it returns, has stored the
    settings, applied them to the descriptor with the baud rate of the
    object, and replaced the per-byte timeout by the byte time of that baud
    rate and the new settings; the other three timeouts stay. *)
Theorem setSettings_applies (c : Comm) (w : World) (settings : Settings) (st' : State) :
  setSettings Serial settings (c, w) = (Ret tt, st') ->
  exists tv,
    to_timeval (get_bytetime (baudrate_ c) settings) = Ok tv /\
    fst st' = set_timeout_ (mk_Timeout (read (timeout_ c)) (send (timeout_ c)) tv
                                       (conn (timeout_ c)))
                           (set_settings_ settings c) /\
    w_trace (snd st')
    = w_trace w ++ [Lock mtx_read; Lock mtx_send;
                    SysTcsetattr (fd_ c) (baudrate_ c) settings;
                    Unlock mtx_send; Unlock mtx_read].
Proof.
  intros H. unfold setSettings in H.
  apply both_locks_inv in H; [| discriminate]. destruct H as (st1 & H & ->).
  unfold bind at 1, update in H. simpl in H.
  destruct (w_isatty w (fd_ c)) eqn:Htty.
  - rewrite Serial_setOptions__terminal in H by exact Htty. simpl in H.
    destruct (to_timeval (get_bytetime (baudrate_ c) settings)) as [tv | e];
      [| discriminate].
    exists tv. split; [reflexivity |]. inversion H. simpl.
    split; [reflexivity |]. rewrite <- !app_assoc. reflexivity.
  - rewrite Serial_setOptions__no_terminal in H by exact Htty. discriminate.
Qed.

Lemma setSettings_applies_witness :
  let settings := mk_Settings SEVEN ODD TWO NOFLOW in
  let w := mk_World [] [] [] [] [] [] [] (fun fd => fd =? 3) 0 [] [] in
  fst (setSettings Serial settings (port3, w)) = Ret tt /\
  exists tv,
    to_timeval (get_bytetime (baudrate_ port3) settings) = Ok tv /\
    fst (snd (setSettings Serial settings (port3, w)))
    = set_timeout_ (mk_Timeout (read (timeout_ port3)) (send (timeout_ port3)) tv
                               (conn (timeout_ port3)))
                   (set_settings_ settings port3) /\
    w_trace (snd (snd (setSettings Serial settings (port3, w))))
    = w_trace w ++ [Lock mtx_read; Lock mtx_send;
                    SysTcsetattr (fd_ port3) (baudrate_ port3) settings;
                    Unlock mtx_send; Unlock mtx_read].
Proof.
  cbv zeta. split; [vm_compute; reflexivity |].
  apply (setSettings_applies port3
           (mk_World [] [] [] [] [] [] [] (fun fd => fd =? 3) 0 [] [])
           (mk_Settings SEVEN ODD TWO NOFLOW)
           (snd (setSettings Serial (mk_Settings SEVEN ODD TWO NOFLOW)
                   (port3, mk_World [] [] [] [] [] [] [] (fun fd => fd =? 3) 0 [] [])))).
  vm_compute. reflexivity.
Defined.

(** X20. A setter that fails does not take its value back.  On a serial
    port whose descriptor is no terminal, a closed one for instance,
    [setSettings] and [setTimeout] throw the [IOException] of
    [setOptions_], and the object holds the new settings, the new timeout,
    all the same. *)
Theorem failed_setter_keeps_value (c : Comm) (w : World) :
  w_isatty w (fd_ c) = false ->
  (forall settings,
     fst (setSettings Serial settings (c, w)) = Throw (tcgetattr_failed (fd_ c)) /\
     fst (snd (setSettings Serial settings (c, w))) = set_settings_ settings c) /\
  (forall timeout,
     fst (setTimeout Serial timeout (c, w)) = Throw (tcgetattr_failed (fd_ c)) /\
     fst (snd (setTimeout Serial timeout (c, w))) = set_timeout_ timeout c).
Proof.
  intros Htty. split.
  - intros settings. unfold setSettings.
    erewrite both_locks_returns;
      [| unfold bind at 1, update; simpl; simpl setOptions_;
         apply (Serial_setOptions__no_terminal (set_settings_ settings c)); exact Htty
       | discriminate].
    split; reflexivity.
  - intros timeout. unfold setTimeout.
    erewrite both_locks_returns;
      [| unfold bind at 1, update; simpl; simpl setOptions_;
         apply (Serial_setOptions__no_terminal (set_timeout_ timeout c)); exact Htty
       | discriminate].
    split; reflexivity.
Qed.

Lemma failed_setter_keeps_value_witness :
  let c := set_fd_ (-1) (set_is_open_ false (set_is_connected_ false port3)) in
  w_isatty tty0 (fd_ c) = false /\
  fst (setSettings Serial (mk_Settings SEVEN ODD TWO NOFLOW) (c, tty0))
  = Throw (tcgetattr_failed (fd_ c)) /\
  fst (snd (setSettings Serial (mk_Settings SEVEN ODD TWO NOFLOW) (c, tty0)))
  = set_settings_ (mk_Settings SEVEN ODD TWO NOFLOW) c.
Proof.
  cbv zeta. split; [reflexivity |].
  apply (proj1 (failed_setter_keeps_value
                  (set_fd_ (-1) (set_is_open_ false (set_is_connected_ false port3)))
                  tty0 eq_refl)).
Defined.

(** X21. On a channel that is not connected, [setAddress], [setPort] and
    [setBaudrate] with a new value store the value and do nothing else:
    the two mutexes are taken and released, nothing is closed or opened. *)
Theorem setters_store_when_disconnected (t : transport) (c : Comm) (w : World) :
  is_connected_ c = false ->
  (forall address, address_ c <> address ->
     setAddress t address (c, w) = (Ret tt, (set_address_ address c, locked_both w))) /\
  (forall port, port_ c <> port ->
     setPort t port (c, w) = (Ret tt, (set_port_ port c, locked_both w))) /\
  (forall baudrate, baudrate_ c <> baudrate ->
     setBaudrate t baudrate (c, w) = (Ret tt, (set_baudrate_ baudrate c, locked_both w))).
Proof.
  intros Hc. repeat split.
  - intros address Hne. unfold setAddress, bind at 1, this. simpl.
    destruct (String.eqb_spec (address_ c) address); [contradiction |].
    unfold bind at 1, update. simpl.
    rewrite (both_locks_returns _ _
               (set_address_ address c, log (Lock mtx_send) (log (Lock mtx_read) w))
               (Ret tt)); [reflexivity | | discriminate].
    unfold bind, this. simpl. rewrite Hc. reflexivity.
  - intros port Hne. unfold setPort, bind at 1, this. simpl.
    destruct (Z.eqb_spec (port_ c) port); [contradiction |].
    unfold bind at 1, update. simpl.
    rewrite (both_locks_returns _ _
               (set_port_ port c, log (Lock mtx_send) (log (Lock mtx_read) w))
               (Ret tt)); [reflexivity | | discriminate].
    unfold bind, this. simpl. rewrite Hc. reflexivity.
  - intros baudrate Hne. unfold setBaudrate, bind at 1, this. simpl.
    destruct (Z.eqb_spec (baudrate_ c) baudrate); [contradiction |].
    unfold bind at 1, update. simpl.
    rewrite (both_locks_returns _ _
               (set_baudrate_ baudrate c, log (Lock mtx_send) (log (Lock mtx_read) w))
               (Ret tt)); [reflexivity | | discriminate].
    unfold bind, this. simpl. rewrite Hc. reflexivity.
Qed.

Lemma setters_store_when_disconnected_witness :
  let c := set_is_connected_ false port3 in
  (is_connected_ c = false /\ baudrate_ c <> 115200) /\
  setBaudrate Serial 115200 (c, tty0)
  = (Ret tt, (set_baudrate_ 115200 c, locked_both tty0)).
Proof.
  cbv zeta. split; [split; [reflexivity | discriminate] |].
  apply (proj2 (proj2 (setters_store_when_disconnected Serial
                         (set_is_connected_ false port3) tty0 eq_refl))).
  discriminate.
Defined.

(** ** The marker and its length *)

Lemma same_eol_refl : forall c, same_eol c c.
Proof. intros c. split; reflexivity. Qed.

Lemma same_eol_trans : forall c1 c2 c3, same_eol c1 c2 -> same_eol c2 c3 -> same_eol c1 c3.
Proof. intros c1 c2 c3 [A1 A2] [B1 B2]. split; congruence. Qed.

Lemma same_eol_conn : forall c tv, same_eol c (set_conn tv c).
Proof. intros c tv. split; reflexivity. Qed.

Lemma same_but_conn_same_eol c c' : same_but_conn c c' -> same_eol c c'.
Proof. intros ->. split; reflexivity. Qed.

#[local] Hint Resolve same_eol_refl same_eol_trans same_eol_conn : frame.

Lemma eq_same_eol c c' : c = c' -> same_eol c c'.
Proof. intros <-. apply same_eol_refl. Qed.

(** Breaks a computation that updates other fields into its calls. *)
Ltac frame_eol :=
  repeat first
    [ solve [eauto with frame]
    | apply respects_bind
    | apply respects_lock_guard
    | apply respects_if
    | apply respects_update; intros ?; split; reflexivity
    | progress intros
    | match goal with
      | |- respects _ (match ?x with _ => _ end) => destruct x
      end ].

Lemma close__eol : respects same_eol close_.
Proof. unfold close_. frame_eol. Qed.

Lemma open_attempts_eol (t : transport) (script : list open_outcome) :
  forall st, same_eol (fst st) (fst (snd (open_attempts t script st))).
Proof.
  induction script as [| o script IH]; intros st; simpl; [apply same_eol_refl |].
  destruct o as [fd | e]; simpl.
  - split; reflexivity.
  - destruct (e =? EINTR).
    + eapply same_eol_trans; [| apply IH]. split; reflexivity.
    + split; reflexivity.
Qed.

Lemma open__eol (t : transport) : respects same_eol (open_ t).
Proof.
  intros st. unfold open_, bind, this. simpl.
  destruct (match t with
            | Serial => is_open_ (fst st) || (address_ (fst st) =? "")%string
            | Ether => is_open_ (fst st)
            end); simpl; [apply same_eol_refl | apply open_attempts_eol].
Qed.

Lemma setOptions__eol (t : transport) : respects same_eol (setOptions_ t).
Proof.
  destruct t; simpl.
  - unfold Serial_setOptions_. frame_eol.
  - eapply respects_weaken; [apply eq_same_eol | apply Ether_setOptions__keeps].
Qed.

Lemma connect__eol (t : transport) : respects same_eol (connect_ t).
Proof.
  pose proof (setOptions__eol Serial) as S. pose proof (setOptions__eol Ether) as E.
  simpl in S, E.
  destruct t; simpl.
  - unfold Serial_connect_. frame_eol.
  - unfold Ether_connect_, set_address, get_options, set_options. frame_eol.
Qed.

Lemma respects_keeps_eol {A} (m : M A) : respects same_eol m -> keeps_eol m.
Proof.
  intros H st I. destruct (H st) as [E L].
  unfold eol_consistent in *. congruence.
Qed.

(** X22. The length [readline] and [readlines] compare with is the length
    of the marker they look for: [eol_len_] equals the length of [eol_] in
    a new object, and every public operation keeps it so, however it
    ends. *)
Theorem eol_length_kept (t : transport) :
  (forall b p fd address eol timeout settings,
     eol_consistent (Comm_new b p fd address eol timeout settings)) /\
  keeps_eol (open t) /\
  keeps_eol close /\
  keeps_eol (flush t) /\
  keeps_eol waitRead /\
  keeps_eol waitSend /\
  (forall buffer size, keeps_eol (read_into t buffer size)) /\
  (forall buffer size, keeps_eol (readline_into t buffer size)) /\
  (forall size, keeps_eol (readlines t size)) /\
  (forall data, keeps_eol (send_bytes t data)) /\
  (forall address, keeps_eol (setAddress t address)) /\
  (forall port, keeps_eol (setPort t port)) /\
  (forall baudrate, keeps_eol (setBaudrate t baudrate)) /\
  (forall eol, keeps_eol (setEOL eol)) /\
  (forall timeout, keeps_eol (setTimeout t timeout)) /\
  (forall settings, keeps_eol (setSettings t settings)).
Proof.
  assert (W : forall A (m : M A), respects same_but_conn m -> respects same_eol m).
  { intros A m. apply respects_weaken. apply same_but_conn_same_eol. }
  pose proof (W _ _ waitRead__keeps). pose proof (W _ _ waitSend__keeps).
  pose proof (fun size => W _ _ (read__keeps t size)).
  pose proof (fun data size => W _ _ (send__keeps t data size)).
  pose proof (fun size fuel b n => W _ _ (readline_loop_keeps t size fuel b n)).
  pose proof (fun size fuel l b n s => W _ _ (readlines_loop_keeps t size fuel l b n s)).
  pose proof close__eol. pose proof (open__eol t). pose proof (connect__eol t).
  pose proof (setOptions__eol t).
  repeat match goal with |- _ /\ _ => split end.
  - intros. reflexivity.
  - apply respects_keeps_eol. unfold open, both_locks. frame_eol.
  - apply respects_keeps_eol. unfold close, both_locks. frame_eol.
  - apply respects_keeps_eol. unfold flush, both_locks, flush_. destruct t; frame_eol.
  - apply respects_keeps_eol. unfold waitRead. frame_eol.
  - apply respects_keeps_eol. unfold waitSend. frame_eol.
  - intros. apply respects_keeps_eol. unfold read_into. frame_eol.
  - intros. apply respects_keeps_eol. unfold readline_into. frame_eol.
  - intros. apply respects_keeps_eol. unfold readlines. frame_eol.
  - intros. apply respects_keeps_eol. unfold send_bytes. frame_eol.
  - intros. apply respects_keeps_eol. unfold setAddress, both_locks. frame_eol.
  - intros. apply respects_keeps_eol. unfold setPort, both_locks. frame_eol.
  - intros. apply respects_keeps_eol. unfold setBaudrate, both_locks. frame_eol.
  - intros eol [c w] _. unfold setEOL, lock_guard, update. simpl. reflexivity.
  - intros. apply respects_keeps_eol. unfold setTimeout, both_locks. frame_eol.
  - intros. apply respects_keeps_eol. unfold setSettings, both_locks. frame_eol.
Qed.

(** * Properties of the line discipline *)

Lemma testbit_wrap32 (z n : Z) :
  0 <= n -> Z.testbit (wrap32 z) n = (n <? 32) && Z.testbit z n.
Proof.
  intros Hn. unfold wrap32.
  destruct (Z.ltb_spec n 32).
  - rewrite Z.mod_pow2_bits_low by lia. reflexivity.
  - rewrite Z.mod_pow2_bits_high by lia. reflexivity.
Qed.

(** ** Updates of a flag word *)

Lemma flag_update_id : flag_update (fun x => x).
Proof. exists (-1), 0. intros x. now rewrite Z.land_m1_r, Z.lor_0_r. Qed.

Lemma flag_update_set (g : Z -> Z) (mask : Z) :
  flag_update g -> flag_update (fun x => tcflag_set (g x) mask).
Proof.
  intros (A & B & H). exists A, (Z.lor B (wrap32 mask)). intros x.
  unfold tcflag_set. now rewrite H, Z.lor_assoc.
Qed.

Lemma flag_update_clear (g : Z -> Z) (mask : Z) :
  flag_update g -> flag_update (fun x => tcflag_clear (g x) mask).
Proof.
  intros (A & B & H).
  exists (Z.land A (wrap32 (Z.lnot mask))), (Z.land B (wrap32 (Z.lnot mask))).
  intros x. unfold tcflag_clear.
  now rewrite H, Z.land_lor_distr_l, Z.land_assoc.
Qed.

Lemma flag_update_idempotent (g : Z -> Z) (x : Z) :
  flag_update g -> g (g x) = g x.
Proof.
  intros (A & B & H). rewrite !H.
  apply Z.bits_inj'. intros n _.
  rewrite !Z.lor_spec, !Z.land_spec, !Z.lor_spec, !Z.land_spec.
  destruct (Z.testbit x n), (Z.testbit A n), (Z.testbit B n); reflexivity.
Qed.

(** What [set_options] does to [c_cflag] and to [c_iflag] are such
    updates, of that word alone. *)
Lemma set_options_c_cflag (h : termios_h) (settings : Settings) :
  exists g, flag_update g /\
    forall option, c_cflag (set_options_termios h option settings) = g (c_cflag option).
Proof.
  destruct settings as [b p s f].
  pose proof flag_update_id as G0.
  apply flag_update_clear with (mask := CSIZE h) in G0.
  apply flag_update_set
    with (mask := match b with
                  | EIGHT => CS8 h | SEVEN => CS7 h | SIX => CS6 h | FIVE => CS5 h
                  end) in G0.
  assert (G1 : exists g, flag_update g /\
                 forall x, g x =
                   match s with
                   | ONE => tcflag_clear
                              (tcflag_set (tcflag_clear x (CSIZE h))
                                 (match b with
                                  | EIGHT => CS8 h | SEVEN => CS7 h
                                  | SIX => CS6 h | FIVE => CS5 h
                                  end)) (CSTOPB h)
                   | _ => tcflag_set
                            (tcflag_set (tcflag_clear x (CSIZE h))
                               (match b with
                                | EIGHT => CS8 h | SEVEN => CS7 h
                                | SIX => CS6 h | FIVE => CS5 h
                                end)) (CSTOPB h)
                   end).
  { destruct s; eexists; (split; [| intros x; reflexivity]);
      first [exact (flag_update_clear _ (CSTOPB h) G0)
            | exact (flag_update_set _ (CSTOPB h) G0)]. }
  destruct G1 as (g1 & G1 & E1).
  assert (G2 : exists g, flag_update g /\
                 forall x, g x =
                   match p with
                   | NOPAR => tcflag_clear (g1 x) (Z.lor (PARENB h) (PARODD h))
                   | EVEN => tcflag_set (tcflag_clear (g1 x) (PARODD h)) (PARENB h)
                   | ODD => tcflag_set (g1 x) (Z.lor (PARENB h) (PARODD h))
                   | MARK =>
                       tcflag_set (g1 x) (Z.lor (Z.lor (PARENB h) (CMSPAR h)) (PARODD h))
                   | SPACE =>
                       tcflag_clear (tcflag_set (g1 x) (Z.lor (PARENB h) (CMSPAR h)))
                                    (PARODD h)
                   end).
  { destruct p; eexists; (split; [| intros x; reflexivity]);
      repeat first [exact G1 | apply flag_update_set | apply flag_update_clear]. }
  destruct G2 as (g2 & G2 & E2).
  exists (fun x => if match f with HARDWARE => true | _ => false end
                   then tcflag_set (g2 x) (CRTSCTS h)
                   else tcflag_clear (g2 x) (CRTSCTS h)).
  split.
  - destruct f; first [exact (flag_update_clear _ _ G2) | exact (flag_update_set _ _ G2)].
  - intros option. rewrite E2.
    unfold set_options_termios. simpl.
    destruct p; rewrite E1; destruct s; reflexivity.
Qed.

Lemma set_options_c_iflag (h : termios_h) (settings : Settings) :
  exists g, flag_update g /\
    forall option, c_iflag (set_options_termios h option settings) = g (c_iflag option).
Proof.
  pose proof flag_update_id as G0.
  apply flag_update_clear with (mask := Z.lor (INPCK h) (ISTRIP h)) in G0.
  exists (fun x =>
            if match flowcontrol settings with SOFTWARE => true | _ => false end
            then tcflag_set (tcflag_clear x (Z.lor (INPCK h) (ISTRIP h)))
                            (Z.lor (IXON h) (IXOFF h))
            else tcflag_clear (tcflag_clear x (Z.lor (INPCK h) (ISTRIP h)))
                              (Z.lor (Z.lor (IXON h) (IXOFF h)) (IXANY h))).
  split.
  - destruct (flowcontrol settings);
      first [exact (flag_update_clear _ _ G0) | exact (flag_update_set _ _ G0)].
  - intros option. reflexivity.
Qed.

Lemma termios_eq (a b : termios) :
  c_iflag a = c_iflag b -> c_oflag a = c_oflag b -> c_cflag a = c_cflag b ->
  c_lflag a = c_lflag b -> c_cc_VMIN a = c_cc_VMIN b -> c_cc_VTIME a = c_cc_VTIME b ->
  a = b.
Proof. destruct a, b. simpl. intros. subst. reflexivity. Qed.

(** X23. Applying the same settings again changes nothing: [set_options]
    is idempotent, whatever the masks of the platform are and whatever the
    flags were.  When [tcgetattr] returns what the last [tcsetattr] stored,
    a second [setSettings] with the same settings, or a [setTimeout], hands
    the same line discipline to the driver. *)
Theorem set_options_idempotent (h : termios_h) (option : termios) (settings : Settings) :
  set_options_termios h (set_options_termios h option settings) settings
  = set_options_termios h option settings.
Proof.
  destruct (set_options_c_cflag h settings) as (gc & Gc & Ec).
  destruct (set_options_c_iflag h settings) as (gi & Gi & Ei).
  apply termios_eq; try reflexivity.
  - rewrite !Ei. now apply flag_update_idempotent.
  - rewrite !Ec. now apply flag_update_idempotent.
Qed.

(** X24. One stop bit and a half is configured as two and timed as one
    and a half: [set_options] hands the driver the same line discipline
    for [HALFONE] as for [TWO], while [get_bytetime] counts half a bit
    less for it. *)
Theorem one_and_a_half_stop_bits (h : termios_h) (option : termios)
    (b : ByteSize) (p : Parity) (f : FlowControl) (baudrate : Z) :
  let two := mk_Settings b p TWO f in
  let halfone := mk_Settings b p HALFONE f in
  set_options_termios h option halfone = set_options_termios h option two /\
  get_bytetime baudrate two
  = div (of_Z_exp (half_bits two) (-1)) (of_Z baudrate) /\
  get_bytetime baudrate halfone
  = div (of_Z_exp (half_bits two - 1) (-1)) (of_Z baudrate).
Proof.
  cbv zeta. split; [reflexivity |].
  rewrite !get_bytetime_bits. split; [reflexivity |].
  destruct b, p; reflexivity.
Qed.

(** ** Stick parity *)

(** Two flag words are equal when their bits are, and the bits of a word
    built by [tcflag_set] and [tcflag_clear] are boolean functions of the
    bits of its parts. *)
Ltac flag_bits :=
  unfold tcflag_set, tcflag_clear;
  repeat first
    [ rewrite Z.lor_spec | rewrite Z.land_spec
    | rewrite testbit_wrap32 by assumption
    | rewrite Z.lnot_spec by assumption ].

Ltac flag_cases n :=
  repeat match goal with
         | |- context [Z.testbit ?a n] => destruct (Z.testbit a n)
         end;
  destruct (n <? 32); reflexivity.

(** The same under three facts about the bits of the masks, which rule
    most cases out before the word is looked at. *)
Ltac flag_cases_under n h size c B1 B2 B3 :=
  destruct (Z.testbit (CMSPAR h) n);
  destruct (Z.testbit (CSIZE h) n); destruct (Z.testbit size n);
  try (simpl in B1, B3; first [discriminate B1 | discriminate B3]);
  destruct (Z.testbit (PARENB h) n); destruct (Z.testbit (PARODD h) n);
  try (simpl in B2, B3; first [discriminate B2 | discriminate B3]);
  destruct (Z.testbit (CSTOPB h) n); try (simpl in B3; discriminate B3);
  destruct (Z.testbit (CRTSCTS h) n); try (simpl in B3; discriminate B3);
  destruct (Z.testbit c n), (n <? 32); reflexivity.

(** X25. [set_options] never clears [CMSPAR].  Once mark or space parity
    has been set, settings with even parity give the flags of space parity
    and settings with odd parity the flags of mark parity: the parity bit
    stays stuck.  ([setOptions_] starts from what [tcgetattr] returns, the
    flags of the last configuration.) *)
Theorem stick_parity_stays (h : termios_h) (option : termios)
    (b : ByteSize) (s : StopBits) (f : FlowControl) (p : Parity) :
  masks_laid_out h ->
  stick_parity p = true ->
  let marked := set_options_termios h option (mk_Settings b p s f) in
  set_options_termios h marked (mk_Settings b EVEN s f)
  = set_options_termios h option (mk_Settings b SPACE s f) /\
  set_options_termios h marked (mk_Settings b ODD s f)
  = set_options_termios h option (mk_Settings b MARK s f).
Proof.
  intros (Hsize & Hparity & Hstick) Hp. cbv zeta.
  set (size := match b with
               | FIVE => CS5 h | SIX => CS6 h | SEVEN => CS7 h | EIGHT => CS8 h
               end).
  assert (Bits : forall n, 0 <= n ->
            (Z.testbit (CSIZE h) n || Z.testbit size n = Z.testbit (CSIZE h) n) /\
            Z.testbit (PARENB h) n && Z.testbit (PARODD h) n = false /\
            Z.testbit (CMSPAR h) n
              && (Z.testbit (CSIZE h) n || Z.testbit (CSTOPB h) n
                  || (Z.testbit (PARENB h) n || Z.testbit (PARODD h) n
                      || Z.testbit (CRTSCTS h) n)) = false).
  { intros n Hn. repeat split.
    - pose proof (f_equal (fun z => Z.testbit z n) Hsize) as E. simpl in E.
      rewrite !Z.lor_spec in E. unfold size.
      destruct b, (Z.testbit (CSIZE h) n), (Z.testbit (CS5 h) n),
        (Z.testbit (CS6 h) n), (Z.testbit (CS7 h) n), (Z.testbit (CS8 h) n);
        simpl in *; congruence.
    - pose proof (f_equal (fun z => Z.testbit z n) Hparity) as E. simpl in E.
      rewrite Z.land_spec, Z.bits_0 in E. exact E.
    - pose proof (f_equal (fun z => Z.testbit z n) Hstick) as E. simpl in E.
      rewrite Z.land_spec, !Z.lor_spec, Z.bits_0 in E. exact E. }
  destruct option as [i o c l vmin vtime].
  split; apply termios_eq; try reflexivity; simpl; fold size.
  - destruct f; apply Z.bits_inj'; intros n Hn; flag_bits; flag_cases n.
  - clearbody size.
    destruct p; try discriminate;
      apply Z.bits_inj'; intros n Hn; destruct (Bits n Hn) as (B1 & B2 & B3);
      destruct s, f; flag_bits; flag_cases_under n h size c B1 B2 B3.
  - destruct f; apply Z.bits_inj'; intros n Hn; flag_bits; flag_cases n.
  - clearbody size.
    destruct p; try discriminate;
      apply Z.bits_inj'; intros n Hn; destruct (Bits n Hn) as (B1 & B2 & B3);
      destruct s, f; flag_bits; flag_cases_under n h size c B1 B2 B3.
Qed.

Lemma stick_parity_stays_witness :
  let option := mk_termios 0 0 0 0 0 0 in
  let marked := set_options_termios Linux_termios_h option
                 (mk_Settings EIGHT MARK ONE NOFLOW) in
  (masks_laid_out Linux_termios_h /\ stick_parity MARK = true) /\
  set_options_termios Linux_termios_h marked (mk_Settings EIGHT EVEN ONE NOFLOW)
  = set_options_termios Linux_termios_h option (mk_Settings EIGHT SPACE ONE NOFLOW) /\
  set_options_termios Linux_termios_h marked (mk_Settings EIGHT ODD ONE NOFLOW)
  = set_options_termios Linux_termios_h option (mk_Settings EIGHT MARK ONE NOFLOW).
Proof.
  cbv zeta.
  assert (L : masks_laid_out Linux_termios_h) by (repeat split; reflexivity).
  split; [split; [exact L | reflexivity] |].
  apply (stick_parity_stays Linux_termios_h (mk_termios 0 0 0 0 0 0)
           EIGHT ONE NOFLOW MARK L eq_refl).
Defined.

(** * Whole seconds *)

Lemma digits2_pos_size (p : positive) : digits2_pos p = Pos.size p.
Proof. induction p as [p IH | p IH |]; simpl; congruence. Qed.

Lemma digits2_pos_small (p : positive) :
  Zpos p < 2 ^ 32 -> Zpos (digits2_pos p) <= 32.
Proof.
  intros H. rewrite digits2_pos_size.
  pose proof (Pos.size_le p) as L.
  apply Pos2Z.pos_le_pos in L. rewrite Pos2Z.inj_pow in L.
  change (Zpos p~0) with (2 * Zpos p) in L.
  destruct (Z_le_gt_dec (Zpos (Pos.size p)) 32) as [| G]; [assumption |].
  assert (2 ^ 33 <= 2 ^ Zpos (Pos.size p)) by (apply Z.pow_le_mono_r; lia).
  lia.
Qed.

Lemma digits2_pos_shift (p k : positive) :
  digits2_pos (Pos.iter xO p k) = (digits2_pos p + k)%positive.
Proof.
  induction k as [| k IH] using Pos.peano_ind.
  - simpl. now rewrite Pos.add_1_r.
  - rewrite Pos.iter_succ. simpl. rewrite IH. lia.
Qed.

Lemma Zpos_shift (p k : positive) :
  Zpos (Pos.iter xO p k) = Zpos p * 2 ^ Zpos k.
Proof.
  induction k as [| k IH] using Pos.peano_ind.
  - simpl. lia.
  - rewrite Pos.iter_succ, Pos2Z.inj_xO, IH, Pos2Z.inj_succ, Z.pow_succ_r by lia. lia.
Qed.

(** A positive integer below [2^32] converts to the double with that
    value, its mantissa shifted up to 53 bits. *)
Lemma of_Z_small (p : positive) :
  Zpos p < 2 ^ 32 ->
  of_Z (Zpos p)
  = S754_finite false (Pos.iter xO p (53 - digits2_pos p))
                (Zneg (53 - digits2_pos p)).
Proof.
  intros H. pose proof (digits2_pos_small p H) as D.
  set (d := digits2_pos p) in *.
  assert (K : Zpos (53 - d) = 53 - Zpos d) by lia.
  unfold of_Z, binary_normalize, binary_round. fold d.
  assert (F : fexp prec emax (Zpos d + 0) = Zneg (53 - d)).
  { unfold fexp, emin, prec, emax. lia. }
  rewrite F. unfold shl_align.
  replace (Zneg (53 - d) - 0) with (Zneg (53 - d)) by lia.
  unfold binary_round_aux, shr_fexp.
  assert (G : fexp prec emax (Zdigits2 (Zpos (Pos.iter xO p (53 - d))) + Zneg (53 - d))
              - Zneg (53 - d) = 0).
  { unfold Zdigits2. rewrite digits2_pos_shift. fold d.
    unfold fexp, emin, prec, emax. lia. }
  assert (S0 : forall mrs e, shr mrs e 0 = (mrs, e)) by reflexivity.
  rewrite G, S0. cbv beta iota.
  cbv beta iota delta [shr_record_of_loc loc_of_shr_record round_nearest_even
                       shr_m shr_r shr_s].
  rewrite G, S0. reflexivity.
Qed.

Lemma sub_diag_finite (s : bool) (m : positive) (e : Z) :
  sub (S754_finite s m e) (S754_finite s m e) = S754_zero false.
Proof.
  unfold sub, SFsub. rewrite Z.min_id.
  rewrite Z.sub_diag. reflexivity.
Qed.

Lemma floor_int64_of_Z_small (p : positive) :
  Zpos p < 2 ^ 32 -> floor_int64 (of_Z (Zpos p)) = Zpos p.
Proof.
  intros H. rewrite of_Z_small by exact H.
  unfold floor_int64, is_finite, to_Q. simpl cond_Zopp. cbv zeta.
  unfold Qfloor. rewrite Zpos_shift, Pos2Z.inj_pow.
  rewrite Z.div_mul by lia.
  unfold in_int64, INT64_MIN, INT64_MAX.
  destruct (Z.leb_spec (- 2 ^ 63) (Zpos p)); [| lia].
  destruct (Z.leb_spec (Zpos p) (2 ^ 63 - 1)); [| lia].
  reflexivity.
Qed.

(** X26. A whole number of seconds within the 32-bit range converts
    exactly: [to_timeval] of the double [n] is [n] seconds and no
    microseconds. *)
Theorem to_timeval_whole_seconds (n : Z) :
  0 <= n <= UINT32_MAX ->
  to_timeval (of_Z n) = Ok (mk_timeval n 0).
Proof.
  unfold UINT32_MAX. intros Hn.
  destruct n as [| p | p]; [vm_compute; reflexivity | | lia].
  assert (Hp : Zpos p < 2 ^ 32) by lia.
  unfold to_timeval. rewrite floor_int64_of_Z_small by exact Hp.
  unfold UINT32_MAX.
  destruct (Z.ltb_spec (Zpos p) 0); [lia |].
  destruct (Z.gtb_spec (Zpos p) 4294967295); [lia |]. simpl orb. cbv iota.
  rewrite (of_Z_small p Hp), sub_diag_finite.
  change (round_uint32 (mul (S754_zero false) million)) with 0.
  rewrite (wrap32_small (Zpos p)) by lia.
  change (wrap64 0 / 1000000) with 0. change (wrap64 0 mod 1000000) with 0.
  rewrite Z.add_0_r, !wrap64_small by (rewrite ?wrap64_small; lia).
  rewrite sint64_small by lia. reflexivity.
Qed.

Lemma to_timeval_whole_seconds_witness :
  0 <= 86400 <= UINT32_MAX /\ to_timeval (of_Z 86400) = Ok (mk_timeval 86400 0).
Proof.
  split; [unfold UINT32_MAX; lia |].
  apply (to_timeval_whole_seconds 86400). unfold UINT32_MAX. lia.
Defined.

(** X27. [Timeout] converts its four arguments with [to_timeval] and
    fails, with the range error, exactly when one of them does; and
    [simpleTimeout] sets the read, send and per-byte timeouts to its
    argument but leaves the connect timeout at zero. *)
Theorem Timeout_construction (timeout : double) :
  (forall r s b c,
     match Timeout_of r s b c with
     | Ok t =>
         to_timeval r = Ok (read t) /\ to_timeval s = Ok (send t) /\
         to_timeval b = Ok (byte t) /\ to_timeval c = Ok (conn t)
     | Err e =>
         e = RangeError /\
         (to_timeval r = Err e \/ to_timeval s = Err e \/
          to_timeval b = Err e \/ to_timeval c = Err e)
     end) /\
  match to_timeval timeout with
  | Ok tv => simpleTimeout timeout = Ok (mk_Timeout tv tv tv (mk_timeval 0 0))
  | Err e => simpleTimeout timeout = Err RangeError
  end.
Proof.
  split.
  - intros r s b c. unfold Timeout_of.
    destruct (to_timeval r) as [tr | er] eqn:Er;
      destruct (to_timeval s) as [ts | es] eqn:Es;
      destruct (to_timeval b) as [tb | eb] eqn:Eb;
      destruct (to_timeval c) as [tc | ec] eqn:Ec; simpl; auto;
      repeat match goal with
             | H : to_timeval _ = Err _ |- _ =>
                 pose proof (to_timeval_range_error _ _ H); subst; clear H
             end; auto.
  - unfold simpleTimeout, Timeout_of.
    change (to_timeval (of_Z 0)) with (Ok (mk_timeval 0 0)).
    destruct (to_timeval timeout) as [tv | e] eqn:E; [reflexivity |].
    now rewrite (to_timeval_range_error _ _ E).
Qed.

(** * Deadlines and lines *)

(** X28. A transfer never runs past its deadline unnoticed: when the sums
    of the constructor do not overflow, every reading of the clock later
    than [now + timeout + byte * size * 2], as a point in time, is one
    [expired] accepts.  (It also accepts earlier ones.) *)
Theorem deadline_never_missed (now later : timespec) (timeout byte : timeval) (size : Z) :
  0 <= ts_sec now /\ 0 <= ts_nsec now ->
  0 <= tv_sec timeout /\ 0 <= tv_usec timeout ->
  0 <= tv_sec byte < 2 ^ 63 /\ 0 <= tv_usec byte < 2 ^ 63 ->
  0 <= size ->
  tv_sec timeout + tv_sec byte * size * 2 + ts_sec now < 2 ^ 63 ->
  (tv_usec timeout + tv_usec byte * size * 2) * 1000 + ts_nsec now < 2 ^ 63 ->
  timespec_ns now + timeval_ns timeout + timeval_ns byte * size * 2 < timespec_ns later ->
  expired (TimeCheck now timeout byte size) later = true.
Proof.
  intros Hnow Htimeout Hbyte Hsize Hsec Hnsec Hlate.
  apply expired_when_past.
  rewrite TimeCheck_deadline; assumption.
Qed.

Lemma deadline_never_missed_witness :
  let now := mk_timespec 100 900000000 in
  let later := mk_timespec 102 0 in
  let timeout := mk_timeval 1 0 in
  let byte := mk_timeval 0 1042 in
  (timespec_ns now + timeval_ns timeout + timeval_ns byte * 8 * 2 < timespec_ns later) /\
  expired (TimeCheck now timeout byte 8) later = true.
Proof.
  cbv zeta. split; [vm_compute; reflexivity |].
  apply (deadline_never_missed (mk_timespec 100 900000000) (mk_timespec 102 0)
           (mk_timeval 1 0) (mk_timeval 0 1042) 8); simpl; try lia.
  vm_compute. reflexivity.
Defined.

Lemma readline_loop_complete (t : transport) (size : Z) (c : Comm) :
  0 <= size < 2 ^ 64 ->
  is_open_ c = true -> is_connected_ c = true ->
  eol_len_ c = Z.of_nat (List.length (eol_ c)) ->
  forall fuel buffer_ read_so_far w,
    read_so_far = Z.of_nat (List.length buffer_) ->
    0 <= read_so_far <= size ->
    fuel = Z.to_nat (size - read_so_far) ->
    available fuel w ->
    exists out n w',
      readline_loop fuel t size buffer_ read_so_far (c, w) = (Ret (out, n), (c, w')) /\
      n = Z.of_nat (List.length out) /\
      (n = size \/ ends_with (eol_ c) out).
Proof.
  intros Hsize Ho Hc Heol.
  induction fuel as [| fuel IH]; intros buffer_ read_so_far w Hb Hr Hf Ha.
  - simpl. replace (read_so_far <? size) with false
      by (symmetry; apply Z.ltb_ge; lia).
    simpl. unfold ret. exists buffer_, read_so_far, w.
    split; [reflexivity |]. split; [exact Hb | left; lia].
  - cbn [readline_loop].
    replace (read_so_far <? size) with true by (symmetry; apply Z.ltb_lt; lia).
    simpl. unfold bind at 1, this at 1. unfold bind at 1.
    destruct (read__available t c w fuel Ho Hc Ha) as (b & w' & R & Ha').
    rewrite R. simpl.
    rewrite (wrap64_small (read_so_far + 1)) by lia.
    assert (Hb' : read_so_far + 1 = Z.of_nat (List.length (buffer_ ++ [b]))).
    { rewrite length_app. simpl. lia. }
    destruct (Z.ltb_spec (read_so_far + 1) (eol_len_ c)) as [Hshort | Hlong].
    { apply IH; [exact Hb' | lia | lia | assumption]. }
    destruct (bytes_eqb _ _) eqn:E.
    { unfold ret. exists (buffer_ ++ [b]), (read_so_far + 1), w'.
      split; [reflexivity |]. split; [exact Hb' | right].
      apply bytes_eqb_eq in E.
      rewrite wrap64_small in E by lia.
      eapply substr_ends_with; [| | exact E]; lia. }
    apply IH; [exact Hb' | lia | lia | assumption].
Qed.

(** X29. With the bytes waiting, what [readline] returns is a line: on an
    open and connected channel that has [size] bytes waiting in one chunk,
    whenever [readline (size)] returns, the line is the front of the
    stream, and it ends with the marker or is [size] bytes long; the object
    is as it was; and the call throws no exception.  (Whether the call
    returns at all is also a matter of its [alloca (size)], which the model
    does not cover; the loop that follows it does return.) *)
Theorem readline_result_is_a_line (t : transport) (size : Z) (c : Comm) (w : World) :
  0 <= size < 2 ^ 64 ->
  is_open_ c = true -> is_connected_ c = true ->
  eol_len_ c = Z.of_nat (List.length (eol_ c)) ->
  available (Z.to_nat size) w ->
  (forall line st',
     readline t size (c, w) = (Ret line, st') ->
     fst st' = c /\
     rx_stream w = line ++ rx_stream (snd st') /\
     (Z.of_nat (List.length line) = size \/ ends_with (eol_ c) line)) /\
  (forall e, fst (readline t size (c, w)) <> Throw e).
Proof.
  intros Hsize Ho Hc Heol Ha.
  destruct (readline_loop_complete t size c Hsize Ho Hc Heol (Z.to_nat size) [] 0
              (log (Lock mtx_read) w)) as (out & n & w' & L & Hn & Hend);
    [reflexivity | lia | f_equal; lia | exact Ha |].
  pose proof (readline_loop_stream _ _ _ _ _ _ _ _ _ L) as Hstream.
  simpl in Hstream.
  change (rx_stream (log (Lock mtx_read) w)) with (rx_stream w) in Hstream.
  assert (E : readline t size (c, w) = (Ret out, (c, log (Unlock mtx_read) w'))).
  { unfold readline, readline_into, lock_guard. unfold bind at 1. simpl.
    unfold bind at 1. rewrite L. simpl. unfold ret.
    rewrite Hn, Nat2Z.id, firstn_all. reflexivity. }
  rewrite E. split.
  - intros line st' H. inversion H. subst line st'. simpl.
    split; [reflexivity |]. split; [exact Hstream |].
    destruct Hend as [Hend | Hend]; [left; lia | right; exact Hend].
  - intros e. discriminate.
Qed.

Lemma readline_result_is_a_line_witness :
  let w := feed [B "AB" ++ [LF] ++ B "CD"] in
  (0 <= 4 < 2 ^ 64 /\ is_open_ port3 = true /\ is_connected_ port3 = true /\
   eol_len_ port3 = Z.of_nat (List.length (eol_ port3)) /\
   available (Z.to_nat 4) w) /\
  readline Serial 4 (port3, w)
  = (Ret (B "AB" ++ [LF]), snd (readline Serial 4 (port3, w))) /\
  fst (snd (readline Serial 4 (port3, w))) = port3 /\
  rx_stream w = (B "AB" ++ [LF]) ++ rx_stream (snd (snd (readline Serial 4 (port3, w)))) /\
  (Z.of_nat (List.length (B "AB" ++ [LF])) = 4 \/ ends_with (eol_ port3) (B "AB" ++ [LF])).
Proof.
  cbv zeta.
  assert (A : available (Z.to_nat 4) (feed [B "AB" ++ [LF] ++ B "CD"])).
  { split; [simpl; lia |]. right. eexists _, _. split; [reflexivity | simpl; lia]. }
  assert (R : readline Serial 4 (port3, feed [B "AB" ++ [LF] ++ B "CD"])
              = (Ret (B "AB" ++ [LF]),
                 snd (readline Serial 4 (port3, feed [B "AB" ++ [LF] ++ B "CD"])))).
  { vm_compute. reflexivity. }
  split; [split; [lia |]; split; [reflexivity |]; split; [reflexivity |];
          split; [reflexivity | exact A] |].
  split; [exact R |].
  refine (proj1 (readline_result_is_a_line Serial 4 port3
                   (feed [B "AB" ++ [LF] ++ B "CD"]) _ eq_refl eq_refl eq_refl A)
                (B "AB" ++ [LF])
                (snd (readline Serial 4 (port3, feed [B "AB" ++ [LF] ++ B "CD"]))) R).
  lia.
Defined.
